(** * Attic server: access tokens, scope matching and the resolver middleware

    A shallow embedding of
      - [Auth/AccessToken] (the mongoose schema of access tokens, its
        pre/post save hooks, the [formalScope] virtual, the two
        [isAuthorizedToDo] methods, [accessTokenFromRefresh],
        [fromFormalToken]), and
      - [Web/ResolverMiddleware] ([getHttpResponse], [ResolverMiddleware]).

    Conventions.
      - A JavaScript string is a [string]: a sequence of code units, all
        below 256.
      - A JavaScript number holding a time stamp or a duration in
        milliseconds is a [Z] (such values are integers far below 2^53, where
        double arithmetic is exact); [NaN] is kept apart, see [jsnum].
      - A number cast to a [Date] is a time value within the range of
        dates, or an invalid date, see [castDate].
      - An awaited call is run to completion in program order: a
        [Completion] is either a normal return or a thrown error. A save
        that is started and not awaited stays in flight: its steps reach
        the database where the [Schedule] of the request puts them, and
        what is left of it when the method returns is done by [settle].
      - The collections of the database are finite maps from [ObjectId]. *)

From stdpp Require Import gmap strings list fin_maps.
From Stdlib Require Import ZArith Ascii String.

Open Scope string_scope.
Open Scope Z_scope.

(** ** Completions: normal return or throw

    [OutsideFragment] is not an error of the runtime: it marks a pattern or
    a flag that the regular expressions modelled below do not cover, and
    nothing is stated about the code on such an input. *)

Inductive Error :=
  | SyntaxError
  | TypeError
  | CouldNotFindTokenForScopeError (scope : option string)
  | NotAuthorizedToUseScopesError (scopes : list string)
  | ValidationError
  | OutsideFragment.

Inductive Completion (A : Type) :=
  | Return (a : A)
  | Throw (e : Error).
Arguments Return {A} a.
Arguments Throw {A} e.

#[global] Instance Completion_ret : MRet Completion := @Return.
#[global] Instance Completion_bind : MBind Completion :=
  fun A B f c => match c with Return a => f a | Throw e => Throw e end.

Definition returned {A} (c : Completion A) : Prop :=
  match c with Return _ => True | Throw _ => False end.

Definition thrown {A} (c : Completion A) : Prop :=
  match c with Return _ => False | Throw _ => True end.

(** [Array.prototype.map] with a callback that may throw: the elements are
    visited from left to right and the first throw ends the loop. *)
Fixpoint Array_map {A B} (f : A -> Completion B) (l : list A)
  : Completion (list B) :=
  match l with
  | [] => Return []
  | x :: l' => y ← f x; ys ← Array_map f l'; Return (y :: ys)
  end.

(** ** String primitives of the runtime *)

Module JsString.

(** [s.split(sep)] for a one-character separator. The result is never
    empty. *)
Fixpoint split (sep : ascii) (s : string) : list string :=
  match s with
  | "" => [""]
  | String c s' =>
      if Ascii.eqb c sep then "" :: split sep s'
      else match split sep s' with
           | h :: t => String c h :: t
           | [] => [String c ""]
           end
  end.

(** [a.join(sep)] *)
Fixpoint join (sep : string) (a : list string) : string :=
  match a with
  | [] => ""
  | [x] => x
  | x :: a' => x +:+ sep +:+ join sep a'
  end.

(** [a.slice(b, e)] for [0 <= b] and [0 <= e]. *)
Definition slice {A} (b e : nat) (a : list A) : list A :=
  take (e - b) (drop b a).

(** [s.substr(0, n)] *)
Definition substr0 (n : nat) (s : string) : string := substring 0 n s.

(** [s[0] !== c] ([s[0]] is [undefined] for the empty string). *)
Definition first_is_not (c : ascii) (s : string) : bool :=
  match s with
  | String a _ => negb (Ascii.eqb a c)
  | "" => true
  end.

(** [a.includes(x)] on an array of strings. *)
Definition includes (x : string) (a : list string) : bool :=
  existsb (String.eqb x) a.

(** [s] occurs in [t] as a contiguous block. *)
Definition occurs_in (s t : string) : Prop :=
  exists u v, t = u +:+ s +:+ v.

(** [s] begins with [p]. *)
Definition begins_with (p s : string) : Prop :=
  exists rest, s = p +:+ rest.

(** No code unit of [s] is [c]. *)
Fixpoint free_of (c : ascii) (s : string) : bool :=
  match s with
  | "" => true
  | String a s' => negb (Ascii.eqb a c) && free_of c s'
  end.

End JsString.

(** ** The runtime's regular expressions

    [new RegExp(pattern, flags)], [re.test(s)] and [s.replace(re, t)] belong
    to the JavaScript runtime. The token code is written against the
    interface [RegExpEngine]; [ES.engine] below implements it for a fragment
    of the ECMAScript pattern language and is used to run the code on
    concrete scopes. *)

Class RegExpEngine := {
  RegExp : Type;
  (** [new RegExp(pattern, flags)]; throws on a malformed pattern or flag. *)
  RegExp_new : string -> string -> Completion RegExp;
  (** [re.test(s)] on a regular expression whose [lastIndex] is 0. *)
  RegExp_test : RegExp -> string -> bool;
  (** [s.replace(re, t)] for a replacement [t] without [$]. *)
  String_replace : string -> RegExp -> string -> string
}.

Module ES.

(** *** Abstract syntax *)

Inductive ClassEscape := CE_d | CE_D | CE_w | CE_W | CE_s | CE_S.

Inductive ClassItem :=
  | CI_char (c : ascii)
  | CI_range (lo hi : ascii)
  | CI_esc (e : ClassEscape).

Inductive CharSet :=
  | CS_char (c : ascii)
  | CS_dot
  | CS_esc (e : ClassEscape)
  | CS_class (negated : bool) (items : list ClassItem).

Inductive Node :=
  | N_empty
  | N_set (cs : CharSet)
  | N_seq (a b : Node)
  | N_alt (a b : Node)
  | N_star (a : Node) (greedy : bool)
  | N_plus (a : Node) (greedy : bool)
  | N_opt (a : Node) (greedy : bool)
  | N_group (a : Node)
  | N_bol
  | N_eol
  | N_wordb (negated : bool).

Record Flags := {
  global : bool; ignoreCase : bool; multiline : bool;
  dotAll : bool; sticky : bool
}.

Record Regex := { source : Node; flags : Flags }.

(** *** Character predicates *)

Definition code (c : ascii) : nat := nat_of_ascii c.

Definition between (lo hi : nat) (c : ascii) : bool :=
  ((lo <=? code c) && (code c <=? hi))%nat.

Definition isDigit (c : ascii) : bool := between 48 57 c.
Definition isUpper (c : ascii) : bool := between 65 90 c.
Definition isLower (c : ascii) : bool := between 97 122 c.
Definition isAlnum (c : ascii) : bool := isDigit c || isUpper c || isLower c.
Definition isWordChar (c : ascii) : bool := isAlnum c || (code c =? 95)%nat.
Definition isLineTerminator (c : ascii) : bool :=
  ((code c =? 10) || (code c =? 13))%nat.
Definition isWhiteSpace (c : ascii) : bool :=
  (between 9 13 c || (code c =? 32) || (code c =? 160))%nat.
Definition isAscii (c : ascii) : bool := (code c <? 128)%nat.

Definition toUpper (c : ascii) : ascii :=
  if isLower c then ascii_of_nat (code c - 32) else c.
Definition toLower (c : ascii) : ascii :=
  if isUpper c then ascii_of_nat (code c + 32) else c.

(** Canonicalize of the specification, on code units below 128. *)
Definition canonicalize (f : Flags) (c : ascii) : ascii :=
  if ignoreCase f then toUpper c else c.

Definition inEscape (e : ClassEscape) (c : ascii) : bool :=
  match e with
  | CE_d => isDigit c
  | CE_D => negb (isDigit c)
  | CE_w => isWordChar c
  | CE_W => negb (isWordChar c)
  | CE_s => isWhiteSpace c
  | CE_S => negb (isWhiteSpace c)
  end.

Definition inItem (i : ClassItem) (c : ascii) : bool :=
  match i with
  | CI_char a => Ascii.eqb a c
  | CI_range lo hi => between (code lo) (code hi) c
  | CI_esc e => inEscape e c
  end.

(** Membership of a code unit in the set an atom denotes, before case
    folding and inversion. *)
Definition inSet (f : Flags) (cs : CharSet) (c : ascii) : bool :=
  match cs with
  | CS_char a => Ascii.eqb a c
  | CS_dot => dotAll f || negb (isLineTerminator c)
  | CS_esc e => inEscape e c
  | CS_class _ items => existsb (fun i => inItem i c) items
  end.

Definition inverted (cs : CharSet) : bool :=
  match cs with CS_class n _ => n | _ => false end.

(** CharacterSetMatcher: some member of the set has the canonical form of
    the input character. Below 128 the members with the canonical form of
    [c] are [c], [toUpper c] and [toLower c]. *)
Definition accepts (f : Flags) (cs : CharSet) (c : ascii) : bool :=
  let found :=
    if ignoreCase f
    then inSet f cs c || inSet f cs (toUpper c) || inSet f cs (toLower c)
    else inSet f cs c in
  xorb (inverted cs) found.

(** CharacterSetMatcher as the specification words it. *)
Definition acceptsSpec (f : Flags) (cs : CharSet) (c : ascii) : Prop :=
  let found :=
    exists a, inSet f cs a = true /\ canonicalize f a = canonicalize f c in
  if inverted cs then ~ found else found.

Definition codeUnits : list ascii := map ascii_of_nat (seq 0 256).

(** *** Matching

    The matcher of the specification, in continuation-passing style. A
    state is the rest of the input together with the character before
    it. *)

Record State := { prev : option ascii; rest : string }.

Definition remaining (x : State) : nat := String.length (rest x).

Definition progress (x y : State) : bool := (remaining y <? remaining x)%nat.

Definition Continuation := State -> option State.

Definition orElse (a : option State) (b : option State) : option State :=
  match a with Some z => Some z | None => b end.

Definition atBol (f : Flags) (x : State) : bool :=
  match prev x with
  | None => true
  | Some c => multiline f && isLineTerminator c
  end.

Definition atEol (f : Flags) (x : State) : bool :=
  match rest x with
  | "" => true
  | String c _ => multiline f && isLineTerminator c
  end.

Definition wordBefore (x : State) : bool :=
  match prev x with Some c => isWordChar c | None => false end.

Definition wordAfter (x : State) : bool :=
  match rest x with String c _ => isWordChar c | "" => false end.

Definition guard (b : bool) (x : State) (k : Continuation) : option State :=
  if b then k x else None.

(** RepeatMatcher with min = 0 and max = infinity. An iteration that
    consumes nothing is rejected; [fuel] bounds the iterations that
    consume something by the length of the remaining input. *)
Fixpoint repeat (m : State -> Continuation -> option State) (greedy : bool)
    (fuel : nat) (x : State) (k : Continuation) : option State :=
  let d := fun y =>
    if progress x y
    then match fuel with
         | O => None
         | S fuel' => repeat m greedy fuel' y k
         end
    else None in
  if greedy then orElse (m x d) (k x) else orElse (k x) (m x d).

Fixpoint matcher (f : Flags) (n : Node) (x : State) (k : Continuation)
  : option State :=
  match n with
  | N_empty => k x
  | N_set cs =>
      match rest x with
      | "" => None
      | String c s => guard (accepts f cs c) {| prev := Some c; rest := s |} k
      end
  | N_seq a b => matcher f a x (fun y => matcher f b y k)
  | N_alt a b => orElse (matcher f a x k) (matcher f b x k)
  | N_star a g => repeat (matcher f a) g (remaining x) x k
  | N_plus a g =>
      matcher f a x (fun y => repeat (matcher f a) g (remaining y) y k)
  | N_opt a g =>
      let d := fun y => if progress x y then k y else None in
      if g then orElse (matcher f a x d) (k x)
      else orElse (k x) (matcher f a x d)
  | N_group a => matcher f a x k
  | N_bol => guard (atBol f x) x k
  | N_eol => guard (atEol f x) x k
  | N_wordb neg => guard (xorb neg (xorb (wordBefore x) (wordAfter x))) x k
  end.

(** RegExpBuiltinExec with [lastIndex] = 0: the first index at which the
    pattern matches, with the end of the match found there. A sticky
    expression is tried at index 0 only. *)
Fixpoint search (r : Regex) (p : option ascii) (s : string) (i : nat)
  : option (nat * nat) :=
  match matcher (flags r) (source r) {| prev := p; rest := s |} Some with
  | Some y => Some (i, (i + (String.length s - remaining y))%nat)
  | None =>
      if sticky (flags r) then None
      else match s with
           | "" => None
           | String c s' => search r (Some c) s' (S i)
           end
  end.

Definition exec (r : Regex) (s : string) : option (nat * nat) :=
  search r None s 0.

Definition test (r : Regex) (s : string) : bool :=
  match exec r s with Some _ => true | None => false end.

(** The state [n] code units further on. *)
Fixpoint skip (n : nat) (p : option ascii) (s : string)
  : option ascii * string :=
  match n, s with
  | S n', String c s' => skip n' (Some c) s'
  | _, _ => (p, s)
  end.

(** The loop of [RegExp.prototype[Symbol.replace]] for a global
    expression: after an empty match [lastIndex] moves one code unit
    on. Every round shortens the input, whose length bounds [fuel]. *)
Fixpoint replaceAll (r : Regex) (t : string) (fuel : nat)
    (p : option ascii) (s : string) : string :=
  match fuel with
  | O => s
  | S fuel' =>
      match search r p s 0 with
      | None => s
      | Some (b, e) =>
          substring 0 b s +:+ t +:+
          (if (e =? b)%nat
           then match skip b p s with
                | (_, String c s') =>
                    String c (replaceAll r t fuel' (Some c) s')
                | (_, "") => ""
                end
           else let '(p', s') := skip e p s in replaceAll r t fuel' p' s')
      end
  end.

(** [s.replace(r, t)] for a replacement [t] without [$]. *)
Definition replace (s : string) (r : Regex) (t : string) : string :=
  if global (flags r) then replaceAll r t (S (String.length s)) None s
  else match exec r s with
       | Some (b, e) =>
           substring 0 b s +:+ t +:+ substring e (String.length s - e) s
       | None => s
       end.

(** *** Parsing

    The pattern grammar without the [u] flag. Left out of the fragment,
    and reported as [OutsideFragment]: braces, a [']'] outside a class,
    look-around and named groups, back references, escapes that start with
    a letter or digit other than [b B d D w W s S t n v f r], a class
    range with a class escape as a bound, the flags [u], [d] and [v],
    and a code unit above 127 in a pattern with the flag [i]. *)

Definition controlEscape (c : ascii) : option ascii :=
  match c with
  | "t"%char => Some (ascii_of_nat 9)
  | "n"%char => Some (ascii_of_nat 10)
  | "v"%char => Some (ascii_of_nat 11)
  | "f"%char => Some (ascii_of_nat 12)
  | "r"%char => Some (ascii_of_nat 13)
  | _ => None
  end.

Definition classEscape (c : ascii) : option ClassEscape :=
  match c with
  | "d"%char => Some CE_d | "D"%char => Some CE_D
  | "w"%char => Some CE_w | "W"%char => Some CE_W
  | "s"%char => Some CE_s | "S"%char => Some CE_S
  | _ => None
  end.

(** What follows a backslash, outside ([inClass = false]) or inside a
    class, assertions apart. *)
Definition parseEscape (inClass : bool) (c : ascii) : Completion ClassItem :=
  match classEscape c with
  | Some e => Return (CI_esc e)
  | None =>
      match controlEscape c with
      | Some a => Return (CI_char a)
      | None =>
          if inClass && Ascii.eqb c "b" then Return (CI_char (ascii_of_nat 8))
          else if isAlnum c then Throw OutsideFragment
          else Return (CI_char c)
      end
  end.

Definition parseClassAtom (s : string) : Completion (ClassItem * string) :=
  match s with
  | "" => Throw SyntaxError
  | String "\" "" => Throw SyntaxError
  | String "\" (String c s') => i ← parseEscape true c; Return (i, s')
  | String c s' => Return (CI_char c, s')
  end.

Definition startsRange (s : string) : option string :=
  match s with
  | String "-" "" => None
  | String "-" (String "]" _) => None
  | String "-" s' => Some s'
  | _ => None
  end.

Fixpoint parseClassItems (fuel : nat) (s : string)
  : Completion (list ClassItem * string) :=
  match fuel with
  | O => Throw OutsideFragment
  | S fuel' =>
      match s with
      | "" => Throw SyntaxError
      | String "]" s' => Return ([], s')
      | _ =>
          '(a, s1) ← parseClassAtom s;
          match startsRange s1 with
          | None =>
              '(items, s2) ← parseClassItems fuel' s1;
              Return (a :: items, s2)
          | Some s2 =>
              '(b, s3) ← parseClassAtom s2;
              match a, b with
              | CI_char lo, CI_char hi =>
                  if (code hi <? code lo)%nat then Throw SyntaxError
                  else '(items, s4) ← parseClassItems fuel' s3;
                       Return (CI_range lo hi :: items, s4)
              | _, _ => Throw OutsideFragment
              end
          end
      end
  end.

Definition parseClass (s : string) : Completion (CharSet * string) :=
  match s with
  | String "^" s' =>
      '(items, s1) ← parseClassItems (S (String.length s')) s';
      Return (CS_class true items, s1)
  | _ =>
      '(items, s1) ← parseClassItems (S (String.length s)) s;
      Return (CS_class false items, s1)
  end.

Definition lazyMark (s : string) : bool * string :=
  match s with
  | String "?" s' => (false, s')
  | _ => (true, s)
  end.

Definition parseQuantifier (a : Node) (s : string) : Completion (Node * string) :=
  match s with
  | String "*" s' => let '(g, s1) := lazyMark s' in Return (N_star a g, s1)
  | String "+" s' => let '(g, s1) := lazyMark s' in Return (N_plus a g, s1)
  | String "?" s' => let '(g, s1) := lazyMark s' in Return (N_opt a g, s1)
  | String "{" _ => Throw OutsideFragment
  | _ => Return (a, s)
  end.

Definition endsAlternative (s : string) : bool :=
  match s with
  | "" | String "|" _ | String ")" _ => true
  | _ => false
  end.

Fixpoint parseDisjunction (fuel : nat) (s : string) {struct fuel}
  : Completion (Node * string) :=
  match fuel with
  | O => Throw OutsideFragment
  | S fuel' =>
      '(a, s1) ← parseAlternative fuel' s;
      match s1 with
      | String "|" s2 =>
          '(b, s3) ← parseDisjunction fuel' s2; Return (N_alt a b, s3)
      | _ => Return (a, s1)
      end
  end
with parseAlternative (fuel : nat) (s : string) {struct fuel}
  : Completion (Node * string) :=
  match fuel with
  | O => Throw OutsideFragment
  | S fuel' =>
      if endsAlternative s then Return (N_empty, s)
      else '(t, s1) ← parseTerm fuel' s;
           '(r, s2) ← parseAlternative fuel' s1;
           Return (N_seq t r, s2)
  end
with parseTerm (fuel : nat) (s : string) {struct fuel}
  : Completion (Node * string) :=
  match fuel with
  | O => Throw OutsideFragment
  | S fuel' =>
      match s with
      | "" => Throw SyntaxError
      | String "^" s' => Return (N_bol, s')
      | String "$" s' => Return (N_eol, s')
      | String "\" "" => Throw SyntaxError
      | String "\" (String "b" s') => Return (N_wordb false, s')
      | String "\" (String "B" s') => Return (N_wordb true, s')
      | String "\" (String c s') =>
          i ← parseEscape false c;
          match i with
          | CI_char a => parseQuantifier (N_set (CS_char a)) s'
          | CI_esc e => parseQuantifier (N_set (CS_esc e)) s'
          | CI_range _ _ => Throw OutsideFragment
          end
      | String "." s' => parseQuantifier (N_set CS_dot) s'
      | String "[" s' =>
          '(cs, s1) ← parseClass s'; parseQuantifier (N_set cs) s1
      | String "(" s' =>
          '(a, s1) ←
            match s' with
            | String "?" (String ":" s2) => parseDisjunction fuel' s2
            | String "?" _ => Throw OutsideFragment
            | _ => parseDisjunction fuel' s'
            end;
          match s1 with
          | String ")" s2 => parseQuantifier (N_group a) s2
          | _ => Throw SyntaxError
          end
      | String "*" _ | String "+" _ | String "?" _ => Throw SyntaxError
      | String "{" _ | String "}" _ | String "]" _ => Throw OutsideFragment
      | String c s' => parseQuantifier (N_set (CS_char c)) s'
      end
  end.

Definition parsePattern (p : string) : Completion Node :=
  '(n, s) ← parseDisjunction (4 * String.length p + 8) p;
  match s with
  | "" => Return n
  | _ => Throw SyntaxError
  end.

Definition noFlags : Flags :=
  {| global := false; ignoreCase := false; multiline := false;
     dotAll := false; sticky := false |}.

Definition setFlag (already : bool) (f : Flags) : Completion Flags :=
  if already then Throw SyntaxError else Return f.

Fixpoint parseFlags (s : string) (f : Flags) : Completion Flags :=
  match s with
  | "" => Return f
  | String c s' =>
      f' ← match c with
           | "g"%char => setFlag (global f)
               {| global := true; ignoreCase := ignoreCase f;
                  multiline := multiline f; dotAll := dotAll f;
                  sticky := sticky f |}
           | "i"%char => setFlag (ignoreCase f)
               {| global := global f; ignoreCase := true;
                  multiline := multiline f; dotAll := dotAll f;
                  sticky := sticky f |}
           | "m"%char => setFlag (multiline f)
               {| global := global f; ignoreCase := ignoreCase f;
                  multiline := true; dotAll := dotAll f;
                  sticky := sticky f |}
           | "s"%char => setFlag (dotAll f)
               {| global := global f; ignoreCase := ignoreCase f;
                  multiline := multiline f; dotAll := true;
                  sticky := sticky f |}
           | "y"%char => setFlag (sticky f)
               {| global := global f; ignoreCase := ignoreCase f;
                  multiline := multiline f; dotAll := dotAll f;
                  sticky := true |}
           | "u"%char | "d"%char | "v"%char => Throw OutsideFragment
           | _ => Throw SyntaxError
           end;
      parseFlags s' f'
  end.

Fixpoint allAscii (s : string) : bool :=
  match s with
  | "" => true
  | String c s' => isAscii c && allAscii s'
  end.

(** [new RegExp(pattern, flags)] *)
Definition compile (pattern fl : string) : Completion Regex :=
  f ← parseFlags fl noFlags;
  n ← parsePattern pattern;
  if ignoreCase f && negb (allAscii pattern) then Throw OutsideFragment
  else Return {| source := n; flags := f |}.

(** *** Patterns without syntax characters *)

Definition isSyntaxCharacter (c : ascii) : bool :=
  existsb (Ascii.eqb c) (list_ascii_of_string "^$\.*+?()[]{}|").

Fixpoint plain (s : string) : bool :=
  match s with
  | "" => true
  | String c s' => negb (isSyntaxCharacter c) && plain s'
  end.

(** The pattern that matches the code units of [s] one after the other. *)
Fixpoint literal (s : string) : Node :=
  match s with
  | "" => N_empty
  | String c s' => N_seq (N_set (CS_char c)) (literal s')
  end.

(** The character before the position reached after reading [u], when [p]
    came before [u]. *)
Fixpoint prevAfter (p : option ascii) (u : string) : option ascii :=
  match u with
  | "" => p
  | String c u' => prevAfter (Some c) u'
  end.

(** The pattern of [r] matches in [u +:+ v] from the end of [u] on. *)
Definition matchesAt (r : Regex) (u v : string) : Prop :=
  is_Some (matcher (flags r) (source r)
             {| prev := prevAfter None u; rest := v |} Some).

(** A matcher hands to its continuation only states at or after its own:
    it cannot tell apart continuations that agree there. *)
Definition ext (m : State -> Continuation -> option State) : Prop :=
  forall x k1 k2,
    (forall y, (remaining y <= remaining x)%nat -> k1 y = k2 y) ->
    m x k1 = m x k2.

#[global] Instance engine : RegExpEngine := {
  RegExp := Regex;
  RegExp_new := compile;
  RegExp_test := test;
  String_replace := replace
}.

End ES.

(** ** Values of the data model *)

(** A number that may be [NaN] ([x + undefined]). *)
Inductive jsnum := Num (z : Z) | NaN.

(** The largest time value of a [Date], in milliseconds. *)
Definition maxTime : Z := 8640000000000000.

(** A number cast to the [Date] of a schema path. Outside the range of time
    values the cast fails: the path stays unset and the document fails its
    validation, which [NaN] stands for. *)
Definition castDate (t : Z) : jsnum :=
  if Z.abs t <=? maxTime then Num t else NaN.

(** A property that may be missing, [null], or set. *)
Inductive Nullable (A : Type) := undefined | null | value (a : A).
Arguments undefined {A}.
Arguments null {A}.
Arguments value {A} a.

Definition ObjectId := positive.

(** [TokenTypes], with the strings of the schema's enum
    [[ 'bearer', 'refresh_token' ]]. *)
Inductive TokenTypes := Bearer | RefreshToken.

(** Modelled from the spec: the enumeration [IClientRole] (declared in
    attic-common, outside src) names the roles [provider] and [consumer];
    any further member is [otherRole]. *)
Inductive IClientRole := provider | consumer | otherRole (name : string).

#[global] Instance jsnum_eq_dec : EqDecision jsnum.
Proof. solve_decision. Defined.
#[global] Instance TokenTypes_eq_dec : EqDecision TokenTypes.
Proof. solve_decision. Defined.
#[global] Instance IClientRole_eq_dec : EqDecision IClientRole.
Proof. solve_decision. Defined.

Module IConfig.
Record t := {
  expireTokenIn : option Z;
  expireRefreshTokenIn : option Z
}.
End IConfig.

Module IClient.
Record t := {
  _id : ObjectId;
  name : string;
  scope : list string;
  expireAccessTokenIn : Nullable Z;
  expireRefreshTokenIn : Nullable Z;
  redirectUri : string;
  tokenUri : string;
  clientId : string;
  clientSecret : string
}.
End IClient.

Module IUser.
Record t := {
  _id : ObjectId;
  scope : list string
}.
End IUser.

(** A document of the collection [access_tokens]. [expiresAt] is a date
    in milliseconds; [Some NaN] is a date that failed to cast. *)
Module IAccessToken.
Record t := {
  _id : ObjectId;
  tokenType : option TokenTypes;
  token : string;
  linkedToken : option ObjectId;
  expiresAt : option jsnum;
  scope : list string;
  user : option ObjectId;
  client : ObjectId;
  clientRole : IClientRole;
  clientName : option string
}.

Definition set_clientName (v : option string) (d : t) : t :=
  {| _id := _id d; tokenType := tokenType d; token := token d;
     linkedToken := linkedToken d; expiresAt := expiresAt d;
     scope := scope d; user := user d; client := client d;
     clientRole := clientRole d; clientName := v |}.

Definition set_scope (v : list string) (d : t) : t :=
  {| _id := _id d; tokenType := tokenType d; token := token d;
     linkedToken := linkedToken d; expiresAt := expiresAt d;
     scope := v; user := user d; client := client d;
     clientRole := clientRole d; clientName := clientName d |}.

Definition set_linkedToken (v : option ObjectId) (d : t) : t :=
  {| _id := _id d; tokenType := tokenType d; token := token d;
     linkedToken := v; expiresAt := expiresAt d;
     scope := scope d; user := user d; client := client d;
     clientRole := clientRole d; clientName := clientName d |}.

Definition set_expiresAt (v : option jsnum) (d : t) : t :=
  {| _id := _id d; tokenType := tokenType d; token := token d;
     linkedToken := linkedToken d; expiresAt := v;
     scope := scope d; user := user d; client := client d;
     clientRole := clientRole d; clientName := clientName d |}.
End IAccessToken.

(** The wire format of a token pair. *)
Module IFormalAccessToken.
Record t := {
  access_token : string;
  refresh_token : option string;
  scope : option string;
  expires_in : option Z;
  token_type : string
}.
End IFormalAccessToken.

(** ** The scope matcher of a token

    [AccessTokenSchema.methods.isAuthorizedToDo] is assigned twice. *)

(** The argument of the first definition: [string|Function]. *)
Inductive ScopeArg := ScopeString (s : string) | ScopeFunction (name : string).

(** The first assignment: membership in [this.scope]. *)
Definition isAuthorizedToDo_first (this : IAccessToken.t) (scope : ScopeArg)
  : bool :=
  let scope := match scope with
               | ScopeFunction name => name
               | ScopeString s => s
               end in
  JsString.includes scope (IAccessToken.scope this).

Section ScopeMatcher.
Context {E : RegExpEngine}.

(** The callback of [this.scope.map] in the second assignment. *)
Definition scopeRegex (x : string) : Completion RegExp :=
  if JsString.first_is_not "/" x then RegExp_new x ""
  else
    let regex := JsString.split "/" x in
    let options :=
      default ""
        (head (JsString.slice (List.length regex - 1) (List.length regex) regex)) in
    let regex := JsString.slice 1 (List.length regex - 1) regex in
    RegExp_new (JsString.join "/" regex) options.

(** The second assignment, the one in force: every granted scope is
    compiled first, then the expressions are tested in order. *)
Definition isAuthorizedToDo (this : IAccessToken.t) (scope : string)
  : Completion bool :=
  regexes ← Array_map scopeRegex (IAccessToken.scope this);
  Return (existsb (fun regex => RegExp_test regex scope) regexes).

(** The virtual [formalScope]. *)
Definition formalScope (this : IAccessToken.t) : Completion (list string) :=
  if decide (IAccessToken.clientRole this = provider) then
    Array_map (fun s =>
        re ← RegExp_new ("$" +:+ default "undefined" (IAccessToken.clientName this)) "";
        Return (String_replace s re ""))
      (IAccessToken.scope this)
  else Return (IAccessToken.scope this).

End ScopeMatcher.

(** [AccessTokenSchema.methods] after both assignments: a later
    assignment to a key replaces the earlier one. *)
Definition AccessTokenSchema_methods {E : RegExpEngine}
  : gmap string (IAccessToken.t -> string -> Completion bool) :=
  <["isAuthorizedToDo" := isAuthorizedToDo]>
  (<["isAuthorizedToDo" :=
      fun this scope => Return (isAuthorizedToDo_first this (ScopeString scope))]> ∅).

(** ** The database and the lifecycle hooks *)

(** What an operation did to the collection [access_tokens], in order. *)
Inductive Op :=
  | OpSave (id : ObjectId)
  | OpRemove (id : ObjectId)
  | OpDeleteMany (linked except : ObjectId).

#[global] Instance Op_eq_dec : EqDecision Op.
Proof. solve_decision. Defined.

(** A [save()] that was started and not awaited: the document as it
    stands, and how far the save has got. The validation and the pre-save
    hook come first, then the write, then the post-save hook. *)
Inductive Stage := Started | Hooked | Written | Settled.

Record InFlight := { pending : IAccessToken.t; stage : Stage }.

Record World := {
  access_tokens : gmap ObjectId IAccessToken.t;
  clients : gmap ObjectId IClient.t;
  users : gmap ObjectId IUser.t;
  nextId : ObjectId;
  journal : list Op;
  inFlight : list InFlight
}.

Definition set_access_tokens (m : gmap ObjectId IAccessToken.t) (o : Op)
    (w : World) : World :=
  {| access_tokens := m; clients := clients w; users := users w;
     nextId := nextId w; journal := journal w ++ [o];
     inFlight := inFlight w |}.

(** [new ObjectId()] *)
Definition newObjectId (w : World) : ObjectId * World :=
  (nextId w,
   {| access_tokens := access_tokens w; clients := clients w;
      users := users w; nextId := Pos.succ (nextId w);
      journal := journal w; inFlight := inFlight w |}).

Definition set_inFlight (l : list InFlight) (w : World) : World :=
  {| access_tokens := access_tokens w; clients := clients w;
     users := users w; nextId := nextId w; journal := journal w;
     inFlight := l |}.

(** The upstream token endpoint. *)
Record Request := { uri : string; query : list (string * string) }.
Record Response := { status : Z; json : IFormalAccessToken.t }.

(** How far a save that is not awaited gets while the method that started
    it waits: the number of its steps (the pre-save hook with the validation
    before it, the write, the post-save hook) taken between the removal of
    the old record and the write of the awaited save, and between that
    write and the return. *)
Record Schedule := { beforeSave : nat; beforeReturn : nat }.

(** What a request reads from outside the database: the clock, the
    generator of token strings, the network, and the pace of what it does
    not wait for. *)
Record Env := {
  now : Z;
  nanoid : string;
  fetch : Request -> Response;
  schedule : Schedule
}.

(** What the generator [user.getAccessTokensForScope] yields: nothing
    usable, or a scope with the token found for it, if any. *)
Definition ScopeAccessTokenPair : Type := option (string * option ObjectId).

Definition isBearer (d : IAccessToken.t) : bool :=
  bool_decide (IAccessToken.tokenType d = Some Bearer).

Definition isRefreshToken (d : IAccessToken.t) : bool :=
  bool_decide (IAccessToken.tokenType d = Some RefreshToken).

Definition isNull {A} (x : Nullable A) : bool :=
  match x with null => true | _ => false end.

(** [a + b] for a number [a] and a number [b] that may be [undefined]. *)
Definition plus (a : Z) (b : option Z) : jsnum :=
  match b with
  | Some v => Num (a + v)
  | None => NaN
  end.

(** [now + (typeof x !== 'undefined' ? x : dflt)] for [x !== null] *)
Definition expiry (now : Z) (x : Nullable Z) (dflt : option Z) : jsnum :=
  plus now (match x with value v => Some v | _ => dflt end).

(** [AccessToken.deleteMany({ tokenType: Bearer, linkedToken, _id: { $ne } })] *)
Definition siblingOf (linked except : ObjectId) (d : IAccessToken.t) : bool :=
  isBearer d
  && bool_decide (IAccessToken.linkedToken d = Some linked)
  && negb (bool_decide (IAccessToken._id d = except)).

Definition deleteMany (p : IAccessToken.t -> bool)
    (m : gmap ObjectId IAccessToken.t) : gmap ObjectId IAccessToken.t :=
  filter (fun kd => p kd.2 = false) m.

(** The bearer tokens of the collection whose [linkedToken] is [linked]. *)
Definition bearersLinkedTo (linked : ObjectId)
    (m : gmap ObjectId IAccessToken.t) : gmap ObjectId IAccessToken.t :=
  filter (fun kd => isBearer kd.2 = true
                    ∧ IAccessToken.linkedToken kd.2 = Some linked) m.

Definition refreshTokens (m : gmap ObjectId IAccessToken.t)
  : gmap ObjectId IAccessToken.t :=
  filter (fun kd => isRefreshToken kd.2 = true) m.

Section Tokens.

(** [isAuthorizedToDo] imported from [../User], outside src. *)
Variable User_isAuthorizedToDo : list string -> string -> bool.

(** The method [getAccessTokensForScope] of a user, outside src, with the
    values the generator yields for the scopes asked. *)
Variable getAccessTokensForScope :
  World -> IUser.t -> list string -> list ScopeAccessTokenPair.

Variable config : IConfig.t.

Record ValidInvalidScopes := {
  unauthorizedScopes : list string;
  validScopes : list string
}.

Fixpoint getValidInvalidScopes (scopes : list string) (client : IClient.t)
    (user : IUser.t) : ValidInvalidScopes :=
  match scopes with
  | [] => {| unauthorizedScopes := []; validScopes := [] |}
  | singleScope :: scopes' =>
      let r := getValidInvalidScopes scopes' client user in
      if String.eqb singleScope "" then r
      else if User_isAuthorizedToDo (IUser.scope user) singleScope
              || User_isAuthorizedToDo (IClient.scope client) singleScope
      then {| unauthorizedScopes := unauthorizedScopes r;
              validScopes := singleScope :: validScopes r |}
      else {| unauthorizedScopes := singleScope :: unauthorizedScopes r;
              validScopes := validScopes r |}
  end.

Definition checkScopePermission (scopes : list string) (client : IClient.t)
    (user : IUser.t) : Completion (list string) :=
  let r := getValidInvalidScopes scopes client user in
  match unauthorizedScopes r with
  | _ :: _ => Throw (NotAuthorizedToUseScopesError (unauthorizedScopes r))
  | [] => Return (validScopes r)
  end.

(** The body of the [for await] loop of the pre-save hook. *)
Fixpoint forAwaitTokens (yielded : list ScopeAccessTokenPair)
  : Completion (option jsnum) :=
  match yielded with
  | [] => Return None
  | None :: _ => Throw (CouldNotFindTokenForScopeError None)
  | Some (scope, None) :: _ => Throw (CouldNotFindTokenForScopeError (Some scope))
  | Some (_, Some _) :: yielded' => forAwaitTokens yielded'
  end.

(** [AccessTokenSchema.pre('save')]: what the hook returns or throws, and
    the document as the hook leaves it. *)
Definition pre_save (env : Env) (w : World) (this : IAccessToken.t)
  : Completion (option jsnum) * IAccessToken.t :=
  match clients w !! IAccessToken.client this with
  | None => (Throw TypeError, this)
  | Some client =>
      let this := IAccessToken.set_clientName (Some (IClient.name client)) this in
      let this :=
        if bool_decide (IAccessToken.clientRole this = provider)
           && negb (bool_decide (IAccessToken.scope this = []))
        then IAccessToken.set_scope
               (map (fun s => IClient.name client +:+ "." +:+ s)
                    (IAccessToken.scope this)) this
        else this in
      if isBearer this && negb (isNull (IClient.expireAccessTokenIn client))
      then (Return (Some (expiry (now env) (IClient.expireAccessTokenIn client)
                            (IConfig.expireTokenIn config))), this)
      else if isRefreshToken this
              && negb (isNull (IClient.expireRefreshTokenIn client))
      then (Return (Some (expiry (now env) (IClient.expireRefreshTokenIn client)
                            (IConfig.expireRefreshTokenIn config))), this)
      else
        match IAccessToken.user this with
        | None => (Return None, this)
        | Some uid =>
            let user := users w !! uid in
            if bool_decide (IAccessToken.clientRole this = consumer) then
              match user with
              | None => (Throw TypeError, this)
              | Some user =>
                  let r := getValidInvalidScopes (IAccessToken.scope this)
                             client user in
                  (forAwaitTokens
                     (getAccessTokensForScope w user (unauthorizedScopes r)),
                   this)
              end
            else (Return None, this)
        end
  end.

(** [AccessTokenSchema.post('save')] *)
Definition post_save (doc : IAccessToken.t) (w : World) : World :=
  match IAccessToken.linkedToken doc with
  | Some linked =>
      if isBearer doc then
        set_access_tokens
          (deleteMany (siblingOf linked (IAccessToken._id doc)) (access_tokens w))
          (OpDeleteMany linked (IAccessToken._id doc)) w
      else w
  | None => w
  end.

(** [doc.save()]: validation, the pre-save hook, the write, the post-save
    hook. A hook that throws leaves the collection as it was. *)
Definition save (env : Env) (doc : IAccessToken.t) (w : World)
  : Completion unit * IAccessToken.t * World :=
  if bool_decide (IAccessToken.expiresAt doc = Some NaN)
  then (Throw ValidationError, doc, w)
  else
    match pre_save env w doc with
    | (Throw e, doc') => (Throw e, doc', w)
    | (Return _, doc') =>
        let w1 := set_access_tokens
                    (<[IAccessToken._id doc' := doc']> (access_tokens w))
                    (OpSave (IAccessToken._id doc')) w in
        (Return (), doc', post_save doc' w1)
    end.

(** [doc.remove()] *)
Definition remove (doc : IAccessToken.t) (w : World) : World :=
  set_access_tokens (delete (IAccessToken._id doc) (access_tokens w))
    (OpRemove (IAccessToken._id doc)) w.

(** What comes before the write in [doc.save()]: the validation and the
    pre-save hook. *)
Definition validated (env : Env) (doc : IAccessToken.t) (w : World)
  : Completion unit * IAccessToken.t :=
  if bool_decide (IAccessToken.expiresAt doc = Some NaN)
  then (Throw ValidationError, doc)
  else
    match pre_save env w doc with
    | (Throw e, doc') => (Throw e, doc')
    | (Return _, doc') => (Return (), doc')
    end.

(** The write of [doc.save()]. *)
Definition insertOne (doc : IAccessToken.t) (w : World) : World :=
  set_access_tokens (<[IAccessToken._id doc := doc]> (access_tokens w))
    (OpSave (IAccessToken._id doc)) w.

(** One step of a save in flight. What it throws nobody hears, and nothing
    is written then. *)
Definition step (env : Env) (t : InFlight) (w : World) : InFlight * World :=
  match stage t with
  | Started =>
      match validated env (pending t) w with
      | (Throw _, doc') => ({| pending := doc'; stage := Settled |}, w)
      | (Return _, doc') => ({| pending := doc'; stage := Hooked |}, w)
      end
  | Hooked =>
      ({| pending := pending t; stage := Written |}, insertOne (pending t) w)
  | Written =>
      ({| pending := pending t; stage := Settled |}, post_save (pending t) w)
  | Settled => (t, w)
  end.

Fixpoint steps (env : Env) (n : nat) (t : InFlight) (w : World)
  : InFlight * World :=
  match n with
  | O => (t, w)
  | S n' => let '(t', w') := step env t w in steps env n' t' w'
  end.

(** The method returns: a save that has not settled stays in flight. *)
Definition leave (t : InFlight) (w : World) : World :=
  match stage t with
  | Settled => w
  | _ => set_inFlight (inFlight w ++ [t]) w
  end.

(** Every save in flight runs to its end, in the order in which they were
    started. *)
Definition settle (env : Env) (w : World) : World :=
  fold_left (fun w t => (steps env 3 t w).2) (inFlight w) (set_inFlight [] w).

Definition truthy (s : option string) : option string :=
  match s with
  | Some "" => None
  | _ => s
  end.

(** [fromFormalToken]: builds the documents, saves none. *)
Definition fromFormalToken (env : Env) (formalToken : IFormalAccessToken.t)
    (user : option ObjectId) (client : IClient.t) (role : IClientRole)
    (w : World) : IAccessToken.t * option IAccessToken.t * World :=
  let scope :=
    match truthy (IFormalAccessToken.scope formalToken) with
    | Some s => JsString.split " " s
    | None => []
    end in
  let '(aid, w1) := newObjectId w in
  let accessToken :=
    {| IAccessToken._id := aid;
       IAccessToken.token := IFormalAccessToken.access_token formalToken;
       IAccessToken.expiresAt :=
         match IFormalAccessToken.expires_in formalToken with
         | Some 0 | None => None
         | Some n => Some (castDate (now env + n * 1000))
         end;
       IAccessToken.scope := scope;
       IAccessToken.user := user;
       IAccessToken.client := IClient._id client;
       IAccessToken.tokenType := Some Bearer;
       IAccessToken.linkedToken := None;
       IAccessToken.clientRole := role;
       IAccessToken.clientName := Some (IClient.name client) |} in
  match truthy (IFormalAccessToken.refresh_token formalToken) with
  | Some rt =>
      let '(rid, w2) := newObjectId w1 in
      let refreshToken :=
        {| IAccessToken._id := rid;
           IAccessToken.token := rt;
           IAccessToken.expiresAt := None;
           IAccessToken.scope := scope;
           IAccessToken.user := user;
           IAccessToken.client := IClient._id client;
           IAccessToken.tokenType := Some RefreshToken;
           IAccessToken.linkedToken := Some aid;
           IAccessToken.clientRole := role;
           IAccessToken.clientName := Some (IClient.name client) |} in
      (IAccessToken.set_linkedToken (Some rid) accessToken,
       Some refreshToken, w2)
  | None => (accessToken, None, w1)
  end.

(** [AccessTokenSchema.methods.accessTokenFromRefresh]. The save of the
    new access token in the provider branch is not awaited. Its write comes
    after its pre-save hook, which first waits for the database
    ([Client.findById]), while [self.remove()] has no hook to wait for: the
    removal reaches the database first. From there on the save takes its
    steps where the schedule puts them; what is left of it when the method
    returns stays in flight, and what it throws nobody hears.
    The token returned is the document as it stands at the return. *)
Definition accessTokenFromRefresh (env : Env) (self : IAccessToken.t)
    (w : World) : Completion (option IAccessToken.t) * World :=
  let refreshToken :=
    if isRefreshToken self then Some self
    else match IAccessToken.linkedToken self with
         | Some l => access_tokens w !! l
         | None => None
         end in
  match refreshToken with
  | None => (Return None, w)
  | Some refreshToken =>
      match IAccessToken.clientRole self with
      | provider =>
          match clients w !! IAccessToken.client self with
          | None => (Return None, w)
          | Some client =>
              let q := [("grant_type", "refresh_token");
                        ("refresh_token", IAccessToken.token refreshToken);
                        ("redirect_uri", IClient.redirectUri client);
                        ("client_id", IClient.clientId client);
                        ("client_secret", IClient.clientSecret client)] in
              let tokenResp :=
                fetch env {| uri := IClient.tokenUri client; query := q |} in
              if negb (status tokenResp =? 200) then (Return None, w)
              else
                let user := IAccessToken.user self ≫= (fun u => users w !! u) in
                let formalToken := json tokenResp in
                let '(accessToken, newRefreshToken, w1) :=
                  fromFormalToken env formalToken (IUser._id <$> user) client
                    provider w in
                let saving := {| pending := accessToken; stage := Started |} in
                match newRefreshToken with
                | Some newRefreshToken =>
                    let w2 := remove self w1 in
                    let '(saving, w3) :=
                      steps env (beforeSave (schedule env)) saving w2 in
                    match save env newRefreshToken w3 with
                    | (Throw e, _, w4) => (Throw e, leave saving w4)
                    | (Return _, _, w4) =>
                        let '(saving, w5) :=
                          steps env (beforeReturn (schedule env)) saving w4 in
                        (Return (Some (pending saving)), leave saving w5)
                    end
                | None => (Return (Some accessToken), leave saving w1)
                end
          end
      | consumer =>
          let '(id, w1) := newObjectId w in
          let accessToken :=
            {| IAccessToken._id := id;
               IAccessToken.tokenType := Some Bearer;
               IAccessToken.token := nanoid env;
               IAccessToken.expiresAt :=
                 Some (plus (now env) (IConfig.expireTokenIn config));
               IAccessToken.linkedToken := Some (IAccessToken._id self);
               IAccessToken.scope := IAccessToken.scope self;
               IAccessToken.client := IAccessToken.client self;
               IAccessToken.clientRole := consumer;
               IAccessToken.clientName := IAccessToken.clientName self;
               IAccessToken.user := IAccessToken.user self |} in
          match save env accessToken w1 with
          | (Throw e, _, w2) => (Throw e, w2)
          | (Return _, accessToken, w2) => (Return (Some accessToken), w2)
          end
      | otherRole _ => (Return None, w)
      end
  end.


End Tokens.

(** ** The wire format of a stored token *)

(** The object literal that [toFormalToken] builds. [_.get] of a missing
    record yields [undefined]. *)
Module Formal.
Record t := {
  access_token : option string;
  refresh_token : option string;
  scope : string;
  expires_in : option Z;
  token_type : option TokenTypes
}.
End Formal.

(** The argument of [toFormalToken]: a string holding the hexadecimal form
    of an identifier, or a document. *)
Inductive AccessTokenQuery :=
  | QueryString (id : ObjectId)
  | QueryDocument (d : IAccessToken.t).

(** [Math.round(d / 1e3)] for an integer [d] of milliseconds: halves round
    towards plus infinity. *)
Definition roundSeconds (d : Z) : Z := (d + 500) / 1000.

(** [date.getTime()] of a date that is set and valid. *)
Definition getTime (e : option jsnum) : option Z :=
  match e with
  | Some (Num z) => Some z
  | _ => None
  end.

Section WireFormat.
Context {E : RegExpEngine}.

(** [toFormalToken], also behind [AccessTokenSchema.methods.toFormalToken],
    which passes [this]. *)
Definition toFormalToken (env : Env) (accessTokenQuery : AccessTokenQuery)
    (w : World) : Completion (option Formal.t) :=
  let token :=
    match accessTokenQuery with
    | QueryString id => access_tokens w !! id
    | QueryDocument d => Some d
    end in
  match token with
  | None => Return None
  | Some token =>
      let linkedToken :=
        IAccessToken.linkedToken token ≫= (fun l => access_tokens w !! l) in
      let refreshToken := if isRefreshToken token then Some token else linkedToken in
      let accessToken := if isRefreshToken token then linkedToken else Some token in
      scope ← formalScope token;
      Return (Some
        {| Formal.access_token := IAccessToken.token <$> accessToken;
           Formal.refresh_token := IAccessToken.token <$> refreshToken;
           Formal.scope := JsString.join " " scope;
           Formal.expires_in :=
             (fun e => roundSeconds (e - now env))
               <$> getTime (IAccessToken.expiresAt token);
           Formal.token_type := IAccessToken.tokenType token |})
  end.

End WireFormat.

(** ** The resolver middleware *)

Module Web.

Record ILocation := {
  href : string;
  auth : option string;
  driver : string
}.

Record IHTTPResponse := {
  method : string;
  status : Z;
  responseHref : string;
  headers : option (list (string * string));
  body : option string
}.

Record IScopeContext := {
  currentScope : option string;
  currentScopeAccessToken : option ObjectId;
  user : option IUser.t
}.

Record Req := {
  originalUrl : string;
  reqHeaders : gmap string string;
  protocol : string;
  host : option string;
  reqMethod : string;
  reqBody : option string;
  scopeContext : option IScopeContext
}.

(** The capabilities of a driver; each may answer [null] or throw. *)
Record Driver := {
  get : ILocation -> Completion (option IHTTPResponse);
  head : ILocation -> Completion (option IHTTPResponse);
  put : ILocation -> option string -> Completion (option IHTTPResponse);
  delete : ILocation -> Completion (option IHTTPResponse);
  proxy : ILocation -> Completion (option IHTTPResponse)
}.

(** The calls made on the response object [res]. *)
Inductive ResOp :=
  | ResStatus (code : Z)
  | ResSet (k v : string)
  | ResSend (b : string)
  | ResEnd.

(** What the wrapped handler did: its completion ([true] asks for the
    next middleware, [false] stands for a return without a value), the
    calls on [res], and the location handed to [getHttpResponse], if it
    came to that. *)
Record Handled := {
  completion : Completion bool;
  sent : list ResOp;
  dispatched : option ILocation
}.

Inductive Outcome :=
  | PassedThrough
  | Answered
  | Failed (e : Error).

Section Middleware.

(** [resolve] of [../Resolver], outside src: the location a resolver
    claims for a query, [null] when none does. *)
Variable resolve : string -> Completion (option ILocation).

(** [new (location.getDriver())()] *)
Variable getDriver : ILocation -> Completion Driver.

(** The first value of [user.getAccessTokensForScope(scope)]. *)
Variable firstAccessTokenForScope :
  IUser.t -> string -> Completion ScopeAccessTokenPair.

Definition getHttpResponse (req : Req) (location : ILocation)
  : Completion (option IHTTPResponse) :=
  match scopeContext req with
  | None => Throw TypeError
  | Some scopeContext =>
      let scope :=
        match auth location with
        | Some "" | None => "rpc.getResponse"
        | Some a => a
        end in
      _ ← (if bool_decide (Some scope = currentScope scopeContext)
           then Return (Some (scope, currentScopeAccessToken scopeContext))
           else match user scopeContext with
                | None => Throw TypeError
                | Some u => firstAccessTokenForScope u scope
                end);
      driver ← getDriver location;
      if String.eqb (reqMethod req) "GET" then get driver location
      else if String.eqb (reqMethod req) "HEAD" then head driver location
      else if String.eqb (reqMethod req) "PUT"
           then put driver location (reqBody req)
      else if String.eqb (reqMethod req) "DELETE" then delete driver location
      else if String.eqb (reqMethod req) "CONNECT" then proxy driver location
      else Return (Some {| method := reqMethod req; status := 405;
                           responseHref := href location;
                           headers := None; body := None |})
  end.

(** The locator of a request: effective scheme, host and path. *)
Definition hrefOf (req : Req) : string :=
  (match reqHeaders req !! "x-forwarded-proto" with
   | Some "" | None => protocol req
   | Some p => p
   end)
  +:+ "://" +:+ default "undefined" (host req) +:+ originalUrl req.

Definition lookupHeader (k : string) (h : list (string * string)) : string :=
  default "undefined" (snd <$> List.find (fun kv => String.eqb k kv.1) h).

(** The async function that [ResolverMiddleware] hands to
    [asyncMiddleware]. *)
Definition handler (req : Req) : Handled :=
  if String.eqb (JsString.substr0 5 (originalUrl req)) "/auth"
  then {| completion := Return true; sent := []; dispatched := None |}
  else
    let href := hrefOf req in
    match resolve href with
    | Throw e => {| completion := Throw e; sent := []; dispatched := None |}
    | Return None =>
        {| completion := Return true; sent := []; dispatched := None |}
    | Return (Some location) =>
        match getHttpResponse req location with
        | Throw e =>
            {| completion := Throw e; sent := [];
               dispatched := Some location |}
        | Return None =>
            {| completion := Return false; sent := [];
               dispatched := Some location |}
        | Return (Some response) =>
            {| completion := Return false;
               sent :=
                 [ResStatus (status response)]
                 ++ match headers response with
                    | Some h => map (fun k => ResSet k (lookupHeader k h))
                                    (map fst h)
                    | None => []
                    end
                 ++ match body response with
                    | Some b => [ResSend b]
                    | None => []
                    end
                 ++ [ResEnd];
               dispatched := Some location |}
        end
    end.

(** Modelled from the spec: [asyncMiddleware] of [./Common] is outside
    src. The request goes on to the next middleware exactly when the
    handler completes with [true]; what the handler throws is handed on as
    an error. *)
Definition asyncMiddleware (fn : Req -> Handled) (req : Req)
  : Outcome * Handled :=
  let h := fn req in
  (match completion h with
   | Return true => PassedThrough
   | Return false => Answered
   | Throw e => Failed e
   end, h).

Definition ResolverMiddleware (req : Req) : Outcome * Handled :=
  asyncMiddleware handler req.

End Middleware.

End Web.

(** ** Statements as the specification words them, and example data *)

Section Worded.
Context {E : RegExpEngine}.

(** Every granted scope compiles. *)
Definition compiles (granted : list string) : Prop :=
  Forall (fun x => returned (scopeRegex x)) granted.

(** Some granted scope, compiled, tests positive against [requested]. *)
Definition someEntryMatches (granted : list string) (requested : string)
  : Prop :=
  exists x re,
    x ∈ granted /\ scopeRegex x = Return re /\ RegExp_test re requested = true.

(** The matcher returns [true] exactly when some entry matches, whatever
    the granted list. *)
Definition matcherAsWorded : Prop :=
  forall (this : IAccessToken.t) (requested : string),
    isAuthorizedToDo this requested = Return true
    <-> someEntryMatches (IAccessToken.scope this) requested.

End Worded.

(** A granted scope without syntax characters that is not read as
    [/pattern/flags]. *)
Definition plainScope (x : string) : Prop :=
  ES.plain x = true /\ JsString.first_is_not "/" x = true.

(** [expiresAt] lies before [now]. *)
Definition expiredAt (now : Z) (d : IAccessToken.t) : bool :=
  match IAccessToken.expiresAt d with
  | Some (Num e) => e <? now
  | _ => false
  end.

(** Every document of the collection is filed under its own [_id]. *)
Definition wellKeyed (m : gmap ObjectId IAccessToken.t) : Prop :=
  map_Forall (fun i d => IAccessToken._id d = i) m.

(** Every save of the journal comes before every removal. *)
Definition persistedBeforeDeleted (j : list Op) : Prop :=
  forall i k a b,
    j !! i = Some (OpRemove a) -> j !! k = Some (OpSave b) -> (k < i)%nat.

(** ** Further notions *)

(** A scope that is not the empty string. *)
Definition nonEmpty (s : string) : bool := negb (String.eqb s "").

(** The user's or the client's grant authorizes [s], by the matcher of the
    user module. *)
Definition granted (U : list string -> string -> bool) (client : IClient.t)
    (user : IUser.t) (s : string) : bool :=
  U (IUser.scope user) s || U (IClient.scope client) s.

(** An entry the generator yields that carries a token. *)
Definition carriesToken (y : ScopeAccessTokenPair) : Prop :=
  exists s t, y = Some (s, Some t).

(** The hook gets past its two early returns. *)
Definition reachesUserCheck (client : IClient.t) (this : IAccessToken.t) : Prop :=
  (isBearer this = true -> IClient.expireAccessTokenIn client = null)
  /\ (isRefreshToken this = true -> IClient.expireRefreshTokenIn client = null).

(** The verbs [getHttpResponse] hands to a driver. *)
Definition dispatchedVerbs : list string :=
  ["GET"; "HEAD"; "PUT"; "DELETE"; "CONNECT"].

(** The document as the pre-save hook leaves it under the client [c]. *)
Definition namespaced (client : IClient.t) (this : IAccessToken.t)
  : IAccessToken.t :=
  let this := IAccessToken.set_clientName (Some (IClient.name client)) this in
  if bool_decide (IAccessToken.clientRole this = provider)
     && negb (bool_decide (IAccessToken.scope this = []))
  then IAccessToken.set_scope
         (map (fun s => IClient.name client +:+ "." +:+ s)
              (IAccessToken.scope this)) this
  else this.

(** The lifetime that the upstream states ends within the range of dates. *)
Definition lifetimeFits (env : Env) (ft : IFormalAccessToken.t) : bool :=
  match IFormalAccessToken.expires_in ft with
  | Some 0 | None => true
  | Some n => Z.abs (now env + n * 1000) <=? maxTime
  end.

(** The scope a location asks for: [location.auth || 'rpc.getResponse']. *)
Definition requiredScope (location : Web.ILocation) : string :=
  match Web.auth location with
  | Some "" | None => "rpc.getResponse"
  | Some a => a
  end.

Module Ex.

Definition svc : IClient.t :=
  {| IClient._id := 10%positive; IClient.name := "svc";
     IClient.scope := [];
     IClient.expireAccessTokenIn := undefined;
     IClient.expireRefreshTokenIn := undefined;
     IClient.redirectUri := "https://attic/cb";
     IClient.tokenUri := "https://upstream/token";
     IClient.clientId := "attic"; IClient.clientSecret := "s3cret" |}.

(** The same client with both lifetimes switched off. *)
Definition svcNeverExpires : IClient.t :=
  {| IClient._id := 10%positive; IClient.name := "svc";
     IClient.scope := [];
     IClient.expireAccessTokenIn := null;
     IClient.expireRefreshTokenIn := null;
     IClient.redirectUri := "https://attic/cb";
     IClient.tokenUri := "https://upstream/token";
     IClient.clientId := "attic"; IClient.clientSecret := "s3cret" |}.

Definition alice : IUser.t := {| IUser._id := 20%positive; IUser.scope := [] |}.

Definition config : IConfig.t :=
  {| IConfig.expireTokenIn := Some 3600000;
     IConfig.expireRefreshTokenIn := Some 86400000 |}.

Definition token (id : ObjectId) (type : TokenTypes) (role : IClientRole)
    (linked : option ObjectId) (scope : list string) (user : option ObjectId)
  : IAccessToken.t :=
  {| IAccessToken._id := id; IAccessToken.tokenType := Some type;
     IAccessToken.token := "opaque"; IAccessToken.linkedToken := linked;
     IAccessToken.expiresAt := None; IAccessToken.scope := scope;
     IAccessToken.user := user; IAccessToken.client := 10%positive;
     IAccessToken.clientRole := role; IAccessToken.clientName := None |}.

Definition world (c : IClient.t) (tokens : list IAccessToken.t) (next : ObjectId)
  : World :=
  {| access_tokens :=
       list_to_map (map (fun d => (IAccessToken._id d, d)) tokens);
     clients := {[ 10%positive := c ]};
     users := {[ 20%positive := alice ]};
     nextId := next; journal := []; inFlight := [] |}.

Definition upstream (refresh : option string) (code : Z) : Request -> Response :=
  fun _ =>
    {| status := code;
       json := {| IFormalAccessToken.access_token := "a1";
                  IFormalAccessToken.refresh_token := refresh;
                  IFormalAccessToken.scope := Some "read";
                  IFormalAccessToken.expires_in := Some 3600;
                  IFormalAccessToken.token_type := "bearer" |} |}.

(** A request at time [t] whose upstream answers with [refresh]; the write
    of a save that is not awaited lands between the removal and the write of
    the awaited save, its post-save hook after the return. *)
Definition env (t : Z) (refresh : option string) : Env :=
  {| now := t; nanoid := "fresh"; fetch := upstream refresh 200;
     schedule := {| beforeSave := 2; beforeReturn := 0 |} |}.

(** The user module grants nothing and finds no token for any scope. *)
Definition grantsNothing : list string -> string -> bool := fun _ _ => false.
Definition noTokens : World -> IUser.t -> list string -> list ScopeAccessTokenPair :=
  fun _ _ scopes => map (fun s => Some (s, None)) scopes.
(** The user holds token 7 for every scope asked. *)
Definition holdsTokens : World -> IUser.t -> list string -> list ScopeAccessTokenPair :=
  fun _ _ scopes => map (fun s => Some (s, Some 7%positive)) scopes.

Definition refreshProvider :=
  token 1%positive RefreshToken provider None ["svc.read"] None.
Definition refreshConsumer :=
  token 1%positive RefreshToken consumer None ["read"] None.
Definition bearerConsumer :=
  token 2%positive Bearer consumer (Some 1%positive) ["read"] None.
Definition billing :=
  token 5%positive Bearer consumer None ["billing.write"] (Some 20%positive).
Definition expiredReader : IAccessToken.t :=
  IAccessToken.set_expiresAt (Some (Num 1000))
    (token 3%positive Bearer consumer None ["read"] None).

(** A resolver that claims the paths under "/files" and nothing else, and
    a driver that answers every GET with 200 and the body "ok". *)
Definition location (h : string) : Web.ILocation :=
  {| Web.href := h; Web.auth := None; Web.driver := "HTTPDriver" |}.

Definition resolver (h : string) : Completion (option Web.ILocation) :=
  if String.eqb (JsString.substr0 26 h) "https://attic.local/files/"
  then Return (Some (location h)) else Return None.

Definition okDriver (l : Web.ILocation) : Completion Web.Driver :=
  let ok := Return (Some {| Web.method := "GET"; Web.status := 200;
                            Web.responseHref := Web.href l;
                            Web.headers := None; Web.body := Some "ok" |}) in
  Return {| Web.get := fun _ => ok; Web.head := fun _ => ok;
            Web.put := fun _ _ => ok; Web.delete := fun _ => ok;
            Web.proxy := fun _ => ok |}.

Definition anyToken (u : IUser.t) (s : string) : Completion ScopeAccessTokenPair :=
  Return (Some (s, Some 7%positive)).

Definition request (url : string) : Web.Req :=
  {| Web.originalUrl := url; Web.reqHeaders := ∅; Web.protocol := "https";
     Web.host := Some "attic.local"; Web.reqMethod := "GET";
     Web.reqBody := None;
     Web.scopeContext :=
       Some {| Web.currentScope := None; Web.currentScopeAccessToken := None;
               Web.user := Some alice |} |}.

End Ex.

(** Further example data. *)
Module Sample.

(** A database without clients, users or tokens. *)
Definition emptyWorld : World :=
  {| access_tokens := ∅; clients := ∅; users := ∅;
     nextId := 1%positive; journal := []; inFlight := [] |}.

(** The upstream's answer: the access token "a1", the refresh token "r1",
    the scope "read", one hour to live. *)
Definition answer : IFormalAccessToken.t :=
  {| IFormalAccessToken.access_token := "a1";
     IFormalAccessToken.refresh_token := Some "r1";
     IFormalAccessToken.scope := Some "read";
     IFormalAccessToken.expires_in := Some 3600;
     IFormalAccessToken.token_type := "bearer" |}.

(** The refresh token that [fromFormalToken] builds from [answer] for
    alice and the client svc as a consumer, in a database whose next
    identifier is 1. *)
Definition issuedRefresh : IAccessToken.t :=
  {| IAccessToken._id := 2%positive;
     IAccessToken.tokenType := Some RefreshToken;
     IAccessToken.token := "r1";
     IAccessToken.linkedToken := Some 1%positive;
     IAccessToken.expiresAt := None;
     IAccessToken.scope := ["read"];
     IAccessToken.user := Some 20%positive;
     IAccessToken.client := 10%positive;
     IAccessToken.clientRole := consumer;
     IAccessToken.clientName := Some "svc" |}.

(** A provider-role bearer token linked to the refresh token 1. *)
Definition bearerProvider : IAccessToken.t :=
  Ex.token 2%positive Bearer provider (Some 1%positive) ["svc.read"] None.

(** A PATCH request for a path the resolver claims. *)
Definition patch : Web.Req :=
  {| Web.originalUrl := "/files/a.txt"; Web.reqHeaders := ∅;
     Web.protocol := "https"; Web.host := Some "attic.local";
     Web.reqMethod := "PATCH"; Web.reqBody := None;
     Web.scopeContext :=
       Some {| Web.currentScope := None; Web.currentScopeAccessToken := None;
               Web.user := Some Ex.alice |} |}.

(** An upstream answer whose lifetime, ten million million seconds, ends
    beyond the range of dates. *)
Definition farAnswer : IFormalAccessToken.t :=
  {| IFormalAccessToken.access_token := "a1";
     IFormalAccessToken.refresh_token := Some "r1";
     IFormalAccessToken.scope := Some "read";
     IFormalAccessToken.expires_in := Some 10000000000000;
     IFormalAccessToken.token_type := "bearer" |}.

(** A request at time [t] whose upstream gives that answer, with the pace
    [a], [b] of the save that is not awaited. *)
Definition farEnv (t : Z) (a b : nat) : Env :=
  {| now := t; nanoid := "fresh";
     fetch := fun _ => {| status := 200; json := farAnswer |};
     schedule := {| beforeSave := a; beforeReturn := b |} |}.

(** The user's generator yields no pair at all. *)
Definition noPair (u : IUser.t) (s : string) : Completion ScopeAccessTokenPair :=
  Return None.

End Sample.

(** * Properties *)

(** ** Loops over arrays *)

Lemma Array_map_Return {A B} (f : A -> Completion B) l ys :
  Array_map f l = Return ys <-> Forall2 (fun x y => f x = Return y) l ys.
Proof.
  revert ys. induction l as [|x l IH]; intros ys; simpl.
  - split.
    + intros [= <-]. constructor.
    + intros H. inversion H. reflexivity.
  - split.
    + destruct (f x) as [y|e] eqn:Hx; simpl; [|discriminate].
      destruct (Array_map f l) as [ys'|e] eqn:Hl; simpl; [|discriminate].
      intros [= <-]. constructor; [assumption|]. apply IH. reflexivity.
    + intros H. inversion H as [|? y ? ys' Hx Hl]; subst.
      rewrite Hx. simpl. apply IH in Hl. rewrite Hl. reflexivity.
Qed.

Lemma Array_map_Throw {A B} (f : A -> Completion B) l :
  thrown (Array_map f l) <-> Exists (fun x => thrown (f x)) l.
Proof.
  induction l as [|x l IH]; simpl.
  - split; [intros []|intros H; inversion H].
  - destruct (f x) as [y|e] eqn:Hx; simpl.
    + destruct (Array_map f l) as [ys|e] eqn:Hl; simpl in *.
      * split; [intros []|]. intros H. inversion H as [? ? H1|? ? H1]; subst.
        -- rewrite Hx in H1. exact H1.
        -- apply IH. exact H1.
      * split; [|trivial]. intros _. right. apply IH. exact I.
    + split; [|trivial]. intros _. left. rewrite Hx. exact I.
Qed.

Lemma Array_map_total {A B} (f : A -> Completion B) l :
  Forall (fun x => returned (f x)) l -> exists ys, Array_map f l = Return ys.
Proof.
  induction 1 as [|x l Hx _ [ys IH]]; simpl.
  - eauto.
  - destruct (f x) as [y|e]; [|destruct Hx]. simpl. rewrite IH. simpl. eauto.
Qed.

Lemma returned_or_thrown {A} (c : Completion A) : returned c \/ thrown c.
Proof. destruct c; simpl; auto. Qed.

Lemma not_compiles_Exists {E : RegExpEngine} (granted : list string) :
  ~ compiles granted -> Exists (fun x => thrown (scopeRegex x)) granted.
Proof.
  unfold compiles. induction granted as [|x l IH]; intros H.
  - destruct H. constructor.
  - destruct (returned_or_thrown (scopeRegex x)) as [Hx|Hx].
    + right. apply IH. intros Hl. apply H. constructor; assumption.
    + left. exact Hx.
Qed.

(** ** Splitting and joining *)

Lemma append_cons c (x v : string) : String c x +:+ v = String c (x +:+ v).
Proof. reflexivity. Qed.

Lemma append_empty_l (v : string) : "" +:+ v = v.
Proof. reflexivity. Qed.

Lemma split_free c s :
  JsString.free_of c s = true -> JsString.split c s = [s].
Proof.
  induction s as [|a s IH]; simpl; [reflexivity|].
  intros H. apply andb_prop in H as [Ha Hs].
  destruct (Ascii.eqb a c); [discriminate|]. rewrite (IH Hs). reflexivity.
Qed.

Lemma split_app_sep c s t :
  JsString.free_of c s = true ->
  JsString.split c (s +:+ String c t) = s :: JsString.split c t.
Proof.
  induction s as [|a s IH]; simpl.
  - intros _. rewrite Ascii.eqb_refl. reflexivity.
  - intros H. apply andb_prop in H as [Ha Hs].
    destruct (Ascii.eqb a c); [discriminate|]. rewrite (IH Hs). reflexivity.
Qed.

(** Splitting undoes joining when no piece holds the separator. *)
Lemma split_join c l x :
  Forall (fun s => JsString.free_of c s = true) (x :: l) ->
  JsString.split c (JsString.join (String c "") (x :: l)) = x :: l.
Proof.
  revert x. induction l as [|y l IH]; intros x H.
  - simpl. inversion H; subst. apply split_free. assumption.
  - inversion H as [|? ? Hx Hl]; subst.
    change (JsString.join (String c "") (x :: y :: l))
      with (x +:+ String c "" +:+ JsString.join (String c "") (y :: l)).
    change (String c "" +:+ JsString.join (String c "") (y :: l))
      with (String c (JsString.join (String c "") (y :: l))).
    rewrite split_app_sep by assumption. rewrite IH by assumption. reflexivity.
Qed.

Lemma slice_last {A} (l : list A) x :
  JsString.slice (List.length (l ++ [x]) - 1) (List.length (l ++ [x])) (l ++ [x])
  = [x].
Proof.
  unfold JsString.slice. rewrite length_app. simpl.
  replace (List.length l + 1 - 1)%nat with (List.length l) by lia.
  rewrite drop_app_length.
  replace (List.length l + 1 - List.length l)%nat with 1%nat by lia.
  reflexivity.
Qed.

Lemma slice_inner {A} (a : A) l x :
  JsString.slice 1 (List.length (a :: l ++ [x]) - 1) (a :: l ++ [x]) = l.
Proof.
  unfold JsString.slice. simpl. rewrite length_app. simpl.
  replace (List.length l + 1 - 0 - 1)%nat with (List.length l) by lia.
  rewrite drop_0. apply take_app_length.
Qed.

Lemma substring_all s : substring 0 (String.length s) s = s.
Proof. induction s as [|c s IH]; simpl; [reflexivity|]. rewrite IH. reflexivity. Qed.

Lemma substring_none n s : substring n 0 s = "".
Proof.
  revert n. induction s as [|c s IH]; intros [|n]; simpl; try reflexivity.
  apply IH.
Qed.

Lemma append_empty_r (s : string) : s +:+ "" = s.
Proof. induction s as [|c s IH]; [reflexivity|]. rewrite append_cons, IH. reflexivity. Qed.

Lemma substr0_begins_with p : forall s,
  JsString.substr0 (String.length p) s = p <-> JsString.begins_with p s.
Proof.
  unfold JsString.substr0, JsString.begins_with.
  induction p as [|a p IH]; intros s.
  - simpl. rewrite substring_none. split; [intros _; exists s|]; reflexivity.
  - destruct s as [|c s]; simpl.
    + split; [discriminate|intros [rest [=]]].
    + split.
      * intros [= -> H]. apply IH in H as [rest ->]. exists rest. reflexivity.
      * intros [rest H]. rewrite append_cons in H. injection H as -> H.
        f_equal. apply IH. exists rest. exact H.
Qed.

(** ** The regular expressions of the fragment *)

Module ESFacts.
Import ES.

(** *** Character sets under case folding *)

Lemma codeUnits_all a : existsb (Ascii.eqb a) codeUnits = true.
Proof. destruct a as [[] [] [] [] [] [] [] []]; vm_compute; reflexivity. Qed.

Lemma codeUnits_In a : In a codeUnits.
Proof.
  destruct (proj1 (existsb_exists _ _) (codeUnits_all a)) as (b & Hb & Hab).
  apply Ascii.eqb_eq in Hab. subst b. exact Hb.
Qed.

Lemma sameCanonical_check :
  let folded := map (fun c => (c, toUpper c, toLower c)) codeUnits in
  forallb (fun '(a, ua, _) => forallb (fun '(c, uc, lc) =>
      implb (Ascii.eqb ua uc)
            (Ascii.eqb a c || Ascii.eqb a uc || Ascii.eqb a lc))
    folded) folded = true.
Proof. vm_compute. reflexivity. Qed.

Lemma toUpper_folds c :
  toUpper (toUpper c) = toUpper c /\ toUpper (toLower c) = toUpper c.
Proof. destruct c as [[] [] [] [] [] [] [] []]; vm_compute; split; reflexivity. Qed.

Lemma sameCanonical a c :
  toUpper a = toUpper c -> a = c \/ a = toUpper c \/ a = toLower c.
Proof.
  pose proof sameCanonical_check as H. cbv zeta in H.
  rewrite forallb_forall in H.
  specialize (H (a, toUpper a, toLower a)
                (in_map (fun c => (c, toUpper c, toLower c)) _ _ (codeUnits_In a))).
  cbv beta iota in H. rewrite forallb_forall in H.
  specialize (H (c, toUpper c, toLower c)
                (in_map (fun c => (c, toUpper c, toLower c)) _ _ (codeUnits_In c))).
  cbv beta iota in H.
  intros Hu. apply Ascii.eqb_eq in Hu. rewrite Hu in H. simpl in H.
  apply orb_prop in H as [H|H]; [apply orb_prop in H as [H|H]|];
    apply Ascii.eqb_eq in H; auto.
Qed.

Lemma accepts_spec f cs c : accepts f cs c = true <-> acceptsSpec f cs c.
Proof.
  unfold accepts, acceptsSpec, canonicalize.
  assert (Hfound :
    (if ignoreCase f
     then inSet f cs c || inSet f cs (toUpper c) || inSet f cs (toLower c)
     else inSet f cs c) = true
    <-> exists a, inSet f cs a = true
                  /\ (if ignoreCase f then toUpper a else a)
                     = (if ignoreCase f then toUpper c else c)).
  { destruct (ignoreCase f).
    - rewrite !orb_true_iff. split.
      + intros [[H|H]|H]; eexists; (split; [exact H|]);
          [reflexivity|apply toUpper_folds|apply toUpper_folds].
      + intros (a & Ha & Hac).
        destruct (sameCanonical a c Hac) as [->|[->| ->]]; auto.
    - split; [intros H; exists c; auto|intros (a & Ha & ->); exact Ha]. }
  destruct (inverted cs); simpl.
  - rewrite <- Hfound.
    destruct (if ignoreCase f then _ else _); simpl; split;
      congruence || (intros H; destruct H; reflexivity) || auto.
  - exact Hfound.
Qed.

Lemma repeat_ext m g : ext m -> forall fuel, ext (repeat m g fuel).
Proof.
  intros Hm fuel. induction fuel as [|fuel IH]; intros x k1 k2 Hk; simpl.
  - rewrite (Hk x) by lia. reflexivity.
  - rewrite (Hk x) by lia.
    assert (H : m x (fun y => if progress x y then repeat m g fuel y k1 else None)
              = m x (fun y => if progress x y then repeat m g fuel y k2 else None)).
    { apply Hm. intros y Hy. destruct (progress x y); [|reflexivity].
      apply IH. intros z Hz. apply Hk. lia. }
    rewrite H. reflexivity.
Qed.

Lemma matcher_ext f n : ext (matcher f n).
Proof.
  induction n as [|cs|a IHa b IHb|a IHa b IHb|a IHa g|a IHa g|a IHa g|a IHa| | |neg];
    intros x k1 k2 Hk; simpl.
  - apply Hk. lia.
  - destruct x as [p [|c s]]; simpl in *; [reflexivity|].
    unfold guard. destruct (accepts f cs c); [|reflexivity].
    apply Hk. unfold remaining. simpl. lia.
  - apply IHa. intros y Hy. apply IHb. intros z Hz. apply Hk. lia.
  - rewrite (IHa x k1 k2 Hk), (IHb x k1 k2 Hk). reflexivity.
  - apply repeat_ext; assumption.
  - apply IHa. intros y Hy. apply repeat_ext; [assumption|].
    intros z Hz. apply Hk. lia.
  - rewrite (Hk x) by lia.
    assert (H : matcher f a x (fun y => if progress x y then k1 y else None)
              = matcher f a x (fun y => if progress x y then k2 y else None)).
    { apply IHa. intros y Hy. rewrite (Hk y Hy). reflexivity. }
    rewrite H. reflexivity.
  - apply IHa. assumption.
  - unfold guard. rewrite (Hk x) by lia. reflexivity.
  - unfold guard. rewrite (Hk x) by lia. reflexivity.
  - unfold guard. rewrite (Hk x) by lia. reflexivity.
Qed.

Lemma repeat_at_end m g : ext m -> forall fuel x k,
  remaining x = 0%nat ->
  repeat m g fuel x k
  = if g then orElse (m x (fun _ => None)) (k x)
    else orElse (k x) (m x (fun _ => None)).
Proof.
  intros Hm fuel x k Hx.
  assert (Hd : forall d : Continuation,
             m x (fun y => if progress x y then d y else None)
             = m x (fun _ => None)).
  { intros d. apply Hm. intros y Hy. unfold progress.
    destruct (Nat.ltb_spec (remaining y) (remaining x)); [lia|reflexivity]. }
  destruct fuel as [|fuel]; simpl.
  - rewrite (Hd (fun _ => None)). reflexivity.
  - rewrite (Hd (fun y => repeat m g fuel y k)). reflexivity.
Qed.

(** The fuel of [repeat] never runs out: two supplies that cover the
    remaining input give the same result. *)
Lemma repeat_fuel m g : ext m -> forall fuel1 fuel2 x k,
  (remaining x <= fuel1)%nat -> (remaining x <= fuel2)%nat ->
  repeat m g fuel1 x k = repeat m g fuel2 x k.
Proof.
  intros Hm fuel1. induction fuel1 as [|fuel1 IH]; intros fuel2 x k H1 H2.
  - rewrite !(repeat_at_end m g Hm) by lia. reflexivity.
  - destruct fuel2 as [|fuel2].
    + rewrite !(repeat_at_end m g Hm) by lia. reflexivity.
    + simpl.
      assert (Hd : m x (fun y => if progress x y then repeat m g fuel1 y k else None)
                 = m x (fun y => if progress x y then repeat m g fuel2 y k else None)).
      { apply Hm. intros y Hy. unfold progress.
        destruct (Nat.ltb_spec (remaining y) (remaining x)); [|reflexivity].
        apply IH; lia. }
      rewrite Hd. reflexivity.
Qed.

Lemma star_fuel f a g x k fuel :
  (remaining x <= fuel)%nat ->
  matcher f (N_star a g) x k = repeat (matcher f a) g fuel x k.
Proof.
  intros H. simpl. apply repeat_fuel; [apply matcher_ext|lia|exact H].
Qed.

(** *** Matching is not anchored *)

Lemma search_anywhere r s : forall p i,
  sticky (flags r) = false ->
  is_Some (search r p s i)
  <-> exists u v,
        s = u +:+ v
        /\ is_Some (matcher (flags r) (source r)
                      {| prev := prevAfter p u; rest := v |} Some).
Proof.
  induction s as [|c s IH]; intros p i Hy; simpl; rewrite Hy.
  - destruct (matcher (flags r) (source r) {| prev := p; rest := "" |} Some)
      as [y|] eqn:Hm.
    + split; [intros _|intros _; eexists; reflexivity].
      exists "", "". split; [reflexivity|]. simpl. rewrite Hm. eexists; reflexivity.
    + split; [intros [? [=]]|]. intros (u & v & Huv & Hmv).
      destruct u; [|discriminate]. rewrite append_empty_l in Huv. subst v.
      simpl in Hmv. rewrite Hm in Hmv. destruct Hmv as [? [=]].
  - destruct (matcher (flags r) (source r) {| prev := p; rest := String c s |} Some)
      as [y|] eqn:Hm.
    + split; [intros _|intros _; eexists; reflexivity].
      exists "", (String c s). split; [reflexivity|]. simpl. rewrite Hm.
      eexists; reflexivity.
    + rewrite (IH (Some c) (S i) Hy). split.
      * intros (u & v & Huv & Hmv). exists (String c u), v.
        split; [rewrite append_cons; f_equal; exact Huv|exact Hmv].
      * intros (u & v & Huv & Hmv). destruct u as [|c' u].
        -- rewrite append_empty_l in Huv. subst v. simpl in Hmv.
           rewrite Hm in Hmv. destruct Hmv as [? [=]].
        -- rewrite append_cons in Huv. injection Huv as <- Huv.
           exists u, v. split; [exact Huv|exact Hmv].
Qed.

(** An expression that is not sticky tests positive exactly when its
    pattern matches from some position of the input on. *)
Lemma test_anywhere r s :
  sticky (flags r) = false ->
  test r s = true <-> exists u v, s = u +:+ v /\ matchesAt r u v.
Proof.
  intros Hy. unfold matchesAt. rewrite <- (search_anywhere r s None 0 Hy).
  unfold test, exec.
  destruct (search r None s 0%nat); split; intros H;
    first [reflexivity | discriminate | eexists; reflexivity
          | destruct H as [? [=]]].
Qed.

Lemma compile_no_flags pattern r :
  compile pattern "" = Return r -> flags r = noFlags.
Proof.
  unfold compile. simpl parseFlags. cbn [mbind Completion_bind].
  destruct (parsePattern pattern) as [n|e]; simpl; [|discriminate].
  intros [= <-]. reflexivity.
Qed.

(** *** Parsing a pattern without syntax characters *)

Lemma parseTerm_plain fuel c s :
  isSyntaxCharacter c = false ->
  parseTerm (S fuel) (String c s) = parseQuantifier (N_set (CS_char c)) s.
Proof.
  destruct c as [[] [] [] [] [] [] [] []]; intros H;
    first [discriminate H | reflexivity].
Qed.

Lemma endsAlternative_plain c s :
  isSyntaxCharacter c = false -> endsAlternative (String c s) = false.
Proof.
  destruct c as [[] [] [] [] [] [] [] []]; intros H;
    first [discriminate H | reflexivity].
Qed.

Lemma parseQuantifier_plain a s :
  plain s = true -> parseQuantifier a s = Return (a, s).
Proof.
  destruct s as [|c s]; [reflexivity|]. simpl. intros H.
  apply andb_prop in H as [H _]. apply negb_true_iff in H.
  destruct c as [[] [] [] [] [] [] [] []];
    first [discriminate H | reflexivity].
Qed.

Lemma parseAlternative_step fuel s :
  parseAlternative (S fuel) s
  = if endsAlternative s then Return (N_empty, s)
    else '(t, s1) ← parseTerm fuel s;
         '(r, s2) ← parseAlternative fuel s1;
         Return (N_seq t r, s2).
Proof. reflexivity. Qed.

Lemma parseAlternative_plain s : forall fuel,
  plain s = true -> (String.length s < fuel)%nat ->
  parseAlternative fuel s = Return (literal s, "").
Proof.
  induction s as [|c s IH]; intros fuel Hp Hf.
  - destruct fuel; [simpl in Hf; lia|]. reflexivity.
  - simpl in Hp. apply andb_prop in Hp as [Hc Hs]. apply negb_true_iff in Hc.
    destruct fuel as [|[|fuel]]; simpl in Hf; try lia.
    rewrite parseAlternative_step, (endsAlternative_plain c s Hc).
    rewrite parseTerm_plain by assumption.
    rewrite parseQuantifier_plain by assumption.
    cbn [mbind Completion_bind]. rewrite IH by (assumption || lia).
    reflexivity.
Qed.

Lemma parsePattern_plain s :
  plain s = true -> parsePattern s = Return (literal s).
Proof.
  intros Hp. unfold parsePattern.
  replace (4 * String.length s + 8)%nat with (S (4 * String.length s + 7)) by lia.
  cbn [parseDisjunction]. rewrite parseAlternative_plain by (assumption || lia).
  reflexivity.
Qed.

Lemma compile_plain s :
  plain s = true ->
  compile s "" = Return {| source := literal s; flags := noFlags |}.
Proof.
  intros Hp. unfold compile. simpl parseFlags. cbn [mbind Completion_bind].
  rewrite parsePattern_plain by assumption. reflexivity.
Qed.

(** [new RegExp('$' + name)] for a name without syntax characters. *)
Lemma compile_dollar_plain s :
  plain s = true ->
  compile ("$" +:+ s) ""
  = Return {| source := N_seq N_eol (literal s); flags := noFlags |}.
Proof.
  intros Hp. unfold compile, parsePattern. simpl parseFlags.
  cbn [mbind Completion_bind]. rewrite append_cons.
  replace (4 * String.length (String "$" ("" +:+ s)) + 8)%nat
    with (S (S (S (4 * String.length (String "$" ("" +:+ s)) + 5)))) by lia.
  cbn [parseDisjunction]. rewrite parseAlternative_step.
  change (endsAlternative (String "$" ("" +:+ s))) with false.
  cbn [parseTerm mbind Completion_bind].
  change ("" +:+ s) with s.
  rewrite parseAlternative_plain by (assumption || simpl; lia).
  reflexivity.
Qed.

(** *** Matching a pattern without syntax characters *)

Lemma matcher_literal x : forall p s,
  is_Some (matcher noFlags (literal x) {| prev := p; rest := s |} Some)
  <-> exists v, s = x +:+ v.
Proof.
  induction x as [|a x IH]; intros p s; simpl.
  - split; [intros _; exists s; reflexivity | intros _; eexists; reflexivity].
  - destruct s as [|c s]; simpl.
    + split; [intros [? [=]] | intros [v [=]]].
    + unfold guard, accepts. simpl. destruct (Ascii.eqb_spec a c) as [->|Hne].
      * rewrite IH. split; intros [v Hv]; exists v.
        -- rewrite append_cons. f_equal. exact Hv.
        -- rewrite append_cons in Hv. injection Hv as Hv. exact Hv.
      * split; [intros [? [=]] | intros [v Hv]].
        rewrite append_cons in Hv. injection Hv as Hc _. congruence.
Qed.

Lemma search_literal x s : forall p i,
  is_Some (search {| source := literal x; flags := noFlags |} p s i)
  <-> JsString.occurs_in x s.
Proof.
  unfold JsString.occurs_in.
  induction s as [|c s IH]; intros p i; simpl.
  - destruct (matcher noFlags (literal x) {| prev := p; rest := "" |} Some)
      as [y|] eqn:Hm.
    + split; [intros _ | intros _; eexists; reflexivity].
      destruct (proj1 (matcher_literal x p "")) as [v Hv];
        [rewrite Hm; eexists; reflexivity|].
      exists "", v. exact Hv.
    + split; [intros [? [=]] | intros (u & v & Huv)].
      destruct u; [|discriminate]. simpl in Huv.
      destruct (proj2 (matcher_literal x p "")) as [y Hy]; [exists v; exact Huv|].
      congruence.
  - destruct (matcher noFlags (literal x) {| prev := p; rest := String c s |} Some)
      as [y|] eqn:Hm.
    + split; [intros _ | intros _; eexists; reflexivity].
      destruct (proj1 (matcher_literal x p (String c s))) as [v Hv];
        [rewrite Hm; eexists; reflexivity|].
      exists "", v. exact Hv.
    + rewrite IH. split.
      * intros (u & v & Huv). exists (String c u), v.
        rewrite append_cons. f_equal. exact Huv.
      * intros (u & v & Huv). destruct u as [|c' u].
        -- simpl in Huv.
           destruct (proj2 (matcher_literal x p (String c s))) as [y Hy];
             [exists v; exact Huv|]. congruence.
        -- rewrite append_cons in Huv. injection Huv as _ Huv.
           exists u, v. exact Huv.
Qed.

(** A pattern without syntax characters tests for a substring. *)
Lemma test_literal x s :
  test {| source := literal x; flags := noFlags |} s = true
  <-> JsString.occurs_in x s.
Proof.
  rewrite <- (search_literal x s None 0). unfold test, exec.
  destruct (search _ None s 0%nat); split; intros H;
    first [reflexivity | discriminate | eexists; reflexivity
          | destruct H as [? [=]]].
Qed.

End ESFacts.

(** ** The scope matcher *)

Section MatcherFacts.
Context {E : RegExpEngine}.

Lemma isAuthorizedToDo_Return this requested b :
  isAuthorizedToDo this requested = Return b <->
  exists regexes,
    Forall2 (fun x re => scopeRegex x = Return re)
            (IAccessToken.scope this) regexes
    /\ b = existsb (fun re => RegExp_test re requested) regexes.
Proof.
  unfold isAuthorizedToDo. split.
  - destruct (Array_map scopeRegex (IAccessToken.scope this)) as [res|e] eqn:Hm;
      simpl; [|discriminate].
    intros [= <-]. exists res. split; [|reflexivity].
    apply Array_map_Return. exact Hm.
  - intros (res & Hres & ->). apply Array_map_Return in Hres.
    rewrite Hres. reflexivity.
Qed.

Lemma existsb_Forall2 requested granted regexes :
  Forall2 (fun x re => scopeRegex x = Return re) granted regexes ->
  existsb (fun re => RegExp_test re requested) regexes = true
  <-> someEntryMatches granted requested.
Proof.
  unfold someEntryMatches. induction 1 as [|x re l res Hx Hl IH]; simpl.
  - split; [discriminate|]. intros (x & re & Hin & _). inversion Hin.
  - rewrite orb_true_iff, IH. split.
    + intros [Ht|(y & r & Hin & Hy & Ht)].
      * exists x, re. split; [left|]; auto.
      * exists y, r. split; [right|]; auto.
    + intros (y & r & Hin & Hy & Ht). inversion Hin; subst.
      * left. congruence.
      * right. exists y, r. auto.
Qed.

Lemma isAuthorizedToDo_true this requested :
  isAuthorizedToDo this requested = Return true <->
  compiles (IAccessToken.scope this)
  /\ someEntryMatches (IAccessToken.scope this) requested.
Proof.
  rewrite isAuthorizedToDo_Return. split.
  - intros (res & Hres & Hb). split.
    + unfold compiles. clear Hb.
      induction Hres as [|x re l res' Hx _ IH]; constructor; [|exact IH].
      rewrite Hx. exact I.
    + apply (existsb_Forall2 _ _ _ Hres). symmetry. exact Hb.
  - intros [Hc Hm]. destruct (Array_map_total _ _ Hc) as [res Hres].
    apply Array_map_Return in Hres. exists res. split; [exact Hres|].
    symmetry. apply (existsb_Forall2 _ _ _ Hres). exact Hm.
Qed.

Lemma isAuthorizedToDo_false this requested :
  isAuthorizedToDo this requested = Return false <->
  compiles (IAccessToken.scope this)
  /\ ~ someEntryMatches (IAccessToken.scope this) requested.
Proof.
  rewrite isAuthorizedToDo_Return. split.
  - intros (res & Hres & Hb). split.
    + unfold compiles. clear Hb.
      induction Hres as [|x re l res' Hx _ IH]; constructor; [|exact IH].
      rewrite Hx. exact I.
    + intros Hm. apply (existsb_Forall2 _ _ _ Hres) in Hm. congruence.
  - intros [Hc Hm]. destruct (Array_map_total _ _ Hc) as [res Hres].
    apply Array_map_Return in Hres. exists res. split; [exact Hres|].
    destruct (existsb _ res) eqn:Hb; [|reflexivity].
    destruct Hm. apply (existsb_Forall2 _ _ _ Hres). exact Hb.
Qed.

Lemma isAuthorizedToDo_thrown this requested :
  thrown (isAuthorizedToDo this requested)
  <-> ~ compiles (IAccessToken.scope this).
Proof.
  unfold isAuthorizedToDo. split.
  - intros Ht Hc. destruct (Array_map_total _ _ Hc) as [res Hres].
    rewrite Hres in Ht. exact Ht.
  - intros Hc. apply not_compiles_Exists, Array_map_Throw in Hc.
    destruct (Array_map scopeRegex (IAccessToken.scope this)); [destruct Hc|exact I].
Qed.

Lemma scopeRegex_unslashed x :
  JsString.first_is_not "/" x = true -> scopeRegex x = RegExp_new x "".
Proof. intros H. unfold scopeRegex. rewrite H. reflexivity. Qed.

Lemma scopeRegex_slashed segs fl :
  Forall (fun s => JsString.free_of "/" s = true) segs ->
  JsString.free_of "/" fl = true ->
  scopeRegex ("/" +:+ JsString.join "/" (segs ++ [fl]))
  = RegExp_new (JsString.join "/" segs) fl.
Proof.
  intros Hs Hf.
  assert (Hx : "/" +:+ JsString.join "/" (segs ++ [fl])
               = JsString.join "/" ("" :: segs ++ [fl])).
  { destruct segs; reflexivity. }
  unfold scopeRegex. rewrite Hx.
  assert (Hn : JsString.first_is_not "/"
                 (JsString.join "/" ("" :: segs ++ [fl])) = false).
  { rewrite <- Hx. reflexivity. }
  rewrite Hn, split_join.
  2:{ constructor; [reflexivity|]. apply Forall_app. split; [assumption|].
      constructor; [assumption|constructor]. }
  change ("" :: segs ++ [fl]) with ((("" :: segs) ++ [fl])%list).
  rewrite slice_last.
  change ((("" :: segs) ++ [fl])%list) with ("" :: segs ++ [fl]).
  rewrite slice_inner. reflexivity.
Qed.

End MatcherFacts.

(** C3, as the specification words it, fails: with granted scopes
    ["read"; "/admin"] and the request "read", the entry "read" compiles and
    tests positive, yet the matcher throws a SyntaxError, because "/admin"
    is read as an empty pattern with the flags "admin". *)
Lemma matcherAsWorded_fails : ~ matcherAsWorded (E := ES.engine).
Proof.
  intros H.
  specialize (H (Ex.token 1%positive Bearer consumer None ["read"; "/admin"] None)
                "read").
  assert (Hm : someEntryMatches (E := ES.engine) ["read"; "/admin"] "read").
  { eexists "read", _. split; [left|]. split.
    - vm_compute. reflexivity.
    - vm_compute. reflexivity. }
  apply H in Hm. vm_compute in Hm. discriminate Hm.
Qed.

(** C3, amended. For every granted list all of whose entries compile, the
    matcher returns true iff some entry, compiled, tests positive against
    the requested scope, and false iff none does (so false for the empty
    list); when an entry does not compile the matcher throws instead. An
    entry not beginning with '/' is compiled as it stands; '/' followed by
    segments joined with '/' is compiled with the last segment as flags and
    the segments before it, rejoined with '/', as pattern. The three fixed
    cases of the specification hold. *)
Theorem isAuthorizedToDo_matches :
  (forall (E : RegExpEngine) (this : IAccessToken.t) (requested : string),
     compiles (IAccessToken.scope this) ->
     (isAuthorizedToDo this requested = Return true
      <-> someEntryMatches (IAccessToken.scope this) requested)
     /\ (isAuthorizedToDo this requested = Return false
         <-> ~ someEntryMatches (IAccessToken.scope this) requested))
  /\ (forall (E : RegExpEngine) (this : IAccessToken.t) (requested : string),
        ~ compiles (IAccessToken.scope this)
        <-> thrown (isAuthorizedToDo this requested))
  /\ (forall (E : RegExpEngine) (this : IAccessToken.t) (requested : string),
        IAccessToken.scope this = [] ->
        isAuthorizedToDo this requested = Return false)
  /\ (forall (E : RegExpEngine) (x : string),
        JsString.first_is_not "/" x = true -> scopeRegex x = RegExp_new x "")
  /\ (forall (E : RegExpEngine) (segments : list string) (fl : string),
        Forall (fun s => JsString.free_of "/" s = true) segments ->
        JsString.free_of "/" fl = true ->
        scopeRegex ("/" +:+ JsString.join "/" (segments ++ [fl]))
        = RegExp_new (JsString.join "/" segments) fl)
  /\ isAuthorizedToDo (E := ES.engine)
       (Ex.token 1%positive Bearer consumer None ["read"] None) "read"
     = Return true
  /\ isAuthorizedToDo (E := ES.engine)
       (Ex.token 1%positive Bearer consumer None ["read"] None) "write"
     = Return false
  /\ isAuthorizedToDo (E := ES.engine)
       (Ex.token 1%positive Bearer consumer None ["/^admin\./i"] None)
       "Admin.users"
     = Return true.
Proof.
  split; [|split; [|split; [|split; [|split; [|split; [|split]]]]]].
  - intros E this requested Hc. split.
    + rewrite isAuthorizedToDo_true. tauto.
    + rewrite isAuthorizedToDo_false. tauto.
  - intros E this requested. symmetry. apply isAuthorizedToDo_thrown.
  - intros E this requested H. unfold isAuthorizedToDo. rewrite H. reflexivity.
  - intros E x. apply scopeRegex_unslashed.
  - intros E segments fl. apply scopeRegex_slashed.
  - vm_compute. reflexivity.
  - vm_compute. reflexivity.
  - vm_compute. reflexivity.
Qed.

(** The amended C3 at work: a token granted ["read"; "/^admin\./i"] and the
    request "Admin.users". *)
Lemma isAuthorizedToDo_matches_witness :
  compiles (E := ES.engine) ["read"; "/^admin\./i"]
  /\ (isAuthorizedToDo (E := ES.engine)
        (Ex.token 1%positive Bearer consumer None ["read"; "/^admin\./i"] None)
        "Admin.users" = Return true
      <-> someEntryMatches (E := ES.engine) ["read"; "/^admin\./i"] "Admin.users").
Proof.
  assert (Hc : compiles (E := ES.engine) ["read"; "/^admin\./i"]).
  { constructor; [vm_compute; exact I|].
    constructor; [vm_compute; exact I|]. constructor. }
  split; [exact Hc|].
  exact (proj1 (proj1 isAuthorizedToDo_matches ES.engine
           (Ex.token 1%positive Bearer consumer None ["read"; "/^admin\./i"] None)
           "Admin.users" Hc)).
Defined.

(** *** Granted scopes without syntax characters *)

Lemma scopeRegex_plain x :
  plainScope x ->
  scopeRegex (E := ES.engine) x
  = Return {| ES.source := ES.literal x; ES.flags := ES.noFlags |}.
Proof.
  intros [Hp Hs]. rewrite scopeRegex_unslashed by exact Hs.
  apply ESFacts.compile_plain. exact Hp.
Qed.

Lemma compiles_plain granted :
  Forall plainScope granted -> compiles (E := ES.engine) granted.
Proof.
  unfold compiles. intros H. eapply Forall_impl; [exact H|].
  intros x Hx. simpl. rewrite (scopeRegex_plain x Hx). exact I.
Qed.

Lemma someEntryMatches_plain granted requested :
  Forall plainScope granted ->
  someEntryMatches (E := ES.engine) granted requested
  <-> exists x, x ∈ granted /\ JsString.occurs_in x requested.
Proof.
  intros Hg. rewrite Forall_forall in Hg. split.
  - intros (x & re & Hin & Hre & Ht). exists x. split; [exact Hin|].
    rewrite (scopeRegex_plain x (Hg x Hin)) in Hre. injection Hre as <-.
    apply ESFacts.test_literal. exact Ht.
  - intros (x & Hin & Ho). exists x. eexists. split; [exact Hin|].
    split; [apply scopeRegex_plain, Hg, Hin|].
    apply ESFacts.test_literal. exact Ho.
Qed.

(** C10. The method table holds the second definition. A granted scope not
    beginning with '/' is handed to RegExp as it stands, with no flags, and
    the expression it compiles to tests positive exactly when its pattern
    matches from some position of the requested scope on. So a list of
    scopes without syntax characters authorizes exactly the requests that
    contain one of them as a substring: ["read"] authorizes "readonly" and
    "unread", which membership (the first definition) rejects; and the dot
    of "a.c" stands for any code unit but a line terminator. *)
Theorem literal_scopes_match_anywhere :
  (forall E : RegExpEngine,
     AccessTokenSchema_methods !! "isAuthorizedToDo" = Some isAuthorizedToDo)
  /\ (forall (E : RegExpEngine) (x : string),
        JsString.first_is_not "/" x = true -> scopeRegex x = RegExp_new x "")
  /\ (forall (x : string) (re : ES.Regex) (requested : string),
        JsString.first_is_not "/" x = true ->
        scopeRegex (E := ES.engine) x = Return re ->
        RegExp_test (RegExpEngine := ES.engine) re requested = true
        <-> exists u v, requested = u +:+ v /\ ES.matchesAt re u v)
  /\ (forall (this : IAccessToken.t) (requested : string),
        Forall plainScope (IAccessToken.scope this) ->
        (isAuthorizedToDo (E := ES.engine) this requested = Return true
         <-> exists x, x ∈ IAccessToken.scope this
                       /\ JsString.occurs_in x requested)
        /\ (isAuthorizedToDo (E := ES.engine) this requested = Return false
            <-> ~ exists x, x ∈ IAccessToken.scope this
                            /\ JsString.occurs_in x requested))
  /\ isAuthorizedToDo (E := ES.engine)
       (Ex.token 1%positive Bearer consumer None ["read"] None) "readonly"
     = Return true
  /\ isAuthorizedToDo (E := ES.engine)
       (Ex.token 1%positive Bearer consumer None ["read"] None) "unread"
     = Return true
  /\ isAuthorizedToDo_first
       (Ex.token 1%positive Bearer consumer None ["read"] None)
       (ScopeString "readonly") = false
  /\ isAuthorizedToDo_first
       (Ex.token 1%positive Bearer consumer None ["read"] None)
       (ScopeString "unread") = false
  /\ (forall c : ascii,
        ES.isLineTerminator c = false ->
        isAuthorizedToDo (E := ES.engine)
          (Ex.token 1%positive Bearer consumer None ["a.c"] None)
          (String "a" (String c "c"))
        = Return true).
Proof.
  split; [|split; [|split; [|split; [|split; [|split; [|split; [|split]]]]]]].
  - intros E. unfold AccessTokenSchema_methods. apply lookup_insert_eq.
  - intros E x. apply scopeRegex_unslashed.
  - intros x re requested Hx Hre.
    rewrite (scopeRegex_unslashed x Hx) in Hre.
    apply ESFacts.test_anywhere.
    rewrite (ESFacts.compile_no_flags x re Hre). reflexivity.
  - intros this requested Hp. split.
    + rewrite isAuthorizedToDo_true, (someEntryMatches_plain _ _ Hp).
      split; [tauto|]. intros H. split; [apply compiles_plain, Hp|exact H].
    + rewrite isAuthorizedToDo_false, (someEntryMatches_plain _ _ Hp).
      split; [tauto|]. intros H. split; [apply compiles_plain, Hp|exact H].
  - vm_compute. reflexivity.
  - vm_compute. reflexivity.
  - vm_compute. reflexivity.
  - vm_compute. reflexivity.
  - intros c. destruct c as [[] [] [] [] [] [] [] []]; intros H;
      first [discriminate H | vm_compute; reflexivity].
Qed.

(** C10 at work: granted ["read"; "write"], requested "unread". *)
Lemma literal_scopes_match_anywhere_witness :
  Forall plainScope ["read"; "write"]
  /\ (isAuthorizedToDo (E := ES.engine)
        (Ex.token 1%positive Bearer consumer None ["read"; "write"] None)
        "unread" = Return true
      <-> exists x, x ∈ ["read"; "write"] /\ JsString.occurs_in x "unread").
Proof.
  assert (Hp : Forall plainScope ["read"; "write"]).
  { repeat constructor. }
  split; [exact Hp|].
  exact (proj1 (proj1 (proj2 (proj2 (proj2 literal_scopes_match_anywhere)))
           (Ex.token 1%positive Bearer consumer None ["read"; "write"] None)
           "unread" Hp)).
Defined.

(** *** [formalScope] *)

Lemma search_dollar s : forall p i,
  ES.search {| ES.source := ES.N_seq ES.N_eol ES.N_empty; ES.flags := ES.noFlags |}
    p s i
  = Some ((i + String.length s)%nat, (i + String.length s)%nat).
Proof.
  induction s as [|c s IH]; intros p i.
  - cbn. rewrite Nat.add_0_r. reflexivity.
  - cbn. rewrite IH, <- Nat.add_succ_comm. reflexivity.
Qed.

Lemma search_dollar_literal a x s : forall p i,
  ES.search
    {| ES.source := ES.N_seq ES.N_eol (ES.literal (String a x));
       ES.flags := ES.noFlags |} p s i
  = None.
Proof.
  induction s as [|c s IH]; intros p i.
  - reflexivity.
  - simpl. apply IH.
Qed.

(** Nothing matches an end of input followed by a character, and an empty
    match at the end is replaced by itself. *)
Lemma replace_dollar_literal name s :
  ES.replace s
    {| ES.source := ES.N_seq ES.N_eol (ES.literal name); ES.flags := ES.noFlags |}
    ""
  = s.
Proof.
  unfold ES.replace, ES.exec. simpl ES.global. cbv iota.
  destruct name as [|a x].
  - simpl ES.literal. rewrite search_dollar. simpl Nat.add.
    rewrite substring_all, Nat.sub_diag, substring_none.
    apply append_empty_r.
  - rewrite search_dollar_literal. reflexivity.
Qed.

Lemma formalScope_identity (this : IAccessToken.t) (name : string) :
  IAccessToken.clientName this = Some name ->
  ES.plain name = true ->
  formalScope (E := ES.engine) this = Return (IAccessToken.scope this).
Proof.
  intros Hn Hp. unfold formalScope. rewrite Hn. simpl default.
  destruct (decide (IAccessToken.clientRole this = provider)); [|reflexivity].
  apply Array_map_Return.
  induction (IAccessToken.scope this) as [|s l IH]; constructor; [|exact IH].
  change (RegExp_new ("$" +:+ name) "") with (ES.compile ("$" +:+ name) "").
  rewrite (ESFacts.compile_dollar_plain name Hp).
  cbn [mbind Completion_bind]. f_equal. apply replace_dollar_literal.
Qed.

(** ** The pre-save hook *)

Section HookFacts.
Variable U : list string -> string -> bool.
Variable G : World -> IUser.t -> list string -> list ScopeAccessTokenPair.
Variable cfg : IConfig.t.

(** The hook writes [clientName] and [scope], nothing else. *)
Lemma pre_save_frame env w this :
  exists name scope,
    (pre_save U G cfg env w this).2
    = IAccessToken.set_scope scope (IAccessToken.set_clientName name this).
Proof.
  unfold pre_save. destruct (clients w !! IAccessToken.client this) as [c|].
  2:{ exists (IAccessToken.clientName this), (IAccessToken.scope this).
      destruct this; reflexivity. }
  set (this1 := IAccessToken.set_clientName (Some (IClient.name c)) this).
  assert (H : exists scope,
            (if bool_decide (IAccessToken.clientRole this1 = provider)
                && negb (bool_decide (IAccessToken.scope this1 = []))
             then IAccessToken.set_scope
                    (map (fun s => IClient.name c +:+ "." +:+ s)
                         (IAccessToken.scope this1)) this1
             else this1)
            = IAccessToken.set_scope scope this1).
  { destruct (_ && _); eexists; [reflexivity|].
    instantiate (1 := IAccessToken.scope this1). destruct this; reflexivity. }
  destruct H as [scope ->]. exists (Some (IClient.name c)), scope.
  repeat match goal with
         | |- context [if ?b then _ else _] => destruct b
         | |- context [match ?x with _ => _ end] => destruct x
         end; reflexivity.
Qed.

Lemma pre_save_expiresAt env w this :
  IAccessToken.expiresAt (pre_save U G cfg env w this).2
  = IAccessToken.expiresAt this.
Proof. destruct (pre_save_frame env w this) as (n & s & ->). reflexivity. Qed.

Lemma pre_save_id env w this :
  IAccessToken._id (pre_save U G cfg env w this).2 = IAccessToken._id this.
Proof. destruct (pre_save_frame env w this) as (n & s & ->). reflexivity. Qed.



(** A bearer token of a client whose [expireAccessTokenIn] is not [null]:
    the hook ends at its first [return], whatever the role, the user and the
    tokens the user holds. *)
Lemma pre_save_bearer_returns env w this client :
  clients w !! IAccessToken.client this = Some client ->
  isBearer this = true ->
  IClient.expireAccessTokenIn client <> null ->
  (pre_save U G cfg env w this).1
  = Return (Some (expiry (now env) (IClient.expireAccessTokenIn client)
                    (IConfig.expireTokenIn cfg))).
Proof.
  intros Hc Hb Hn. unfold pre_save. rewrite Hc.
  match goal with
  | |- context [isBearer ?d] =>
      replace (isBearer d) with true
        by (symmetry; destruct (_ && _); exact Hb)
  end.
  destruct (IClient.expireAccessTokenIn client); [reflexivity|congruence|reflexivity].
Qed.

Lemma pre_save_refresh_returns env w this client :
  clients w !! IAccessToken.client this = Some client ->
  isRefreshToken this = true ->
  IClient.expireRefreshTokenIn client <> null ->
  (pre_save U G cfg env w this).1
  = Return (Some (expiry (now env) (IClient.expireRefreshTokenIn client)
                    (IConfig.expireRefreshTokenIn cfg))).
Proof.
  intros Hc Hr Hn. unfold pre_save. rewrite Hc.
  assert (Hb : isBearer this = false).
  { unfold isBearer, isRefreshToken in *. apply bool_decide_eq_true_1 in Hr.
    rewrite Hr. reflexivity. }
  repeat match goal with
         | |- context [isBearer ?d] =>
             replace (isBearer d) with false
               by (symmetry; destruct (_ && _); exact Hb)
         | |- context [isRefreshToken ?d] =>
             replace (isRefreshToken d) with true
               by (symmetry; destruct (_ && _); exact Hr)
         end.
  simpl andb. cbv iota.
  destruct (IClient.expireRefreshTokenIn client); [reflexivity|congruence|reflexivity].
Qed.

(** The stored scope: prefixed with the client's name for a provider-role
    token with a scope, as it was otherwise. *)
Lemma pre_save_scope env w this client :
  clients w !! IAccessToken.client this = Some client ->
  IAccessToken.scope (pre_save U G cfg env w this).2
  = if bool_decide (IAccessToken.clientRole this = provider)
    then map (fun s => IClient.name client +:+ "." +:+ s) (IAccessToken.scope this)
    else IAccessToken.scope this.
Proof.
  intros Hc. unfold pre_save. rewrite Hc.
  simpl IAccessToken.clientRole. simpl IAccessToken.scope.
  destruct (bool_decide (IAccessToken.clientRole this = provider)) eqn:Hr;
    destruct (bool_decide (IAccessToken.scope this = [])) eqn:Hs;
    simpl andb; cbv iota;
    try apply bool_decide_eq_true_1 in Hs;
    repeat match goal with
           | |- context [if ?b then _ else _] => destruct b
           | |- context [match ?x with _ => _ end] => destruct x
           end; simpl; rewrite ?Hs; reflexivity.
Qed.

End HookFacts.

(** C1: the code does not do what the claim says. For a bearer token of a
    client whose expireAccessTokenIn is not null the hook computes
    now + (client.expireAccessTokenIn, or the configured default) and returns
    that number, and likewise for a refresh token with expireRefreshTokenIn
    and the refresh default; it never assigns expiresAt, for any token. At
    time 1000 with
    the default 3600000, a bearer token saved under the client svc is stored
    without expiresAt, the hook having returned 3601000. *)
Theorem pre_save_returns_the_expiry :
  (forall U G cfg env w this,
     IAccessToken.expiresAt (pre_save U G cfg env w this).2
     = IAccessToken.expiresAt this)
  /\ (forall U G cfg env w this client,
        clients w !! IAccessToken.client this = Some client ->
        isBearer this = true ->
        IClient.expireAccessTokenIn client <> null ->
        (pre_save U G cfg env w this).1
        = Return (Some (expiry (now env) (IClient.expireAccessTokenIn client)
                          (IConfig.expireTokenIn cfg))))
  /\ (forall U G cfg env w this client,
        clients w !! IAccessToken.client this = Some client ->
        isRefreshToken this = true ->
        IClient.expireRefreshTokenIn client <> null ->
        (pre_save U G cfg env w this).1
        = Return (Some (expiry (now env) (IClient.expireRefreshTokenIn client)
                          (IConfig.expireRefreshTokenIn cfg))))
  /\ (let doc := Ex.token 2%positive Bearer consumer None ["read"] None in
      let w := Ex.world Ex.svc [] 3%positive in
      let r := save Ex.grantsNothing Ex.noTokens Ex.config (Ex.env 1000 None)
                 doc w in
      (pre_save Ex.grantsNothing Ex.noTokens Ex.config (Ex.env 1000 None) w doc).1
      = Return (Some (Num 3601000))
      /\ r.1.1 = Return ()
      /\ IAccessToken.expiresAt <$> (access_tokens r.2 !! 2%positive)
         = Some None).
Proof.
  split; [|split; [|split]].
  - apply pre_save_expiresAt.
  - apply pre_save_bearer_returns.
  - apply pre_save_refresh_returns.
  - vm_compute. repeat split; reflexivity.
Qed.

(** C2: the code does not do what the claim says. A provider-role token
    with scope ["read"] saved under the client svc is stored with scope
    ["svc.read"], as claimed, but formalScope then yields ["svc.read"], not
    ["read"]: the expression built from '$' and the client name matches
    nothing, for every client name without syntax characters. For the other
    roles the scope is stored as it was and read as it is stored. *)
Theorem formalScope_keeps_the_prefix :
  (let doc := Ex.token 2%positive Bearer provider None ["read"] None in
   let r := save Ex.grantsNothing Ex.noTokens Ex.config (Ex.env 1000 None)
              doc (Ex.world Ex.svc [] 3%positive) in
   r.1.1 = Return ()
   /\ access_tokens r.2 !! 2%positive = Some r.1.2
   /\ IAccessToken.scope r.1.2 = ["svc.read"]
   /\ formalScope (E := ES.engine) r.1.2 = Return ["svc.read"])
  /\ (forall (this : IAccessToken.t) (name : string),
        IAccessToken.clientName this = Some name ->
        ES.plain name = true ->
        formalScope (E := ES.engine) this = Return (IAccessToken.scope this))
  /\ (forall U G cfg env w this client,
        clients w !! IAccessToken.client this = Some client ->
        IAccessToken.scope (pre_save U G cfg env w this).2
        = if bool_decide (IAccessToken.clientRole this = provider)
          then map (fun s => IClient.name client +:+ "." +:+ s)
                   (IAccessToken.scope this)
          else IAccessToken.scope this)
  /\ (forall (E : RegExpEngine) (this : IAccessToken.t),
        IAccessToken.clientRole this <> provider ->
        formalScope this = Return (IAccessToken.scope this)).
Proof.
  split; [|split; [|split]].
  - vm_compute. repeat split; reflexivity.
  - apply formalScope_identity.
  - apply pre_save_scope.
  - intros E this Hr. unfold formalScope.
    destruct (decide (IAccessToken.clientRole this = provider)); [contradiction|].
    reflexivity.
Qed.

(** C7: the code does not do what the claim says. A consumer-role bearer
    token for a user who holds no token for "billing.write", saved under a
    client whose expireAccessTokenIn is not null, is stored: the hook has
    returned before it reaches the check. The check aborts the save with
    CouldNotFindTokenForScopeError only when the hook gets that far, as under
    a client whose expireAccessTokenIn is null; there the save succeeds once
    the user holds a token for the scope. *)
Theorem pre_save_skips_the_scope_check :
  (let r := save Ex.grantsNothing Ex.noTokens Ex.config (Ex.env 1000 None)
              Ex.billing (Ex.world Ex.svc [] 6%positive) in
   r.1.1 = Return ()
   /\ IAccessToken.scope <$> (access_tokens r.2 !! 5%positive)
      = Some ["billing.write"])
  /\ (let r := save Ex.grantsNothing Ex.noTokens Ex.config (Ex.env 1000 None)
                 Ex.billing (Ex.world Ex.svcNeverExpires [] 6%positive) in
      r.1.1 = Throw (CouldNotFindTokenForScopeError (Some "billing.write"))
      /\ access_tokens r.2 !! 5%positive = None)
  /\ (let r := save Ex.grantsNothing Ex.holdsTokens Ex.config (Ex.env 1000 None)
                 Ex.billing (Ex.world Ex.svcNeverExpires [] 6%positive) in
      r.1.1 = Return ()
      /\ IAccessToken.scope <$> (access_tokens r.2 !! 5%positive)
         = Some ["billing.write"])
  /\ (forall U G cfg env w this client,
        clients w !! IAccessToken.client this = Some client ->
        isBearer this = true ->
        IClient.expireAccessTokenIn client <> null ->
        returned (pre_save U G cfg env w this).1).
Proof.
  split; [|split; [|split]].
  - vm_compute. split; reflexivity.
  - vm_compute. split; reflexivity.
  - vm_compute. split; reflexivity.
  - intros U G cfg env w this client Hc Hb Hn.
    rewrite (pre_save_bearer_returns U G cfg env w this client Hc Hb Hn).
    exact I.
Qed.


(** ** The collection under saves and refreshes *)

Lemma wellKeyed_insert m d :
  wellKeyed m -> wellKeyed (<[IAccessToken._id d := d]> m).
Proof. intros H. apply map_Forall_insert_2; [reflexivity|exact H]. Qed.

Lemma wellKeyed_deleteMany p m : wellKeyed m -> wellKeyed (deleteMany p m).
Proof.
  intros H i d Hd. apply map_lookup_filter_Some in Hd as [Hd _]. exact (H i d Hd).
Qed.

Lemma wellKeyed_delete i m : wellKeyed m -> wellKeyed (delete i m).
Proof. intros H. apply map_Forall_delete. exact H. Qed.


Section StoreFacts.
Variable U : list string -> string -> bool.
Variable G : World -> IUser.t -> list string -> list ScopeAccessTokenPair.
Variable cfg : IConfig.t.

Lemma post_save_clients doc w : clients (post_save doc w) = clients w.
Proof.
  unfold post_save. destruct (IAccessToken.linkedToken doc); [|reflexivity].
  destruct (isBearer doc); reflexivity.
Qed.

Lemma post_save_wellKeyed doc w :
  wellKeyed (access_tokens w) -> wellKeyed (access_tokens (post_save doc w)).
Proof.
  intros H. unfold post_save. destruct (IAccessToken.linkedToken doc); [|exact H].
  destruct (isBearer doc); [|exact H]. simpl. apply wellKeyed_deleteMany, H.
Qed.

Lemma save_clients env doc w : clients (save U G cfg env doc w).2 = clients w.
Proof.
  unfold save. destruct (bool_decide _); [reflexivity|].
  destruct (pre_save U G cfg env w doc) as [[r|e] d]; [|reflexivity].
  simpl. rewrite post_save_clients. reflexivity.
Qed.

Lemma save_wellKeyed env doc w :
  wellKeyed (access_tokens w) ->
  wellKeyed (access_tokens (save U G cfg env doc w).2).
Proof.
  intros H. unfold save. destruct (bool_decide _); [exact H|].
  destruct (pre_save U G cfg env w doc) as [[r|e] d]; [|exact H].
  simpl. apply post_save_wellKeyed. simpl. apply wellKeyed_insert, H.
Qed.



Lemma newObjectId_tokens w : access_tokens (newObjectId w).2 = access_tokens w.
Proof. reflexivity. Qed.




End StoreFacts.

(** ** Lookups in a pruned collection *)

Lemma deleteMany_lookup p (m : gmap ObjectId IAccessToken.t) i d :
  deleteMany p m !! i = Some d <-> m !! i = Some d /\ p d = false.
Proof. unfold deleteMany. apply map_lookup_filter_Some. Qed.

Lemma deleteMany_lookup_None p (m : gmap ObjectId IAccessToken.t) i :
  m !! i = None -> deleteMany p m !! i = None.
Proof.
  intros H. unfold deleteMany. apply map_lookup_filter_None. left. exact H.
Qed.

Ltac lk :=
  repeat first
    [ apply deleteMany_lookup_None
    | (apply deleteMany_lookup; split; [|assumption])
    | rewrite lookup_insert_eq
    | rewrite lookup_insert_ne by congruence
    | rewrite lookup_delete_eq
    | rewrite lookup_delete_ne by congruence ];
  try reflexivity; try assumption.

(** ** Saves of provider-role tokens, awaited or in flight *)

Section ProviderFacts.
Variable U : list string -> string -> bool.
Variable G : World -> IUser.t -> list string -> list ScopeAccessTokenPair.
Variable cfg : IConfig.t.

Lemma pre_save_token env w this :
  IAccessToken.token (pre_save U G cfg env w this).2 = IAccessToken.token this.
Proof. destruct (pre_save_frame U G cfg env w this) as (n & s & ->). reflexivity. Qed.

Lemma pre_save_isRefreshToken env w this :
  isRefreshToken (pre_save U G cfg env w this).2 = isRefreshToken this.
Proof. destruct (pre_save_frame U G cfg env w this) as (n & s & ->). reflexivity. Qed.

(** The hook never throws for a provider-role token whose client exists. *)
Lemma pre_save_provider_returns env w this client :
  clients w !! IAccessToken.client this = Some client ->
  IAccessToken.clientRole this = provider ->
  returned (pre_save U G cfg env w this).1.
Proof.
  intros Hc Hr. unfold pre_save. rewrite Hc.
  repeat match goal with
         | |- context [if bool_decide (?a = consumer) then _ else _] =>
             rewrite (bool_decide_eq_false_2 (a = consumer))
               by (destruct (_ && _); simpl; rewrite Hr; discriminate)
         | |- context [if ?b then _ else _] => destruct b eqn:?
         | |- context [match ?x with _ => _ end] => destruct x eqn:?
         end; simpl; try exact I.
Qed.

(** Whatever the hook returns or throws, it leaves the document with the
    client's name and, for a provider-role token, the prefixed scope. *)
Lemma pre_save_doc env w this client :
  clients w !! IAccessToken.client this = Some client ->
  (pre_save U G cfg env w this).2 = namespaced client this.
Proof.
  intros Hc. unfold pre_save, namespaced. rewrite Hc. cbv zeta.
  match goal with
  | |- context [if ?c then IAccessToken.set_scope ?s ?t else ?t'] =>
      set (this2 := if c then IAccessToken.set_scope s t else t')
  end.
  repeat match goal with
         | |- context [if ?b then _ else _] => destruct b
         | |- context [match ?x with _ => _ end] => destruct x
         end; reflexivity.
Qed.

Lemma namespaced_frame client this :
  exists scope,
    namespaced client this
    = IAccessToken.set_scope scope
        (IAccessToken.set_clientName (Some (IClient.name client)) this).
Proof.
  unfold namespaced. cbv zeta. destruct (_ && _); eexists; [reflexivity|].
  instantiate (1 := IAccessToken.scope this). destruct this; reflexivity.
Qed.

Lemma namespaced_id client this :
  IAccessToken._id (namespaced client this) = IAccessToken._id this.
Proof. destruct (namespaced_frame client this) as [s ->]. reflexivity. Qed.

Lemma namespaced_isBearer client this :
  isBearer (namespaced client this) = isBearer this.
Proof. destruct (namespaced_frame client this) as [s ->]. reflexivity. Qed.

Lemma namespaced_isRefreshToken client this :
  isRefreshToken (namespaced client this) = isRefreshToken this.
Proof. destruct (namespaced_frame client this) as [s ->]. reflexivity. Qed.

Lemma namespaced_linkedToken client this :
  IAccessToken.linkedToken (namespaced client this)
  = IAccessToken.linkedToken this.
Proof. destruct (namespaced_frame client this) as [s ->]. reflexivity. Qed.

Lemma namespaced_token client this :
  IAccessToken.token (namespaced client this) = IAccessToken.token this.
Proof. destruct (namespaced_frame client this) as [s ->]. reflexivity. Qed.

(** [save] is the validation and the pre-save hook, the write and the
    post-save hook, one after the other. *)
Lemma save_validated env doc w :
  save U G cfg env doc w
  = match validated U G cfg env doc w with
    | (Return _, doc') => (Return (), doc', post_save doc' (insertOne doc' w))
    | (Throw e, doc') => (Throw e, doc', w)
    end.
Proof.
  unfold save, validated. destruct (bool_decide _); [reflexivity|].
  destruct (pre_save U G cfg env w doc) as [[r|e] d]; reflexivity.
Qed.

(** The three steps of a save in flight, taken one after the other, do
    what the awaited [save] does. *)
Lemma save_in_three_steps env doc w :
  let r := steps U G cfg env 3 {| pending := doc; stage := Started |} w in
  pending r.1 = (save U G cfg env doc w).1.2
  /\ stage r.1 = Settled
  /\ r.2 = (save U G cfg env doc w).2.
Proof.
  rewrite save_validated. unfold steps, step. cbn [stage pending].
  destruct (validated U G cfg env doc w) as [[[]|e] d]; split_and!; reflexivity.
Qed.

Lemma validated_provider env doc w client :
  clients w !! IAccessToken.client doc = Some client ->
  IAccessToken.clientRole doc = provider ->
  IAccessToken.expiresAt doc <> Some NaN ->
  validated U G cfg env doc w = (Return (), namespaced client doc).
Proof.
  intros Hc Hr He. unfold validated.
  rewrite bool_decide_eq_false_2 by exact He.
  pose proof (pre_save_provider_returns env w doc client Hc Hr) as Hret.
  pose proof (pre_save_doc env w doc client Hc) as Hd.
  destruct (pre_save U G cfg env w doc) as [[r|e] d]; [|destruct Hret].
  simpl in Hd. subst d. reflexivity.
Qed.

Lemma step_started env doc w client :
  clients w !! IAccessToken.client doc = Some client ->
  IAccessToken.clientRole doc = provider ->
  IAccessToken.expiresAt doc <> Some NaN ->
  step U G cfg env {| pending := doc; stage := Started |} w
  = ({| pending := namespaced client doc; stage := Hooked |}, w).
Proof.
  intros Hc Hr He. unfold step. cbn [stage pending].
  rewrite (validated_provider env doc w client Hc Hr He). reflexivity.
Qed.

Lemma step_started_invalid env doc w :
  IAccessToken.expiresAt doc = Some NaN ->
  step U G cfg env {| pending := doc; stage := Started |} w
  = ({| pending := doc; stage := Settled |}, w).
Proof.
  intros He. unfold step, validated. cbn [stage pending].
  rewrite bool_decide_eq_true_2 by exact He. reflexivity.
Qed.

Lemma step_hooked env doc w :
  step U G cfg env {| pending := doc; stage := Hooked |} w
  = ({| pending := doc; stage := Written |}, insertOne doc w).
Proof. reflexivity. Qed.

Lemma step_written env doc w :
  step U G cfg env {| pending := doc; stage := Written |} w
  = ({| pending := doc; stage := Settled |}, post_save doc w).
Proof. reflexivity. Qed.

Lemma step_settled env doc w :
  step U G cfg env {| pending := doc; stage := Settled |} w
  = ({| pending := doc; stage := Settled |}, w).
Proof. reflexivity. Qed.

Lemma steps_settled env n doc w :
  steps U G cfg env n {| pending := doc; stage := Settled |} w
  = ({| pending := doc; stage := Settled |}, w).
Proof. induction n as [|n IH]; [reflexivity|]. simpl. exact IH. Qed.

Lemma post_save_bearer doc w l :
  IAccessToken.linkedToken doc = Some l ->
  isBearer doc = true ->
  post_save doc w
  = set_access_tokens
      (deleteMany (siblingOf l (IAccessToken._id doc)) (access_tokens w))
      (OpDeleteMany l (IAccessToken._id doc)) w.
Proof. intros Hl Hb. unfold post_save. rewrite Hl, Hb. reflexivity. Qed.

Lemma post_save_other doc w :
  isBearer doc = false \/ IAccessToken.linkedToken doc = None ->
  post_save doc w = w.
Proof.
  intros [Hb|Hl]; unfold post_save.
  - rewrite Hb. destruct (IAccessToken.linkedToken doc); reflexivity.
  - rewrite Hl. reflexivity.
Qed.

Lemma save_provider_doc env doc w client :
  clients w !! IAccessToken.client doc = Some client ->
  IAccessToken.clientRole doc = provider ->
  IAccessToken.expiresAt doc <> Some NaN ->
  save U G cfg env doc w
  = (Return (), namespaced client doc,
     post_save (namespaced client doc)
       (set_access_tokens
          (<[IAccessToken._id doc := namespaced client doc]> (access_tokens w))
          (OpSave (IAccessToken._id doc)) w)).
Proof.
  intros Hc Hr He. rewrite save_validated.
  rewrite (validated_provider env doc w client Hc Hr He).
  unfold insertOne. rewrite namespaced_id. reflexivity.
Qed.

Lemma lifetimeFits_expiresAt env ft user client role w :
  IAccessToken.expiresAt (fromFormalToken env ft user client role w).1.1
  = Some NaN
  <-> lifetimeFits env ft = false.
Proof.
  unfold fromFormalToken, lifetimeFits, castDate.
  destruct (truthy (IFormalAccessToken.refresh_token ft));
    destruct (IFormalAccessToken.expires_in ft) as [[|p|p]|]; simpl;
    try (split; discriminate);
    destruct (_ <=? maxTime); split; congruence.
Qed.

(** A provider-role refresh that the upstream answers with a new refresh
    token, whatever the pace of the save that is not awaited: what the
    method returns, the collection when it returns and once every save in
    flight has run to its end. *)
Lemma provider_rotation env self w old client resp rt :
  (if isRefreshToken self then Some self
   else match IAccessToken.linkedToken self with
        | Some l => access_tokens w !! l
        | None => None
        end) = Some old ->
  IAccessToken.clientRole self = provider ->
  clients w !! IAccessToken.client self = Some client ->
  IClient._id client = IAccessToken.client self ->
  (forall req, fetch env req = resp) ->
  status resp = 200 ->
  truthy (IFormalAccessToken.refresh_token (json resp)) = Some rt ->
  IAccessToken._id self <> nextId w ->
  IAccessToken._id self <> Pos.succ (nextId w) ->
  inFlight w = [] ->
  access_tokens w !! nextId w = None ->
  let s := IAccessToken._id self in
  let b := nextId w in
  let r := Pos.succ (nextId w) in
  let out := accessTokenFromRefresh U G cfg env self w in
  let after := settle U G cfg env out.2 in
  exists tok ref,
    out.1 = Return (Some tok)
    /\ (IAccessToken._id tok = b /\ isBearer tok = true
        /\ IAccessToken.token tok = IFormalAccessToken.access_token (json resp)
        /\ IAccessToken.linkedToken tok = Some r)
    /\ (isRefreshToken ref = true /\ IAccessToken.token ref = rt
        /\ IAccessToken.linkedToken ref = Some b)
    /\ (access_tokens out.2 !! s = None
        /\ access_tokens out.2 !! r = Some ref
        /\ (is_Some (access_tokens out.2 !! b)
            <-> lifetimeFits env (json resp) = true
                /\ (2 <= beforeSave (schedule env)
                         + beforeReturn (schedule env))%nat)
        /\ exists rest,
             journal out.2 = (journal w ++ OpRemove s :: rest)%list
             /\ In (OpSave r) rest)
    /\ (inFlight after = []
        /\ access_tokens after !! s = None
        /\ access_tokens after !! r = Some ref
        /\ if lifetimeFits env (json resp)
           then (exists stored,
                   access_tokens after !! b = Some stored
                   /\ isBearer stored = true
                   /\ IAccessToken.token stored
                      = IFormalAccessToken.access_token (json resp)
                   /\ IAccessToken.linkedToken stored = Some r)
                /\ (journal after
                    = (journal w ++ [OpRemove s; OpSave b;
                                     OpDeleteMany r b; OpSave r])%list
                    \/ journal after
                       = (journal w ++ [OpRemove s; OpSave b; OpSave r;
                                        OpDeleteMany r b])%list
                    \/ journal after
                       = (journal w ++ [OpRemove s; OpSave r; OpSave b;
                                        OpDeleteMany r b])%list)
           else access_tokens after !! b = None
                /\ journal after = (journal w ++ [OpRemove s; OpSave r])%list)
    /\ (forall i d,
          i <> s -> i <> b -> i <> r ->
          access_tokens w !! i = Some d ->
          siblingOf r b d = false ->
          access_tokens out.2 !! i = Some d
          /\ access_tokens after !! i = Some d).
Proof.
  intros Hold Hrole Hc Hk Hf Hs Hrt Hn1 Hn2 Hq Hfresh s b r out after.
  assert (Hc' : clients w !! IClient._id client = Some client)
    by (rewrite Hk; exact Hc).
  pose proof (lifetimeFits_expiresAt env (json resp)
                (IUser._id <$> (IAccessToken.user self ≫= (fun u => users w !! u)))
                client provider w) as Hfit.
  assert (Hout : out = accessTokenFromRefresh U G cfg env self w) by reflexivity.
  clearbody out.
  unfold accessTokenFromRefresh in Hout.
  rewrite Hold, Hrole, Hc, Hf, Hs in Hout. simpl negb in Hout. cbv iota in Hout.
  revert Hfit Hout. unfold fromFormalToken. rewrite Hrt.
  cbn [newObjectId nextId fst snd].
  match goal with
  | |- context [steps U G cfg env _ {| pending := ?d; stage := Started |} ?x] =>
      set (d1 := d); set (w2 := x)
  end.
  match goal with
  | |- context [save U G cfg env ?d _] => set (d3 := d)
  end.
  intros Hfit Hout.
  assert (Hid1 : IAccessToken._id (namespaced client d1) = b)
    by (rewrite namespaced_id; reflexivity).
  assert (Hb1 : isBearer (namespaced client d1) = true)
    by (rewrite namespaced_isBearer; reflexivity).
  assert (Hl1 : IAccessToken.linkedToken (namespaced client d1) = Some r)
    by (rewrite namespaced_linkedToken; reflexivity).
  assert (Ht1 : IAccessToken.token (namespaced client d1)
                = IFormalAccessToken.access_token (json resp))
    by (rewrite namespaced_token; reflexivity).
  assert (Hid3 : IAccessToken._id (namespaced client d3) = r)
    by (rewrite namespaced_id; reflexivity).
  assert (Hb3 : isBearer (namespaced client d3) = false)
    by (rewrite namespaced_isBearer; reflexivity).
  assert (Hr3 : isRefreshToken (namespaced client d3) = true)
    by (rewrite namespaced_isRefreshToken; reflexivity).
  assert (Hl3 : IAccessToken.linkedToken (namespaced client d3) = Some b)
    by (rewrite namespaced_linkedToken; reflexivity).
  assert (Ht3 : IAccessToken.token (namespaced client d3) = rt)
    by (rewrite namespaced_token; reflexivity).
  assert (He3 : IAccessToken.expiresAt d3 <> Some NaN) by discriminate.
  assert (Hafter : after = settle U G cfg env out.2) by reflexivity.
  clearbody after.
  assert (Hs1 : siblingOf r b (namespaced client d1) = false).
  { unfold siblingOf. rewrite Hid1, (bool_decide_eq_true_2 (b = b)) by reflexivity.
    rewrite !andb_false_r. reflexivity. }
  assert (Hs3 : siblingOf r b (namespaced client d3) = false).
  { unfold siblingOf. rewrite Hb3. reflexivity. }
  change (access_tokens w !! b = None) in Hfresh.
  assert (Hbr : b <> r) by (subst b r; lia).
  assert (Hrb : r <> b) by (subst b r; lia).
  assert (Hsb : s <> b) by exact Hn1.
  assert (Hsr : s <> r) by exact Hn2.
  assert (Hbs : b <> s) by congruence.
  assert (Hrs : r <> s) by congruence.
  change (IAccessToken._id d1) with b in *.
  change (IAccessToken._id d3) with r in *.
  subst w2. unfold remove in Hout. fold s in Hout.
  destruct (lifetimeFits env (json resp)) eqn:Hfits.
  - assert (He1 : IAccessToken.expiresAt d1 <> Some NaN).
    { intros H. apply Hfit in H. discriminate H. }
    destruct (beforeSave (schedule env)) as [|[|[|k]]];
      destruct (beforeReturn (schedule env)) as [|[|[|k']]].
    all: repeat first
             [ rewrite steps_settled in Hout
             | rewrite step_settled in Hout
             | rewrite step_written in Hout
             | rewrite step_hooked in Hout
             | rewrite (step_started env d1 _ client) in Hout
                 by first [exact Hc' | reflexivity | exact He1]
             | rewrite (save_provider_doc env d3 _ client) in Hout
                 by first [exact Hc' | reflexivity | exact He3]
             | rewrite (post_save_bearer _ _ r Hl1 Hb1) in Hout
             | rewrite (post_save_other (namespaced client d3)) in Hout
                 by (left; exact Hb3)
             | rewrite Hid1 in Hout
             | progress change (IAccessToken._id d1) with b in Hout
             | progress change (IAccessToken._id d3) with r in Hout
             | progress cbn [steps leave stage pending set_access_tokens insertOne
                             set_inFlight access_tokens journal clients users
                             nextId inFlight] in Hout
             | progress cbv beta iota zeta in Hout ].
    all: rewrite ?Hq in Hout; subst out.
    all: unfold settle in Hafter;
      cbn [snd inFlight set_inFlight fold_left app access_tokens journal
           clients users nextId] in Hafter.
    all: repeat first
             [ rewrite steps_settled in Hafter
             | rewrite step_settled in Hafter
             | rewrite step_written in Hafter
             | rewrite step_hooked in Hafter
             | rewrite (step_started env d1 _ client) in Hafter
                 by first [exact Hc' | reflexivity | exact He1]
             | rewrite (post_save_bearer _ _ r Hl1 Hb1) in Hafter
             | rewrite Hid1 in Hafter
             | progress change (IAccessToken._id d1) with b in Hafter
             | progress cbn [steps leave stage pending set_access_tokens insertOne
                             set_inFlight access_tokens journal clients users
                             nextId inFlight fst snd fold_left app] in Hafter
             | progress cbv beta iota zeta in Hafter ].
    all: subst after;
      cbn [fst snd access_tokens journal inFlight pending set_access_tokens
           set_inFlight insertOne app clients users nextId];
      rewrite ?Hid1.
    all: eexists; exists (namespaced client d3); split; [reflexivity|].
    all: split;
      [first [ split_and!; [exact Hid1|exact Hb1|exact Ht1|exact Hl1]
             | split_and!; reflexivity ]|].
    all: split; [split_and!; [exact Hr3|exact Ht3|exact Hl3]|].
    all: split; [split_and!|split; [split_and!|]].
    all: try (intros i d Hi1 Hi2 Hi3 Hd Hsib; split).
    all: try solve [lk].
    all: try solve [exists (namespaced client d1); split; [lk|split_and!; assumption]].
    all: try solve [rewrite <- !app_assoc; cbn [app]; auto 6].
    all: try solve [rewrite <- !app_assoc; cbn [app]; eexists;
                    split; [reflexivity|simpl; auto 6]].
    all: try solve [split; [intros _; split; [reflexivity|lia]
                           |intros _; exists (namespaced client d1); lk]].
    all: try solve [split; [intros [x Hx];
                            rewrite ?lookup_insert_ne, lookup_delete_ne, Hfresh
                              in Hx by congruence; discriminate Hx
                           |intros [_ H]; lia]].
    all: try solve [split; [intros [x Hx];
                            rewrite ?lookup_insert_ne, lookup_delete_ne, Hfresh
                              in Hx by congruence; discriminate Hx
                           |intros [_ H]; lia]].
  - assert (He1 : IAccessToken.expiresAt d1 = Some NaN)
      by (apply Hfit; reflexivity).
    destruct (beforeSave (schedule env)) as [|k];
      destruct (beforeReturn (schedule env)) as [|k'].
    all: repeat first
             [ rewrite steps_settled in Hout
             | rewrite step_settled in Hout
             | rewrite (step_started_invalid env d1 _ He1) in Hout
             | rewrite (save_provider_doc env d3 _ client) in Hout
                 by first [exact Hc' | reflexivity | exact He3]
             | rewrite (post_save_other (namespaced client d3)) in Hout
                 by (left; exact Hb3)
             | progress change (IAccessToken._id d3) with r in Hout
             | progress cbn [steps leave stage pending set_access_tokens insertOne
                             set_inFlight access_tokens journal clients users
                             nextId inFlight] in Hout
             | progress cbv beta iota zeta in Hout ].
    all: rewrite ?Hq in Hout; subst out.
    all: unfold settle in Hafter;
      cbn [snd inFlight set_inFlight fold_left app access_tokens journal
           clients users nextId] in Hafter.
    all: repeat first
             [ rewrite steps_settled in Hafter
             | rewrite step_settled in Hafter
             | rewrite (step_started_invalid env d1 _ He1) in Hafter
             | progress cbn [steps leave stage pending set_access_tokens insertOne
                             set_inFlight access_tokens journal clients users
                             nextId inFlight fst snd fold_left app] in Hafter
             | progress cbv beta iota zeta in Hafter ].
    all: subst after;
      cbn [fst snd access_tokens journal inFlight pending set_access_tokens
           set_inFlight insertOne app clients users nextId];
      rewrite ?Hid1.
    all: eexists; exists (namespaced client d3); split; [reflexivity|].
    all: split; [split_and!; reflexivity|].
    all: split; [split_and!; [exact Hr3|exact Ht3|exact Hl3]|].
    all: split; [split_and!|split; [split_and!|]].
    all: try (intros i d Hi1 Hi2 Hi3 Hd Hsib; split).
    all: try solve [lk].
    all: try solve [rewrite <- !app_assoc; cbn [app]; auto 6].
    all: try solve [rewrite <- !app_assoc; cbn [app]; eexists;
                    split; [reflexivity|simpl; auto 6]].
    all: try solve [split; [intros [x Hx];
                            rewrite lookup_insert_ne, lookup_delete_ne, Hfresh
                              in Hx by congruence; discriminate Hx
                           |intros [H _]; discriminate H]].
    all: try solve [rewrite lookup_insert_ne, lookup_delete_ne by congruence;
                    exact Hfresh].
Qed.

Lemma step_frame env t w :
  wellKeyed (access_tokens w) ->
  let w' := (step U G cfg env t w).2 in
  wellKeyed (access_tokens w') /\ clients w' = clients w /\ users w' = users w.
Proof.
  intros Hwf. unfold step. destruct (stage t).
  - destruct (validated U G cfg env (pending t) w) as [[|] d]; simpl; auto.
  - simpl. split_and!; [|reflexivity..]. apply wellKeyed_insert, Hwf.
  - simpl. split_and!.
    + apply post_save_wellKeyed, Hwf.
    + apply post_save_clients.
    + unfold post_save. destruct (IAccessToken.linkedToken (pending t));
        [|reflexivity]. destruct (isBearer (pending t)); reflexivity.
  - simpl. auto.
Qed.

Lemma steps_frame env n : forall t w,
  wellKeyed (access_tokens w) ->
  let w' := (steps U G cfg env n t w).2 in
  wellKeyed (access_tokens w') /\ clients w' = clients w /\ users w' = users w.
Proof.
  induction n as [|n IH]; intros t w Hwf; [simpl; auto|].
  simpl. destruct (step_frame env t w Hwf) as (H1 & H2 & H3).
  destruct (step U G cfg env t w) as [t' w']. simpl in H1, H2, H3.
  destruct (IH t' w' H1) as (H4 & H5 & H6).
  split_and!; [exact H4|congruence|congruence].
Qed.

Lemma leave_frame t w :
  access_tokens (leave t w) = access_tokens w
  /\ clients (leave t w) = clients w /\ users (leave t w) = users w.
Proof. unfold leave. destruct (stage t); auto. Qed.

Lemma provider_refresh_refused env self w :
  (forall req, status (fetch env req) <> 200) ->
  IAccessToken.clientRole self = provider ->
  accessTokenFromRefresh U G cfg env self w = (Return None, w).
Proof.
  intros Hf Hrole. unfold accessTokenFromRefresh. rewrite Hrole.
  destruct (if isRefreshToken self then Some self else _) as [refreshToken|];
    [|reflexivity].
  destruct (clients w !! IAccessToken.client self) as [client|]; [|reflexivity].
  rewrite (proj2 (Z.eqb_neq _ _) (Hf _)). reflexivity.
Qed.

End ProviderFacts.

(** ** Refresh *)



(** The collection of the example is filed by [_id]. *)
Lemma wellKeyed_example :
  wellKeyed
    (access_tokens
       (Ex.world Ex.svc [Ex.refreshConsumer; Ex.bearerConsumer] 3%positive)).
Proof. apply (bool_decide_unpack _). vm_compute. exact I. Defined.


(** C5, as the specification words it, fails: in a provider-role refresh
    from the refresh token 1, answered with a new refresh token, the removal
    of the old record is the first write to reach the collection; the new
    access token 2 and the new refresh token 3 are saved after it. And when
    the lifetime that the upstream states ends beyond the range of dates, the
    access token 2 fails its validation and is never stored, while the old
    record is gone and the new refresh token 3 is stored. *)
Lemma refresh_removes_before_it_saves :
  let r := accessTokenFromRefresh Ex.grantsNothing Ex.noTokens Ex.config
             (Ex.env 1000 (Some "r1")) Ex.refreshProvider
             (Ex.world Ex.svc [Ex.refreshProvider] 2%positive) in
  let far := accessTokenFromRefresh Ex.grantsNothing Ex.noTokens Ex.config
               (Sample.farEnv 1000 2 0) Ex.refreshProvider
               (Ex.world Ex.svc [Ex.refreshProvider] 2%positive) in
  let settled := settle Ex.grantsNothing Ex.noTokens Ex.config
                   (Sample.farEnv 1000 2 0) far.2 in
  journal r.2 = [OpRemove 1%positive; OpSave 2%positive; OpSave 3%positive]
  /\ ~ persistedBeforeDeleted (journal r.2)
  /\ journal settled = [OpRemove 1%positive; OpSave 3%positive]
  /\ access_tokens settled !! 1%positive = None
  /\ access_tokens settled !! 2%positive = None
  /\ is_Some (access_tokens settled !! 3%positive).
Proof.
  assert (Hj : journal
                 (accessTokenFromRefresh Ex.grantsNothing Ex.noTokens Ex.config
                    (Ex.env 1000 (Some "r1")) Ex.refreshProvider
                    (Ex.world Ex.svc [Ex.refreshProvider] 2%positive)).2
               = [OpRemove 1%positive; OpSave 2%positive; OpSave 3%positive])
    by (vm_compute; reflexivity).
  cbv zeta. rewrite Hj. split; [reflexivity|]. split.
  - intros H.
    specialize (H 0%nat 1%nat 1%positive 2%positive eq_refl eq_refl). lia.
  - split; [vm_compute; reflexivity|].
    split; [vm_compute; reflexivity|].
    split; [vm_compute; reflexivity|].
    vm_compute. eexists. reflexivity.
Qed.

(** C5, amended. A provider-role refresh started from the refresh token
    itself, answered by the upstream with status 200 and a new refresh token.
    The save of the new access token is started first and not awaited; the
    removal of the old refresh record is the first write to reach the
    collection, and the new refresh token is saved after it: when the method
    returns the old record is gone and the new refresh token is stored,
    whether or not the new access token is. Once every save has run to its
    end, the collection holds the new refresh token and, when the lifetime
    that the upstream states ends within the range of dates, the new access
    token, linked to each other; its write has come after the removal,
    before or after the write of the new refresh token. When the lifetime
    ends beyond the range of dates the access token is never stored. An
    upstream answer other than 200 leaves everything as it was. *)
Theorem provider_refresh_replaces :
  (forall U G cfg env self w client resp rt,
     isRefreshToken self = true ->
     IAccessToken.clientRole self = provider ->
     clients w !! IAccessToken.client self = Some client ->
     IClient._id client = IAccessToken.client self ->
     (forall req, fetch env req = resp) ->
     status resp = 200 ->
     truthy (IFormalAccessToken.refresh_token (json resp)) = Some rt ->
     IAccessToken._id self <> nextId w ->
     IAccessToken._id self <> Pos.succ (nextId w) ->
     inFlight w = [] ->
     access_tokens w !! nextId w = None ->
     let s := IAccessToken._id self in
     let b := nextId w in
     let r := Pos.succ (nextId w) in
     let out := accessTokenFromRefresh U G cfg env self w in
     let after := settle U G cfg env out.2 in
     exists tok ref,
       out.1 = Return (Some tok)
       /\ (IAccessToken._id tok = b /\ isBearer tok = true
           /\ IAccessToken.token tok
              = IFormalAccessToken.access_token (json resp)
           /\ IAccessToken.linkedToken tok = Some r)
       /\ (isRefreshToken ref = true /\ IAccessToken.token ref = rt
           /\ IAccessToken.linkedToken ref = Some b)
       /\ (access_tokens out.2 !! s = None
           /\ access_tokens out.2 !! r = Some ref
           /\ (is_Some (access_tokens out.2 !! b)
               <-> lifetimeFits env (json resp) = true
                   /\ (2 <= beforeSave (schedule env)
                            + beforeReturn (schedule env))%nat)
           /\ exists rest,
                journal out.2 = (journal w ++ OpRemove s :: rest)%list
                /\ In (OpSave r) rest)
       /\ (inFlight after = []
           /\ access_tokens after !! s = None
           /\ access_tokens after !! r = Some ref
           /\ if lifetimeFits env (json resp)
              then (exists stored,
                      access_tokens after !! b = Some stored
                      /\ isBearer stored = true
                      /\ IAccessToken.token stored
                         = IFormalAccessToken.access_token (json resp)
                      /\ IAccessToken.linkedToken stored = Some r)
                   /\ (journal after
                       = (journal w ++ [OpRemove s; OpSave b;
                                        OpDeleteMany r b; OpSave r])%list
                       \/ journal after
                          = (journal w ++ [OpRemove s; OpSave b; OpSave r;
                                           OpDeleteMany r b])%list
                       \/ journal after
                          = (journal w ++ [OpRemove s; OpSave r; OpSave b;
                                           OpDeleteMany r b])%list)
              else access_tokens after !! b = None
                   /\ journal after
                      = (journal w ++ [OpRemove s; OpSave r])%list))
  /\ (forall U G cfg env self w,
        (forall req, status (fetch env req) <> 200) ->
        IAccessToken.clientRole self = provider ->
        accessTokenFromRefresh U G cfg env self w = (Return None, w)).
Proof.
  split.
  - intros U G cfg env self w client resp rt Hr Hrole Hc Hk Hf Hs Hrt Hn1 Hn2
      Hq Hfresh s b r out after.
    assert (Hold : (if isRefreshToken self then Some self
                    else match IAccessToken.linkedToken self with
                         | Some l => access_tokens w !! l
                         | None => None
                         end) = Some self)
      by (rewrite Hr; reflexivity).
    destruct (provider_rotation U G cfg env self w self client resp rt
                Hold Hrole Hc Hk Hf Hs Hrt Hn1 Hn2 Hq Hfresh)
      as (tok & ref & H1 & H2 & H3 & H4 & H5 & _).
    exists tok, ref. split; [exact H1|]. split; [exact H2|].
    split; [exact H3|]. split; [exact H4|exact H5].
  - intros U G cfg. apply provider_refresh_refused.
Qed.

(** The amended C5 at work: the refresh token 1 of the client svc, the
    upstream answering with the refresh token "r1" and a lifetime of one
    hour; the write of the new access token 2 lands between the removal and
    the write of the new refresh token 3. *)
Lemma provider_refresh_replaces_witness :
  exists tok ref,
    (accessTokenFromRefresh Ex.grantsNothing Ex.noTokens Ex.config
       (Ex.env 1000 (Some "r1")) Ex.refreshProvider
       (Ex.world Ex.svc [Ex.refreshProvider] 2%positive)).1
    = Return (Some tok)
    /\ IAccessToken._id tok = 2%positive
    /\ IAccessToken.linkedToken tok = Some 3%positive
    /\ IAccessToken.token ref = "r1"
    /\ IAccessToken.linkedToken ref = Some 2%positive
    /\ access_tokens
         (accessTokenFromRefresh Ex.grantsNothing Ex.noTokens Ex.config
            (Ex.env 1000 (Some "r1")) Ex.refreshProvider
            (Ex.world Ex.svc [Ex.refreshProvider] 2%positive)).2
       !! 1%positive = None
    /\ access_tokens
         (accessTokenFromRefresh Ex.grantsNothing Ex.noTokens Ex.config
            (Ex.env 1000 (Some "r1")) Ex.refreshProvider
            (Ex.world Ex.svc [Ex.refreshProvider] 2%positive)).2
       !! 3%positive = Some ref
    /\ is_Some
         (access_tokens
            (accessTokenFromRefresh Ex.grantsNothing Ex.noTokens Ex.config
               (Ex.env 1000 (Some "r1")) Ex.refreshProvider
               (Ex.world Ex.svc [Ex.refreshProvider] 2%positive)).2
          !! 2%positive).
Proof.
  destruct (proj1 provider_refresh_replaces Ex.grantsNothing Ex.noTokens
              Ex.config (Ex.env 1000 (Some "r1")) Ex.refreshProvider
              (Ex.world Ex.svc [Ex.refreshProvider] 2%positive)
              Ex.svc (Ex.upstream (Some "r1") 200 {| uri := ""; query := [] |})
              "r1")
    as (tok & ref & H1 & (H2 & _ & _ & H3) & (_ & H4 & H5)
        & (H6 & H7 & H8 & _) & _).
  - reflexivity.
  - reflexivity.
  - vm_compute. reflexivity.
  - reflexivity.
  - intros req. reflexivity.
  - reflexivity.
  - reflexivity.
  - discriminate.
  - discriminate.
  - reflexivity.
  - vm_compute. reflexivity.
  - exists tok, ref. split; [exact H1|]. split; [exact H2|].
    split; [exact H3|]. split; [exact H4|]. split; [exact H5|].
    split; [exact H6|]. split; [exact H7|].
    apply H8. split; [vm_compute; reflexivity|]. simpl. lia.
Defined.

(** C6: the code does not do what the claim says. A consumer-role refresh
    started from the bearer token 2, whose linkedToken is the refresh token 1,
    mints the bearer token 3 with linkedToken 2, the identifier of the token
    it was started from, not 1; the post-save hook then prunes the bearer
    tokens linked to 2, so the sibling 2 stays, still the bearer token linked
    to 1. Started from the refresh token itself the new token is linked to
    it, with scope, client and user copied. No upstream call is made in
    either case, and no save is left in flight: the result is the same
    whatever fetch answers and whatever the schedule. *)
Theorem consumer_refresh_links_to_self :
  (let r := accessTokenFromRefresh Ex.grantsNothing Ex.noTokens Ex.config
              (Ex.env 1000 None) Ex.bearerConsumer
              (Ex.world Ex.svc [Ex.refreshConsumer; Ex.bearerConsumer] 3%positive) in
   (exists tok, r.1 = Return (Some tok)
                /\ IAccessToken._id tok = 3%positive
                /\ IAccessToken.linkedToken tok = Some 2%positive
                /\ access_tokens r.2 !! 3%positive = Some tok)
   /\ access_tokens r.2 !! 2%positive = Some Ex.bearerConsumer
   /\ bearersLinkedTo 1%positive (access_tokens r.2)
      = {[ 2%positive := Ex.bearerConsumer ]})
  /\ (forall U G cfg env self w tok w',
        IAccessToken.clientRole self = consumer ->
        accessTokenFromRefresh U G cfg env self w = (Return (Some tok), w') ->
        IAccessToken.linkedToken tok = Some (IAccessToken._id self)
        /\ IAccessToken.scope tok = IAccessToken.scope self
        /\ IAccessToken.client tok = IAccessToken.client self
        /\ IAccessToken.user tok = IAccessToken.user self
        /\ isBearer tok = true
        /\ access_tokens w' !! IAccessToken._id tok = Some tok)
  /\ (forall U G cfg env f p self w,
        IAccessToken.clientRole self = consumer ->
        accessTokenFromRefresh U G cfg env self w
        = accessTokenFromRefresh U G cfg
            {| now := now env; nanoid := nanoid env; fetch := f;
               schedule := p |} self w).
Proof.
  split; [|split].
  - vm_compute. split; [|split; reflexivity].
    eexists. repeat split.
  - intros U G cfg env self w tok w' Hrole H.
    unfold accessTokenFromRefresh in H. rewrite Hrole in H.
    destruct (if isRefreshToken self then Some self else _) as [refreshToken|];
      [|discriminate].
    cbn [newObjectId] in H.
    match type of H with
    | context [save U G cfg env ?d ?w1] =>
        pose proof (pre_save_frame U G cfg env w1 d) as (n & sc & Hf);
        pose proof (pre_save_scope U G cfg env w1 d) as Hsc;
        pose proof (pre_save_id U G cfg env w1 d) as Hid;
        unfold save in H;
        destruct (bool_decide (IAccessToken.expiresAt d = Some NaN));
          [discriminate|];
        destruct (pre_save U G cfg env w1 d) as [[r|e] d'] eqn:Hp;
          [|discriminate]
    end.
    injection H as <- <-. simpl in Hf, Hid.
    assert (Hs : IAccessToken.scope d' = IAccessToken.scope self).
    { simpl in Hsc. unfold pre_save in Hp. simpl in Hp.
      destruct (clients w !! IAccessToken.client self) as [c|] eqn:Hc.
      - exact (Hsc c eq_refl).
      - discriminate Hp. }
    rewrite Hf in *. simpl in *. repeat split; try assumption.
    unfold post_save. simpl. unfold deleteMany.
    apply map_lookup_filter_Some. split; [apply lookup_insert_eq|].
    simpl. unfold siblingOf. simpl.
    rewrite (bool_decide_eq_true_2 (nextId w = nextId w)) by reflexivity.
    rewrite !andb_false_r. reflexivity.
  - intros U G cfg env f p self w Hrole.
    unfold accessTokenFromRefresh. rewrite Hrole. reflexivity.
Qed.

(** ** Expiry *)

(** C8, as the specification words it, fails: at time 5000 the token
    [Ex.expiredReader], whose expiresAt is 1000, is still authorized to do
    "read". *)
Lemma expired_token_is_authorized :
  expiredAt 5000 Ex.expiredReader = true
  /\ isAuthorizedToDo (E := ES.engine) Ex.expiredReader "read" = Return true.
Proof. split; vm_compute; reflexivity. Qed.

(** C8, amended. Nothing in the token code reads expiresAt. Neither
    definition of isAuthorizedToDo does: a token is authorized for a scope
    exactly as the same token with any other expiresAt, in the past or not.
    Nor does a refresh: accessTokenFromRefresh started from a token does what
    it does from the same token with any other expiresAt. *)
Theorem isAuthorizedToDo_ignores_expiresAt :
  (forall (E : RegExpEngine) this e requested,
     isAuthorizedToDo (IAccessToken.set_expiresAt e this) requested
     = isAuthorizedToDo this requested)
  /\ (forall this e scope,
        isAuthorizedToDo_first (IAccessToken.set_expiresAt e this) scope
        = isAuthorizedToDo_first this scope)
  /\ (forall U G cfg env self e w,
        accessTokenFromRefresh U G cfg env (IAccessToken.set_expiresAt e self) w
        = accessTokenFromRefresh U G cfg env self w).
Proof.
  split; [|split].
  - intros E this e requested. reflexivity.
  - intros this e scope. reflexivity.
  - intros U G cfg env self e w. unfold accessTokenFromRefresh.
    change (isRefreshToken (IAccessToken.set_expiresAt e self))
      with (isRefreshToken self).
    destruct (isRefreshToken self); reflexivity.
Qed.

(** ** The resolver middleware *)

(** C9. The middleware passes a request through exactly when its path
    begins with "/auth" or the resolver claims no location for the locator
    built from the effective scheme (the x-forwarded-proto header, else the
    protocol), the host and the path; passing through makes no call on the
    response and reaches no driver. A location is handed to getHttpResponse
    exactly for the other requests the resolver answers, and only then is
    anything written to the response. *)
Theorem ResolverMiddleware_passes_through :
  forall (resolve : string -> Completion (option Web.ILocation))
         (getDriver : Web.ILocation -> Completion Web.Driver)
         (first : IUser.t -> string -> Completion ScopeAccessTokenPair)
         (req : Web.Req),
    let r := Web.ResolverMiddleware resolve getDriver first req in
    (r.1 = Web.PassedThrough
     <-> JsString.begins_with "/auth" (Web.originalUrl req)
         \/ resolve (Web.hrefOf req) = Return None)
    /\ (r.1 = Web.PassedThrough ->
        Web.sent r.2 = [] /\ Web.dispatched r.2 = None)
    /\ (forall location,
          Web.dispatched r.2 = Some location
          <-> ~ JsString.begins_with "/auth" (Web.originalUrl req)
              /\ resolve (Web.hrefOf req) = Return (Some location))
    /\ (Web.sent r.2 <> [] -> exists location, Web.dispatched r.2 = Some location)
    /\ Web.hrefOf (Ex.request "/files/a.txt") = "https://attic.local/files/a.txt"
    /\ Web.hrefOf
         {| Web.originalUrl := "/files/a.txt";
            Web.reqHeaders := {[ "x-forwarded-proto" := "http" ]};
            Web.protocol := "https"; Web.host := Some "attic.local";
            Web.reqMethod := "GET"; Web.reqBody := None;
            Web.scopeContext := None |}
       = "http://attic.local/files/a.txt".
Proof.
  intros resolve getDriver first req r. subst r.
  pose proof (substr0_begins_with "/auth" (Web.originalUrl req)) as Hb.
  simpl String.length in Hb.
  unfold Web.ResolverMiddleware, Web.asyncMiddleware, Web.handler.
  destruct (String.eqb_spec (JsString.substr0 5 (Web.originalUrl req)) "/auth")
    as [Ha|Ha].
  - apply Hb in Ha. clear Hb. simpl. split_and!;
      first [vm_compute; reflexivity
            | solve [intuition (try congruence; try discriminate; eauto)]].
  - assert (Hn : ~ JsString.begins_with "/auth" (Web.originalUrl req))
      by (intros H; apply Hb in H; contradiction).
    clear Hb Ha.
    destruct (resolve (Web.hrefOf req)) as [[location|]|e] eqn:Hres;
      [destruct (Web.getHttpResponse getDriver first req location)
         as [[response|]|e']|..];
      simpl; split_and!;
      first [vm_compute; reflexivity
            | solve [intuition (try congruence; try discriminate; eauto)]
            | solve [split; [intros [=]; subst; auto
                            | intros [_ [=]]; subst; auto]]].
Qed.

(** C9 at work: a request under "/auth" and a request the resolver does not
    claim pass through and touch nothing; a request under "/files" is
    dispatched and answered. *)
Lemma ResolverMiddleware_passes_through_witness :
  (Web.ResolverMiddleware Ex.resolver Ex.okDriver Ex.anyToken
     (Ex.request "/auth/login")).1 = Web.PassedThrough
  /\ (Web.ResolverMiddleware Ex.resolver Ex.okDriver Ex.anyToken
        (Ex.request "/other")).1 = Web.PassedThrough
  /\ Web.ResolverMiddleware Ex.resolver Ex.okDriver Ex.anyToken
       (Ex.request "/files/a.txt")
     = (Web.Answered,
        {| Web.completion := Return false;
           Web.sent := [Web.ResStatus 200; Web.ResSend "ok"; Web.ResEnd];
           Web.dispatched :=
             Some (Ex.location "https://attic.local/files/a.txt") |}).
Proof.
  split; [|split].
  - apply (proj1 (ResolverMiddleware_passes_through Ex.resolver Ex.okDriver
                    Ex.anyToken (Ex.request "/auth/login"))).
    left. exists "/login". reflexivity.
  - apply (proj1 (ResolverMiddleware_passes_through Ex.resolver Ex.okDriver
                    Ex.anyToken (Ex.request "/other"))).
    right. vm_compute. reflexivity.
  - vm_compute. reflexivity.
Defined.

(** * Further properties *)

(** ** Partition of requested scopes *)

Lemma getValidInvalidScopes_filters U scopes client user :
  validScopes (getValidInvalidScopes U scopes client user)
  = List.filter (fun s => nonEmpty s && granted U client user s) scopes
  /\ unauthorizedScopes (getValidInvalidScopes U scopes client user)
     = List.filter (fun s => nonEmpty s && negb (granted U client user s)) scopes.
Proof.
  unfold nonEmpty, granted.
  induction scopes as [|s l [IHv IHu]]; [split; reflexivity|]. simpl.
  destruct (String.eqb s ""); simpl; [split; assumption|].
  destruct (U (IUser.scope user) s || U (IClient.scope client) s); simpl;
    rewrite IHv, IHu; split; reflexivity.
Qed.

(** X1. getValidInvalidScopes sorts every requested scope that is not the
    empty string into exactly one of its two lists, keeping order and
    repetitions: the valid scopes are the requested scopes that are not
    empty and that the user's or the client's grant authorizes, in the order
    of the request, the unauthorized scopes the other non-empty ones, in the
    order of the request. So a scope is valid iff it was requested, is not
    empty and is authorized, unauthorized iff it was requested, is not empty
    and is not; no scope is in both lists, and together the lists are a
    rearrangement of the non-empty requests. *)
Theorem getValidInvalidScopes_partitions :
  forall U scopes client user,
    let r := getValidInvalidScopes U scopes client user in
    validScopes r
    = List.filter (fun s => nonEmpty s && granted U client user s) scopes
    /\ unauthorizedScopes r
       = List.filter (fun s => nonEmpty s && negb (granted U client user s))
           scopes
    /\ (forall s, In s (validScopes r)
                  <-> In s scopes /\ s <> "" /\ granted U client user s = true)
    /\ (forall s, In s (unauthorizedScopes r)
                  <-> In s scopes /\ s <> "" /\ granted U client user s = false)
    /\ (forall s, In s (validScopes r) -> ~ In s (unauthorizedScopes r))
    /\ Permutation (validScopes r ++ unauthorizedScopes r)
         (List.filter nonEmpty scopes).
Proof.
  intros U scopes client user r. subst r.
  destruct (getValidInvalidScopes_filters U scopes client user) as [Hv Hu].
  split; [exact Hv|]. split; [exact Hu|]. rewrite Hv, Hu. clear Hv Hu.
  assert (Hne : forall s, nonEmpty s = true <-> s <> "").
  { intros s. unfold nonEmpty. rewrite negb_true_iff. apply String.eqb_neq. }
  split; [|split; [|split]].
  - intros s. rewrite filter_In, andb_true_iff, Hne. tauto.
  - intros s. rewrite filter_In, andb_true_iff, Hne, negb_true_iff. tauto.
  - intros s. rewrite !filter_In, !andb_true_iff, negb_true_iff.
    intros [_ [_ H1]] [_ [_ H2]]. congruence.
  - induction scopes as [|s l IH]; [constructor|]. simpl.
    destruct (nonEmpty s); simpl; [|exact IH].
    destruct (granted U client user s); simpl.
    + constructor. exact IH.
    + etransitivity; [symmetry; apply Permutation_middle|].
      constructor. exact IH.
Qed.

(** X2. checkScopePermission returns exactly when every requested scope is
    empty or authorized, and then returns the non-empty requested scopes in
    order; otherwise it throws NotAuthorizedToUseScopesError carrying the
    non-empty requested scopes that are not authorized, in order. *)
Theorem checkScopePermission_returns_or_names_the_scopes :
  forall U scopes client user,
    (Forall (fun s => s = "" \/ granted U client user s = true) scopes
     <-> checkScopePermission U scopes client user
         = Return (List.filter nonEmpty scopes))
    /\ (~ Forall (fun s => s = "" \/ granted U client user s = true) scopes
        <-> checkScopePermission U scopes client user
            = Throw (NotAuthorizedToUseScopesError
                       (List.filter
                          (fun s => nonEmpty s && negb (granted U client user s))
                          scopes))
            /\ List.filter
                 (fun s => nonEmpty s && negb (granted U client user s)) scopes
               <> []).
Proof.
  intros U scopes client user. unfold checkScopePermission.
  destruct (getValidInvalidScopes_filters U scopes client user) as [-> ->].
  assert (Hv : Forall (fun s => s = "" \/ granted U client user s = true) scopes ->
               List.filter (fun s => nonEmpty s && granted U client user s) scopes
               = List.filter nonEmpty scopes).
  { induction 1 as [|s l [->|Hg] _ IH]; simpl; [reflexivity|exact IH|].
    rewrite Hg, andb_true_r, IH. reflexivity. }
  assert (Hall : Forall (fun s => s = "" \/ granted U client user s = true) scopes
                 <-> List.filter
                       (fun s => nonEmpty s && negb (granted U client user s))
                       scopes = []).
  { clear Hv. induction scopes as [|s l IH]; simpl.
    - split; [reflexivity|constructor].
    - unfold nonEmpty at 1. destruct (String.eqb_spec s "") as [->|Hs]; simpl.
      + rewrite <- IH. split; [intros H; inversion H; assumption|].
        intros H. constructor; [left; reflexivity|exact H].
      + destruct (granted U client user s) eqn:Hg; simpl.
        * rewrite <- IH. split; [intros H; inversion H; assumption|].
          intros H. constructor; [right; exact Hg|exact H].
        * split; [|discriminate]. intros H.
          inversion H as [|? ? [H1|H1] _]; subst; congruence. }
  rewrite Hall.
  destruct (List.filter (fun s => nonEmpty s && negb (granted U client user s)) scopes)
    as [|u us] eqn:Hu.
  - split.
    + split; [|reflexivity]. intros _. f_equal. apply Hv, Hall. reflexivity.
    + split; [intros H; destruct H; reflexivity|intros [[=] _]].
  - split.
    + split; discriminate.
    + split; [intros _; split; [reflexivity|discriminate]|discriminate].
Qed.

(** ** The post-save hook *)

Lemma deleteMany_idempotent p (m : gmap ObjectId IAccessToken.t) :
  deleteMany p (deleteMany p m) = deleteMany p m.
Proof.
  apply map_eq. intros i. apply option_eq. intros d.
  rewrite !deleteMany_lookup. tauto.
Qed.

(** X3. The post-save hook deletes exactly the other bearer tokens that
    share the saved bearer token's linkedToken: a document survives it iff it
    was there and is not such a sibling, so the saved document, every refresh
    token and every bearer token with another linkedToken stay. For a
    document that is not a bearer token or has no linkedToken the hook
    changes nothing. Running the hook twice leaves the collection as running
    it once. *)
Theorem post_save_prunes_only_siblings :
  forall doc w,
    (forall l i d,
       isBearer doc = true ->
       IAccessToken.linkedToken doc = Some l ->
       (access_tokens (post_save doc w) !! i = Some d
        <-> access_tokens w !! i = Some d
            /\ ~ (isBearer d = true
                  /\ IAccessToken.linkedToken d = Some l
                  /\ IAccessToken._id d <> IAccessToken._id doc)))
    /\ (isBearer doc = false \/ IAccessToken.linkedToken doc = None ->
        post_save doc w = w)
    /\ access_tokens (post_save doc (post_save doc w))
       = access_tokens (post_save doc w).
Proof.
  intros doc w. split; [|split].
  - intros l i d Hb Hl. unfold post_save. rewrite Hl, Hb. simpl.
    rewrite deleteMany_lookup. unfold siblingOf.
    destruct (isBearer d); simpl; [|intuition congruence].
    destruct (decide (IAccessToken.linkedToken d = Some l)) as [Hd|Hd].
    + rewrite (bool_decide_eq_true_2 _ Hd). simpl.
      destruct (decide (IAccessToken._id d = IAccessToken._id doc)) as [He|He].
      * rewrite (bool_decide_eq_true_2 _ He). simpl. intuition congruence.
      * rewrite (bool_decide_eq_false_2 _ He). simpl. intuition congruence.
    + rewrite (bool_decide_eq_false_2 _ Hd). simpl. intuition congruence.
  - intros [Hb|Hl]; unfold post_save.
    + rewrite Hb. destruct (IAccessToken.linkedToken doc); reflexivity.
    + rewrite Hl. reflexivity.
  - unfold post_save. destruct (IAccessToken.linkedToken doc) as [l|]; [|reflexivity].
    destruct (isBearer doc); [|reflexivity]. simpl. apply deleteMany_idempotent.
Qed.

(** ** More on the pre-save hook *)

(** X4. When the owning client is not in the database the pre-save hook
    throws a TypeError without touching the document, and the save writes
    nothing: the world is left as it was. *)
Theorem save_without_client_throws :
  forall U G cfg env doc w,
    clients w !! IAccessToken.client doc = None ->
    IAccessToken.expiresAt doc <> Some NaN ->
    pre_save U G cfg env w doc = (Throw TypeError, doc)
    /\ save U G cfg env doc w = (Throw TypeError, doc, w).
Proof.
  intros U G cfg env doc w Hc He.
  assert (Hp : pre_save U G cfg env w doc = (Throw TypeError, doc)).
  { unfold pre_save. rewrite Hc. reflexivity. }
  split; [exact Hp|]. unfold save.
  rewrite (bool_decide_eq_false_2 _ He), Hp. reflexivity.
Qed.

Lemma pre_save_clientRole U G cfg env w this :
  IAccessToken.clientRole (pre_save U G cfg env w this).2
  = IAccessToken.clientRole this.
Proof. destruct (pre_save_frame U G cfg env w this) as (n & s & ->). reflexivity. Qed.

Lemma pre_save_client U G cfg env w this :
  IAccessToken.client (pre_save U G cfg env w this).2
  = IAccessToken.client this.
Proof. destruct (pre_save_frame U G cfg env w this) as (n & s & ->). reflexivity. Qed.

(** X5. The pre-save hook namespaces the scope of a provider-role token on
    every save, not only on the first: run on its own output, under the same
    client, it prefixes the client's name a second time. *)
Theorem pre_save_prefixes_again :
  forall U G cfg env1 env2 w1 w2 this client,
    IAccessToken.clientRole this = provider ->
    clients w1 !! IAccessToken.client this = Some client ->
    clients w2 !! IAccessToken.client this = Some client ->
    let prefix := fun s => IClient.name client +:+ "." +:+ s in
    IAccessToken.scope
      (pre_save U G cfg env2 w2 (pre_save U G cfg env1 w1 this).2).2
    = map prefix (map prefix (IAccessToken.scope this)).
Proof.
  intros U G cfg env1 env2 w1 w2 this client Hr H1 H2 prefix.
  rewrite (pre_save_scope U G cfg env2 w2 _ client)
    by (rewrite pre_save_client; exact H2).
  rewrite pre_save_clientRole, (pre_save_scope U G cfg env1 w1 this client H1).
  rewrite (bool_decide_eq_true_2 _ Hr). reflexivity.
Qed.

Lemma forAwaitTokens_returns yielded :
  returned (forAwaitTokens yielded) <-> Forall carriesToken yielded.
Proof.
  unfold carriesToken. induction yielded as [|[[s [t|]]|] l IH]; simpl.
  - split; [intros _; constructor|intros _; exact I].
  - rewrite IH. split; [intros H; constructor; [exists s, t; reflexivity|exact H]|].
    intros H. inversion H. assumption.
  - split; [intros []|]. intros H.
    inversion H as [|? ? (s' & t' & Heq) _]. discriminate Heq.
  - split; [intros []|]. intros H.
    inversion H as [|? ? (s' & t' & Heq) _]. discriminate Heq.
Qed.

Lemma forAwaitTokens_throws yielded e :
  forAwaitTokens yielded = Throw e ->
  exists s, e = CouldNotFindTokenForScopeError s.
Proof.
  induction yielded as [|[[s [t|]]|] l IH]; simpl; intros H;
    first [discriminate | injection H as <-; eauto | auto].
Qed.

(** X6. The user check of the pre-save hook, when the hook reaches it (a
    consumer-role token with a user, past the two early returns): the hook
    returns iff every entry that the user's generator yields for the
    unauthorized scopes carries a token, and what it throws otherwise is a
    CouldNotFindTokenForScopeError. *)
Theorem pre_save_user_check :
  forall U G cfg env w this client uid user,
    clients w !! IAccessToken.client this = Some client ->
    reachesUserCheck client this ->
    IAccessToken.clientRole this = consumer ->
    IAccessToken.user this = Some uid ->
    users w !! uid = Some user ->
    let asked :=
      unauthorizedScopes
        (getValidInvalidScopes U (IAccessToken.scope this) client user) in
    (returned (pre_save U G cfg env w this).1
     <-> Forall carriesToken (G w user asked))
    /\ (forall e, (pre_save U G cfg env w this).1 = Throw e ->
                  exists s, e = CouldNotFindTokenForScopeError s).
Proof.
  intros U G cfg env w this client uid user Hc [Hb Hr] Hrole Hu Hus asked.
  assert (Hp : (pre_save U G cfg env w this).1 = forAwaitTokens (G w user asked)).
  { unfold pre_save. rewrite Hc.
    rewrite (bool_decide_eq_false_2 (_ = provider))
      by (simpl; rewrite Hrole; discriminate).
    simpl andb. cbv iota.
    change (isBearer (IAccessToken.set_clientName _ this)) with (isBearer this).
    change (isRefreshToken (IAccessToken.set_clientName _ this))
      with (isRefreshToken this).
    destruct (isBearer this) eqn:Hbe;
      [rewrite (Hb eq_refl)|]; simpl;
      (destruct (isRefreshToken this) eqn:Hre; [rewrite (Hr eq_refl)|]); simpl;
      rewrite Hu, Hus, Hrole; reflexivity. }
  rewrite Hp. split; [apply forAwaitTokens_returns|apply forAwaitTokens_throws].
Qed.

(** ** More on the scope matcher *)

(** X7. On granted scopes without syntax characters the second
    isAuthorizedToDo authorizes whatever the first one did: a requested
    scope that is a member of the token's scope list is authorized. *)
Theorem isAuthorizedToDo_extends_membership :
  forall (this : IAccessToken.t) (requested : string),
    Forall plainScope (IAccessToken.scope this) ->
    isAuthorizedToDo_first this (ScopeString requested) = true ->
    isAuthorizedToDo (E := ES.engine) this requested = Return true.
Proof.
  intros this requested Hp H.
  apply isAuthorizedToDo_true. split; [apply compiles_plain, Hp|].
  apply (someEntryMatches_plain _ _ Hp).
  unfold isAuthorizedToDo_first, JsString.includes in H.
  apply existsb_exists in H as (x & Hin & Hx). apply String.eqb_eq in Hx. subst x.
  exists requested. split; [apply list_elem_of_In; exact Hin|].
  exists "", "". rewrite append_empty_r. reflexivity.
Qed.

(** X8. A granted scope that is the empty string, or the single character
    '/', compiles to the empty pattern: a token holding one authorizes every
    requested scope, provided its other granted scopes compile. *)
Theorem empty_scope_authorizes_everything :
  forall (this : IAccessToken.t) (requested : string),
    compiles (E := ES.engine) (IAccessToken.scope this) ->
    In "" (IAccessToken.scope this) \/ In "/" (IAccessToken.scope this) ->
    isAuthorizedToDo (E := ES.engine) this requested = Return true.
Proof.
  intros this requested Hc Hin. apply isAuthorizedToDo_true. split; [exact Hc|].
  assert (Ht : RegExp_test (RegExpEngine := ES.engine)
                 {| ES.source := ES.literal ""; ES.flags := ES.noFlags |}
                 requested = true).
  { apply ESFacts.test_literal. exists "", requested. reflexivity. }
  destruct Hin as [Hin|Hin]; apply list_elem_of_In in Hin.
  - exists "". eexists. split; [exact Hin|]. split; [|exact Ht].
    vm_compute. reflexivity.
  - exists "/". eexists. split; [exact Hin|]. split; [|exact Ht].
    vm_compute. reflexivity.
Qed.

(** ** Building and reading back the wire format *)

(** X9. fromFormalToken saves nothing: the collection and the journal are
    as before. With a refresh_token that is not empty it builds a bearer
    token and a refresh token with two distinct new identifiers, each
    linked to the other, with the same scope, user, client and role, the
    refresh token without expiresAt. Without one, or with the empty string,
    it builds the bearer token alone, without linkedToken. *)
Theorem fromFormalToken_builds_a_linked_pair :
  forall env ft user client role w,
    let r := fromFormalToken env ft user client role w in
    access_tokens r.2 = access_tokens w
    /\ journal r.2 = journal w
    /\ isBearer r.1.1 = true
    /\ IAccessToken._id r.1.1 = nextId w
    /\ IAccessToken.token r.1.1 = IFormalAccessToken.access_token ft
    /\ match r.1.2 with
       | Some refresh =>
           truthy (IFormalAccessToken.refresh_token ft)
           = Some (IAccessToken.token refresh)
           /\ isRefreshToken refresh = true
           /\ IAccessToken._id refresh <> IAccessToken._id r.1.1
           /\ IAccessToken.linkedToken r.1.1 = Some (IAccessToken._id refresh)
           /\ IAccessToken.linkedToken refresh = Some (IAccessToken._id r.1.1)
           /\ IAccessToken.scope refresh = IAccessToken.scope r.1.1
           /\ IAccessToken.user refresh = IAccessToken.user r.1.1
           /\ IAccessToken.client refresh = IAccessToken.client r.1.1
           /\ IAccessToken.clientRole refresh = IAccessToken.clientRole r.1.1
           /\ IAccessToken.expiresAt refresh = None
           /\ nextId r.2 = Pos.succ (Pos.succ (nextId w))
       | None =>
           truthy (IFormalAccessToken.refresh_token ft) = None
           /\ IAccessToken.linkedToken r.1.1 = None
           /\ nextId r.2 = Pos.succ (nextId w)
       end.
Proof.
  intros env ft user client role w r. subst r. unfold fromFormalToken.
  destruct (truthy (IFormalAccessToken.refresh_token ft)) as [rt|]; simpl;
    repeat split; try reflexivity.
  intros H. symmetry in H. exact (Pos.succ_discr _ H).
Qed.

Lemma join_split c s :
  JsString.join (String c "") (JsString.split c s) = s.
Proof.
  induction s as [|a s IH]; [reflexivity|]. simpl.
  destruct (Ascii.eqb_spec a c) as [->|Hne].
  - destruct (JsString.split c s) as [|h t] eqn:Hs.
    + destruct s; simpl in Hs; [discriminate|].
      destruct (Ascii.eqb _ c); [discriminate|].
      destruct (JsString.split c s); discriminate.
    + change (JsString.join (String c "") ("" :: h :: t))
        with ("" +:+ String c "" +:+ JsString.join (String c "") (h :: t)).
      rewrite IH. reflexivity.
  - destruct (JsString.split c s) as [|h t] eqn:Hs.
    + destruct s; simpl in Hs; [discriminate|].
      destruct (Ascii.eqb _ c); [discriminate|].
      destruct (JsString.split c s); discriminate.
    + rewrite <- IH. destruct t as [|h' t]; reflexivity.
Qed.

Lemma roundSeconds_whole n : roundSeconds (n * 1000) = n.
Proof.
  unfold roundSeconds. rewrite Z.add_comm, Z.div_add by lia. reflexivity.
Qed.

Section WireFacts.
Context {E : RegExpEngine}.

Lemma formalScope_other_role (this : IAccessToken.t) :
  IAccessToken.clientRole this <> provider ->
  formalScope this = Return (IAccessToken.scope this).
Proof.
  intros Hr. unfold formalScope.
  destruct (decide (IAccessToken.clientRole this = provider)); [contradiction|].
  reflexivity.
Qed.

End WireFacts.

(** X10. Round trip of the wire format for a role other than provider:
    the bearer token that fromFormalToken builds, read back by toFormalToken
    at the same instant in a collection that holds the refresh token built
    with it (if any), gives back the access token, the refresh token (none
    for a missing or empty one), the scope string (the empty string for a
    missing one), the type bearer, and the lifetime in seconds when it ends
    within the range of dates (none for a missing or zero one, and none for
    one that ends beyond the range). *)
Theorem toFormalToken_reads_back :
  forall (E : RegExpEngine) env ft user client role w w',
    role <> provider ->
    let r := fromFormalToken env ft user client role w in
    (forall refresh, r.1.2 = Some refresh ->
       access_tokens w' !! IAccessToken._id refresh = Some refresh) ->
    toFormalToken env (QueryDocument r.1.1) w'
    = Return (Some
        {| Formal.access_token := Some (IFormalAccessToken.access_token ft);
           Formal.refresh_token := truthy (IFormalAccessToken.refresh_token ft);
           Formal.scope := default "" (IFormalAccessToken.scope ft);
           Formal.expires_in :=
             match IFormalAccessToken.expires_in ft with
             | Some 0 | None => None
             | Some n => if lifetimeFits env ft then Some n else None
             end;
           Formal.token_type := Some Bearer |}).
Proof.
  intros E env ft user client role w w' Hrole r Hstored. subst r.
  unfold toFormalToken.
  rewrite formalScope_other_role.
  2:{ unfold fromFormalToken.
      destruct (truthy (IFormalAccessToken.refresh_token ft)); exact Hrole. }
  cbn [mbind Completion_bind].
  assert (Hscope : JsString.join " "
                     (IAccessToken.scope (fromFormalToken env ft user client role w).1.1)
                   = default "" (IFormalAccessToken.scope ft)).
  { unfold fromFormalToken.
    assert (Hs : JsString.join " "
                   match truthy (IFormalAccessToken.scope ft) with
                   | Some s => JsString.split " " s
                   | None => []
                   end = default "" (IFormalAccessToken.scope ft)).
    { destruct (IFormalAccessToken.scope ft) as [[|c s]|]; simpl truthy;
        [reflexivity|apply join_split|reflexivity]. }
    destruct (truthy (IFormalAccessToken.refresh_token ft)); exact Hs. }
  assert (Hexp : (fun e => roundSeconds (e - now env))
                   <$> getTime (IAccessToken.expiresAt
                                  (fromFormalToken env ft user client role w).1.1)
                 = match IFormalAccessToken.expires_in ft with
                   | Some 0 | None => None
                   | Some n => if lifetimeFits env ft then Some n else None
                   end).
  { assert (He : forall n, roundSeconds (now env + n * 1000 - now env) = n).
    { intros n. replace (now env + n * 1000 - now env) with (n * 1000) by lia.
      apply roundSeconds_whole. }
    assert (Hx : IAccessToken.expiresAt
                   (fromFormalToken env ft user client role w).1.1
                 = match IFormalAccessToken.expires_in ft with
                   | Some 0 | None => None
                   | Some n => Some (castDate (now env + n * 1000))
                   end).
    { unfold fromFormalToken.
      destruct (truthy (IFormalAccessToken.refresh_token ft)); reflexivity. }
    rewrite Hx. unfold lifetimeFits, castDate.
    destruct (IFormalAccessToken.expires_in ft) as [[|p|p]|];
      try reflexivity;
      destruct (Z.abs _ <=? maxTime);
      cbn [getTime fmap option_fmap option_map]; rewrite ?He; reflexivity. }
  rewrite Hscope, Hexp. clear Hscope Hexp.
  revert Hstored. unfold fromFormalToken.
  destruct (truthy (IFormalAccessToken.refresh_token ft)) as [rt|];
    cbn [newObjectId fst snd]; intros Hstored.
  - specialize (Hstored _ eq_refl). cbn in Hstored. cbn.
    rewrite Hstored. reflexivity.
  - reflexivity.
Qed.

(** X11. toFormalToken on both halves of a stored pair: for a token that
    is not a refresh token and a refresh token, each stored under its
    identifier and linked to the other, the two readings name the same
    access token and the same refresh token; a reading by the string form of
    an identifier is the reading of the stored document, and the reading of
    an identifier that is not stored is null. *)
Theorem toFormalToken_reads_both_halves :
  forall (E : RegExpEngine) env w,
    (forall a r fa fr,
       isRefreshToken a = false ->
       isRefreshToken r = true ->
       IAccessToken.linkedToken a = Some (IAccessToken._id r) ->
       IAccessToken.linkedToken r = Some (IAccessToken._id a) ->
       access_tokens w !! IAccessToken._id a = Some a ->
       access_tokens w !! IAccessToken._id r = Some r ->
       toFormalToken env (QueryDocument a) w = Return (Some fa) ->
       toFormalToken env (QueryDocument r) w = Return (Some fr) ->
       Formal.access_token fa = Some (IAccessToken.token a)
       /\ Formal.access_token fr = Some (IAccessToken.token a)
       /\ Formal.refresh_token fa = Some (IAccessToken.token r)
       /\ Formal.refresh_token fr = Some (IAccessToken.token r))
    /\ (forall i d, access_tokens w !! i = Some d ->
          toFormalToken env (QueryString i) w
          = toFormalToken env (QueryDocument d) w)
    /\ (forall i, access_tokens w !! i = None ->
          toFormalToken env (QueryString i) w = Return None).
Proof.
  intros E env w. split; [|split].
  - intros a r fa fr Ha Hr Hla Hlr Hsa Hsr Hfa Hfr.
    unfold toFormalToken in Hfa, Hfr.
    rewrite Ha, Hla in Hfa. rewrite Hr, Hlr in Hfr.
    simpl in Hfa, Hfr. rewrite Hsr in Hfa. rewrite Hsa in Hfr.
    destruct (formalScope a); [|discriminate].
    destruct (formalScope r); [|discriminate].
    simpl in Hfa, Hfr. injection Hfa as <-. injection Hfr as <-.
    repeat split.
  - intros i d Hd. unfold toFormalToken. rewrite Hd. reflexivity.
  - intros i Hd. unfold toFormalToken. rewrite Hd. reflexivity.
Qed.

(** X12. The expires_in that toFormalToken reports is the nearest whole
    number of seconds to the time left: it is at most half a second away
    from it (negative once the token has expired), and missing exactly when
    the token has no expiresAt. *)
Theorem toFormalToken_rounds_the_time_left :
  forall (E : RegExpEngine) env d w f,
    toFormalToken env (QueryDocument d) w = Return (Some f) ->
    match IAccessToken.expiresAt d with
    | Some (Num e) =>
        exists s, Formal.expires_in f = Some s
                  /\ -500 < 1000 * s - (e - now env) <= 500
    | _ => Formal.expires_in f = None
    end.
Proof.
  intros E env d w f H. unfold toFormalToken in H.
  destruct (formalScope d); [|discriminate]. simpl in H. injection H as <-.
  simpl. destruct (IAccessToken.expiresAt d) as [[e|]|]; simpl; try reflexivity.
  eexists. split; [reflexivity|]. unfold roundSeconds.
  pose proof (Z.div_mod (e - now env + 500) 1000 ltac:(lia)) as Hdm.
  pose proof (Z.mod_pos_bound (e - now env + 500) 1000 ltac:(lia)) as Hb.
  lia.
Qed.

(** ** More on refresh *)

(** X13. accessTokenFromRefresh returns null and leaves the world as it
    was when no refresh token can be resolved: the token is not a refresh
    token and either has no linkedToken or links to a record that is not in
    the collection; and also when the role is neither provider nor
    consumer, or the role is provider and the client is not in the
    database. *)
Theorem accessTokenFromRefresh_null :
  forall U G cfg env self w,
    (isRefreshToken self = false ->
     IAccessToken.linkedToken self ≫= (fun l => access_tokens w !! l) = None ->
     accessTokenFromRefresh U G cfg env self w = (Return None, w))
    /\ (forall name, IAccessToken.clientRole self = otherRole name ->
          accessTokenFromRefresh U G cfg env self w = (Return None, w))
    /\ (IAccessToken.clientRole self = provider ->
        clients w !! IAccessToken.client self = None ->
        accessTokenFromRefresh U G cfg env self w = (Return None, w)).
Proof.
  intros U G cfg env self w. split; [|split].
  - intros Hr Hl. unfold accessTokenFromRefresh. rewrite Hr.
    destruct (IAccessToken.linkedToken self) as [l|]; simpl in Hl;
      [rewrite Hl|]; reflexivity.
  - intros name Hrole. unfold accessTokenFromRefresh. rewrite Hrole.
    destruct (if isRefreshToken self then _ else _); reflexivity.
  - intros Hrole Hc. unfold accessTokenFromRefresh. rewrite Hrole, Hc.
    destruct (if isRefreshToken self then _ else _); reflexivity.
Qed.

Section MoreRefresh.
Variable U : list string -> string -> bool.
Variable G : World -> IUser.t -> list string -> list ScopeAccessTokenPair.
Variable cfg : IConfig.t.

(** X14. A provider-role refresh that the upstream answers with status 200
    but without a new refresh token (or with an empty one) removes nothing
    and, when it returns, has written nothing: the collection is as it was,
    and the save of the bearer token it returns, a token without
    linkedToken, is still in flight. Once that save has run to its end the
    token is stored under the next identifier, beside everything the
    collection held, when the lifetime that the upstream states ends within
    the range of dates; when it ends beyond, the token fails its validation
    and the collection stays as it was. *)
Theorem provider_refresh_without_rotation env self w old client resp :
  (if isRefreshToken self then Some self
   else match IAccessToken.linkedToken self with
        | Some l => access_tokens w !! l
        | None => None
        end) = Some old ->
  IAccessToken.clientRole self = provider ->
  clients w !! IAccessToken.client self = Some client ->
  IClient._id client = IAccessToken.client self ->
  (forall req, fetch env req = resp) ->
  status resp = 200 ->
  truthy (IFormalAccessToken.refresh_token (json resp)) = None ->
  inFlight w = [] ->
  let out := accessTokenFromRefresh U G cfg env self w in
  let after := settle U G cfg env out.2 in
  exists tok,
    out.1 = Return (Some tok)
    /\ (IAccessToken._id tok = nextId w /\ isBearer tok = true
        /\ IAccessToken.token tok = IFormalAccessToken.access_token (json resp)
        /\ IAccessToken.linkedToken tok = None)
    /\ (access_tokens out.2 = access_tokens w
        /\ journal out.2 = journal w
        /\ inFlight out.2 = [{| pending := tok; stage := Started |}])
    /\ inFlight after = []
    /\ if lifetimeFits env (json resp)
       then exists stored,
              access_tokens after = <[nextId w := stored]> (access_tokens w)
              /\ journal after = (journal w ++ [OpSave (nextId w)])%list
              /\ isBearer stored = true
              /\ IAccessToken.token stored = IAccessToken.token tok
              /\ IAccessToken.linkedToken stored = None
       else access_tokens after = access_tokens w
            /\ journal after = journal w.
Proof.
  intros Hold Hrole Hc Hk Hf Hs Hrt Hq out after.
  assert (Hc' : clients w !! IClient._id client = Some client)
    by (rewrite Hk; exact Hc).
  pose proof (lifetimeFits_expiresAt env (json resp)
                (IUser._id <$> (IAccessToken.user self ≫= (fun u => users w !! u)))
                client provider w) as Hfit.
  assert (Hout : out = accessTokenFromRefresh U G cfg env self w) by reflexivity.
  clearbody out.
  unfold accessTokenFromRefresh in Hout.
  rewrite Hold, Hrole, Hc, Hf, Hs in Hout. simpl negb in Hout. cbv iota in Hout.
  revert Hfit Hout. unfold fromFormalToken. rewrite Hrt.
  cbn [newObjectId nextId fst snd].
  match goal with
  | |- context [leave {| pending := ?d; stage := Started |} _] => set (d1 := d)
  end.
  intros Hfit Hout.
  cbv beta iota zeta in Hout.
  cbn [leave stage inFlight set_inFlight access_tokens journal clients users
       nextId] in Hout.
  rewrite Hq in Hout.
  assert (Hb1 : isBearer (namespaced client d1) = true)
    by (rewrite namespaced_isBearer; reflexivity).
  assert (Hl1 : IAccessToken.linkedToken (namespaced client d1) = None)
    by (rewrite namespaced_linkedToken; reflexivity).
  assert (Ht1 : IAccessToken.token (namespaced client d1)
                = IAccessToken.token d1)
    by (rewrite namespaced_token; reflexivity).
  assert (Hafter : after = settle U G cfg env out.2) by reflexivity.
  clearbody after. subst out.
  unfold settle in Hafter.
  cbn [snd inFlight set_inFlight fold_left app access_tokens journal clients
       users nextId steps] in Hafter.
  exists d1. cbn [fst snd access_tokens journal inFlight app].
  split; [reflexivity|]. split; [split_and!; reflexivity|].
  split; [split_and!; reflexivity|].
  destruct (lifetimeFits env (json resp)) eqn:Hfits.
  - assert (He1 : IAccessToken.expiresAt d1 <> Some NaN).
    { intros H. apply Hfit in H. discriminate H. }
    rewrite (step_started U G cfg env d1 _ client) in Hafter
      by first [exact Hc' | reflexivity | exact He1].
    rewrite step_hooked, step_written in Hafter.
    rewrite (post_save_other (namespaced client d1)) in Hafter
      by (right; exact Hl1).
    cbv beta iota zeta in Hafter.
    unfold insertOne in Hafter.
    cbn [snd set_access_tokens set_inFlight access_tokens journal
         inFlight clients users nextId] in Hafter.
    rewrite namespaced_id in Hafter. subst after.
    cbn [access_tokens journal inFlight]. split; [reflexivity|].
    exists (namespaced client d1). split_and!; try reflexivity; assumption.
  - assert (He1 : IAccessToken.expiresAt d1 = Some NaN)
      by (apply Hfit; reflexivity).
    rewrite (step_started_invalid U G cfg env d1 _ He1) in Hafter.
    rewrite !step_settled in Hafter.
    cbv beta iota zeta in Hafter. subst after.
    cbn [snd set_inFlight access_tokens journal inFlight].
    split_and!; reflexivity.
Qed.

(** X15. A provider-role refresh started from a bearer token whose
    linkedToken is a stored refresh token, answered with a new refresh token:
    the record removed is the bearer token the refresh was started from, not
    the old refresh token, and its removal is the first write to reach the
    collection. When the method returns, and once every save has run to its
    end, the old refresh token is still in the collection, beside the new
    one. *)
Theorem provider_refresh_from_bearer env self w l old client resp rt :
  isRefreshToken self = false ->
  IAccessToken.linkedToken self = Some l ->
  access_tokens w !! l = Some old ->
  isRefreshToken old = true ->
  IAccessToken.clientRole self = provider ->
  clients w !! IAccessToken.client self = Some client ->
  IClient._id client = IAccessToken.client self ->
  (forall req, fetch env req = resp) ->
  status resp = 200 ->
  truthy (IFormalAccessToken.refresh_token (json resp)) = Some rt ->
  l <> IAccessToken._id self ->
  l <> Pos.succ (nextId w) ->
  IAccessToken._id self <> nextId w ->
  IAccessToken._id self <> Pos.succ (nextId w) ->
  inFlight w = [] ->
  access_tokens w !! nextId w = None ->
  let out := accessTokenFromRefresh U G cfg env self w in
  let after := settle U G cfg env out.2 in
  exists tok ref,
    out.1 = Return (Some tok)
    /\ isRefreshToken ref = true
    /\ IAccessToken.token ref = rt
    /\ (access_tokens out.2 !! IAccessToken._id self = None
        /\ access_tokens out.2 !! l = Some old
        /\ access_tokens out.2 !! Pos.succ (nextId w) = Some ref)
    /\ (access_tokens after !! IAccessToken._id self = None
        /\ access_tokens after !! l = Some old
        /\ access_tokens after !! Pos.succ (nextId w) = Some ref)
    /\ exists rest,
         journal out.2
         = (journal w ++ OpRemove (IAccessToken._id self) :: rest)%list
         /\ In (OpSave (Pos.succ (nextId w))) rest.
Proof.
  intros Hr Hl Hold Holdr Hrole Hc Hk Hf Hs Hrt Hls Hl2 Hn1 Hn2 Hq Hfresh
    out after.
  assert (Hres : (if isRefreshToken self then Some self
                  else match IAccessToken.linkedToken self with
                       | Some l => access_tokens w !! l
                       | None => None
                       end) = Some old)
    by (rewrite Hr, Hl; exact Hold).
  assert (Hl1 : l <> nextId w) by (intros ->; congruence).
  destruct (provider_rotation U G cfg env self w old client resp rt
              Hres Hrole Hc Hk Hf Hs Hrt Hn1 Hn2 Hq Hfresh)
    as (tok & ref & H1 & _ & (H3 & H4 & _) & (H5 & H6 & _ & H7)
        & (_ & H8 & H9 & _) & Hkeep).
  destruct (Hkeep l old Hls Hl1 Hl2 Hold) as [Hk1 Hk2].
  { unfold siblingOf, isBearer, isRefreshToken in *.
    apply bool_decide_eq_true_1 in Holdr. rewrite Holdr. reflexivity. }
  exists tok, ref. split; [exact H1|]. split; [exact H3|]. split; [exact H4|].
  split; [split_and!; [exact H5|exact Hk1|exact H6]|].
  split; [split_and!; [exact H8|exact Hk2|exact H9]|exact H7].
Qed.

(** X16. Whatever branch a refresh takes and however it ends, it leaves
    the clients and the users as they were, and a collection in which every
    document is filed under its own identifier stays so. *)
Theorem accessTokenFromRefresh_frame env self w :
  wellKeyed (access_tokens w) ->
  let w' := (accessTokenFromRefresh U G cfg env self w).2 in
  wellKeyed (access_tokens w') /\ clients w' = clients w /\ users w' = users w.
Proof.
  intros Hwf.
  assert (Hsave : forall d x,
            wellKeyed (access_tokens x) ->
            wellKeyed (access_tokens (save U G cfg env d x).2)
            /\ clients (save U G cfg env d x).2 = clients x
            /\ users (save U G cfg env d x).2 = users x).
  { intros d x Hx. split; [apply save_wellKeyed, Hx|].
    split; [apply save_clients|].
    unfold save. destruct (bool_decide _); [reflexivity|].
    destruct (pre_save U G cfg env x d) as [[r|e] d']; [|reflexivity].
    simpl. unfold post_save. destruct (IAccessToken.linkedToken d'); [|reflexivity].
    destruct (isBearer d'); reflexivity. }
  unfold accessTokenFromRefresh.
  destruct (if isRefreshToken self then _ else _) as [old|]; [|auto].
  destruct (IAccessToken.clientRole self); [| |simpl; auto].
  - destruct (clients w !! IAccessToken.client self) as [client|]; [|simpl; auto].
    destruct (negb _); [simpl; auto|].
    unfold fromFormalToken.
    destruct (truthy (IFormalAccessToken.refresh_token _)) as [rt|];
      cbn [newObjectId]; cbv zeta.
    + match goal with
      | |- context [steps U G cfg env ?n ?t ?x] =>
          destruct (steps_frame U G cfg env n t x) as (H1 & H2 & H3);
            [simpl; apply wellKeyed_delete, Hwf|];
          destruct (steps U G cfg env n t x) as [t3 w3]
      end.
      simpl in H1, H2, H3.
      match goal with
      | |- context [save U G cfg env ?d w3] =>
          destruct (Hsave d w3 H1) as (H4 & H5 & H6);
          destruct (save U G cfg env d w3) as [[[|e] d4] w4]
      end; simpl in H4, H5, H6.
      * match goal with
        | |- context [steps U G cfg env ?n t3 w4] =>
            destruct (steps_frame U G cfg env n t3 w4 H4) as (H7 & H8 & H9);
            destruct (steps U G cfg env n t3 w4) as [t5 w5]
        end.
        simpl in H7, H8, H9. simpl.
        destruct (leave_frame t5 w5) as (L1 & L2 & L3). rewrite L1, L2, L3.
        split_and!; [exact H7|congruence|congruence].
      * simpl. destruct (leave_frame t3 w4) as (L1 & L2 & L3).
        rewrite L1, L2, L3. split_and!; [exact H4|congruence|congruence].
    + simpl. auto.
  - cbn [newObjectId].
    match goal with
    | |- context [save U G cfg env ?d ?x] =>
        destruct (Hsave d x Hwf) as (H1 & H2 & H3);
        destruct (save U G cfg env d x) as [[[|] d1] x1]
    end; simpl in *; auto.
Qed.

End MoreRefresh.

(** ** Dispatch to the driver *)

Lemma getHttpResponse_unfold getDriver first req location ctx :
  Web.scopeContext req = Some ctx ->
  Web.getHttpResponse getDriver first req location
  = (_ ← (if bool_decide (Some (requiredScope location) = Web.currentScope ctx)
          then Return (Some (requiredScope location,
                             Web.currentScopeAccessToken ctx))
          else match Web.user ctx with
               | None => Throw TypeError
               | Some u => first u (requiredScope location)
               end);
     driver ← getDriver location;
     if String.eqb (Web.reqMethod req) "GET" then Web.get driver location
     else if String.eqb (Web.reqMethod req) "HEAD" then Web.head driver location
     else if String.eqb (Web.reqMethod req) "PUT"
          then Web.put driver location (Web.reqBody req)
     else if String.eqb (Web.reqMethod req) "DELETE"
          then Web.delete driver location
     else if String.eqb (Web.reqMethod req) "CONNECT"
          then Web.proxy driver location
     else Return (Some {| Web.method := Web.reqMethod req; Web.status := 405;
                          Web.responseHref := Web.href location;
                          Web.headers := None; Web.body := None |})).
Proof. intros H. unfold Web.getHttpResponse, requiredScope. rewrite H. reflexivity. Qed.

(** X17. For a verb other than GET, HEAD, PUT, DELETE and CONNECT (the
    comparison is case sensitive), getHttpResponse answers with status 405,
    the verb and the location's href, without headers or body and whatever
    the driver's capabilities are, once the scope step and the construction
    of the driver have gone through. *)
Theorem getHttpResponse_unknown_verb :
  forall getDriver first req location ctx driver,
    Web.scopeContext req = Some ctx ->
    (Some (requiredScope location) = Web.currentScope ctx
     \/ exists u, Web.user ctx = Some u
                  /\ returned (first u (requiredScope location))) ->
    getDriver location = Return driver ->
    ~ In (Web.reqMethod req) dispatchedVerbs ->
    Web.getHttpResponse getDriver first req location
    = Return (Some {| Web.method := Web.reqMethod req; Web.status := 405;
                      Web.responseHref := Web.href location;
                      Web.headers := None; Web.body := None |}).
Proof.
  intros getDriver first req location ctx driver Hctx Hscope Hd Hv.
  rewrite (getHttpResponse_unfold _ _ _ _ ctx Hctx), Hd.
  assert (Hstep : exists p,
            (if bool_decide (Some (requiredScope location) = Web.currentScope ctx)
             then Return (Some (requiredScope location,
                                Web.currentScopeAccessToken ctx))
             else match Web.user ctx with
                  | None => Throw TypeError
                  | Some u => first u (requiredScope location)
                  end) = Return p).
  { destruct Hscope as [H|(u & Hu & Hr)].
    - rewrite (bool_decide_eq_true_2 _ H). eauto.
    - destruct (bool_decide _); [eauto|]. rewrite Hu.
      destruct (first u (requiredScope location)); [eauto|destruct Hr]. }
  destruct Hstep as [p ->]. cbn [mbind Completion_bind].
  unfold dispatchedVerbs in Hv. simpl in Hv.
  repeat match goal with
         | |- context [String.eqb ?a ?b] =>
             let He := fresh "He" in
             destruct (String.eqb_spec a b) as [He|He];
               [exfalso; apply Hv; rewrite He; tauto|]
         end.
  reflexivity.
Qed.

(** X18. getHttpResponse throws a TypeError, before any driver is built,
    when the request carries no scope context, and when the scope the
    location asks for is not the current scope and the context has no
    user. *)
Theorem getHttpResponse_without_context :
  forall getDriver first req location,
    (Web.scopeContext req = None ->
     Web.getHttpResponse getDriver first req location = Throw TypeError)
    /\ (forall ctx,
          Web.scopeContext req = Some ctx ->
          Some (requiredScope location) <> Web.currentScope ctx ->
          Web.user ctx = None ->
          Web.getHttpResponse getDriver first req location = Throw TypeError).
Proof.
  intros getDriver first req location. split.
  - intros H. unfold Web.getHttpResponse. rewrite H. reflexivity.
  - intros ctx Hctx Hne Hu.
    rewrite (getHttpResponse_unfold _ _ _ _ ctx Hctx).
    rewrite (bool_decide_eq_false_2 _ Hne), Hu. reflexivity.
Qed.

(** X19. getHttpResponse does not use what the user's generator yields:
    with two generators that both return, whatever they yield (a token or
    none), the request is dispatched to the same result. *)
Theorem getHttpResponse_ignores_the_token :
  forall getDriver first1 first2 req location,
    (forall u s, returned (first1 u s)) ->
    (forall u s, returned (first2 u s)) ->
    Web.getHttpResponse getDriver first1 req location
    = Web.getHttpResponse getDriver first2 req location.
Proof.
  intros getDriver first1 first2 req location H1 H2.
  destruct (Web.scopeContext req) as [ctx|] eqn:Hctx.
  - rewrite !(getHttpResponse_unfold _ _ _ _ ctx Hctx).
    destruct (bool_decide _); [reflexivity|].
    destruct (Web.user ctx) as [u|]; [|reflexivity].
    specialize (H1 u (requiredScope location)).
    specialize (H2 u (requiredScope location)).
    destruct (first1 u (requiredScope location)); [|destruct H1].
    destruct (first2 u (requiredScope location)); [|destruct H2].
    reflexivity.
  - unfold Web.getHttpResponse. rewrite Hctx. reflexivity.
Qed.

(** X20. What the handler writes for a resolved request outside "/auth":
    for a response, the status first and the end of the response last, with
    neither in between; for a null response nothing at all, and the next
    middleware is not asked for; for a thrown error nothing, and the error
    is rethrown. *)
Theorem handler_writes_status_first_end_last :
  forall resolve getDriver first req location,
    ~ JsString.begins_with "/auth" (Web.originalUrl req) ->
    resolve (Web.hrefOf req) = Return (Some location) ->
    let h := Web.handler resolve getDriver first req in
    match Web.getHttpResponse getDriver first req location with
    | Return (Some response) =>
        Web.completion h = Return false
        /\ exists middle,
             Web.sent h
             = (Web.ResStatus (Web.status response) :: middle ++ [Web.ResEnd])%list
             /\ Forall (fun o => match o with
                                 | Web.ResSet _ _ | Web.ResSend _ => True
                                 | _ => False
                                 end) middle
    | Return None => Web.completion h = Return false /\ Web.sent h = []
    | Throw e => Web.completion h = Throw e /\ Web.sent h = []
    end.
Proof.
  intros resolve getDriver first req location Hna Hres h. subst h.
  unfold Web.handler.
  destruct (String.eqb_spec (JsString.substr0 5 (Web.originalUrl req)) "/auth")
    as [Ha|Ha].
  { destruct Hna. apply (substr0_begins_with "/auth"). exact Ha. }
  rewrite Hres.
  destruct (Web.getHttpResponse getDriver first req location)
    as [[response|]|e]; simpl; [|split; reflexivity..].
  split; [reflexivity|].
  eexists (_ ++ _)%list. split; [rewrite <- app_assoc; reflexivity|].
  apply Forall_app. split.
  - destruct (Web.headers response) as [hs|]; [|constructor].
    apply Forall_map. apply Forall_forall. intros; exact I.
  - destruct (Web.body response); repeat constructor.
Qed.

(** ** The further properties at work *)

(** X4 at work: saving a token in a database without clients. *)
Lemma save_without_client_throws_witness :
  save Ex.grantsNothing Ex.noTokens Ex.config (Ex.env 1000 None)
    Ex.refreshProvider Sample.emptyWorld
  = (Throw TypeError, Ex.refreshProvider, Sample.emptyWorld).
Proof.
  apply (proj2 (save_without_client_throws Ex.grantsNothing Ex.noTokens
                  Ex.config (Ex.env 1000 None) Ex.refreshProvider
                  Sample.emptyWorld eq_refl ltac:(discriminate))).
Defined.

(** X5 at work: the scope "svc.read" of a token of the client svc after two
    runs of the hook. *)
Lemma pre_save_prefixes_again_witness :
  IAccessToken.scope
    (pre_save Ex.grantsNothing Ex.noTokens Ex.config (Ex.env 2000 None)
       (Ex.world Ex.svc [] 1%positive)
       (pre_save Ex.grantsNothing Ex.noTokens Ex.config (Ex.env 1000 None)
          (Ex.world Ex.svc [] 1%positive) Ex.refreshProvider).2).2
  = ["svc.svc.svc.read"].
Proof.
  apply (pre_save_prefixes_again Ex.grantsNothing Ex.noTokens Ex.config
           (Ex.env 1000 None) (Ex.env 2000 None)
           (Ex.world Ex.svc [] 1%positive) (Ex.world Ex.svc [] 1%positive)
           Ex.refreshProvider Ex.svc).
  - reflexivity.
  - vm_compute. reflexivity.
  - vm_compute. reflexivity.
Defined.

(** X6 at work: alice's token for "billing.write", which nobody grants,
    under a client whose tokens never expire; the hook returns when she
    holds a token for the scope and throws when she holds none. *)
Lemma pre_save_user_check_witness :
  returned (pre_save Ex.grantsNothing Ex.holdsTokens Ex.config
              (Ex.env 1000 None)
              (Ex.world Ex.svcNeverExpires [] 1%positive) Ex.billing).1
  /\ ~ returned (pre_save Ex.grantsNothing Ex.noTokens Ex.config
                   (Ex.env 1000 None)
                   (Ex.world Ex.svcNeverExpires [] 1%positive) Ex.billing).1.
Proof.
  assert (Hc : clients (Ex.world Ex.svcNeverExpires [] 1%positive)
               !! IAccessToken.client Ex.billing = Some Ex.svcNeverExpires)
    by (vm_compute; reflexivity).
  assert (Hr : reachesUserCheck Ex.svcNeverExpires Ex.billing)
    by (split; intros _; reflexivity).
  assert (Hu : users (Ex.world Ex.svcNeverExpires [] 1%positive) !! 20%positive
               = Some Ex.alice)
    by (vm_compute; reflexivity).
  split.
  - apply (proj1 (pre_save_user_check Ex.grantsNothing Ex.holdsTokens Ex.config
                    (Ex.env 1000 None)
                    (Ex.world Ex.svcNeverExpires [] 1%positive) Ex.billing
                    Ex.svcNeverExpires 20%positive Ex.alice
                    Hc Hr eq_refl eq_refl Hu)).
    constructor; [|constructor].
    exists "billing.write", 7%positive. reflexivity.
  - intros H.
    apply (proj1 (pre_save_user_check Ex.grantsNothing Ex.noTokens Ex.config
                    (Ex.env 1000 None)
                    (Ex.world Ex.svcNeverExpires [] 1%positive) Ex.billing
                    Ex.svcNeverExpires 20%positive Ex.alice
                    Hc Hr eq_refl eq_refl Hu)) in H.
    inversion H as [|? ? (s & t & Heq) _]. discriminate Heq.
Defined.

(** X7 at work: a member of the scope list. *)
Lemma isAuthorizedToDo_extends_membership_witness :
  isAuthorizedToDo (E := ES.engine)
    (Ex.token 3%positive Bearer consumer None ["read"; "write"] None) "write"
  = Return true.
Proof.
  apply (isAuthorizedToDo_extends_membership
           (Ex.token 3%positive Bearer consumer None ["read"; "write"] None)
           "write").
  - constructor; [split; reflexivity|].
    constructor; [split; reflexivity|]. constructor.
  - reflexivity.
Defined.

(** X8 at work: a token whose scope list holds the empty string. *)
Lemma empty_scope_authorizes_everything_witness :
  isAuthorizedToDo (E := ES.engine)
    (Ex.token 3%positive Bearer consumer None ["read"; ""] None)
    "billing.write"
  = Return true.
Proof.
  apply (empty_scope_authorizes_everything
           (Ex.token 3%positive Bearer consumer None ["read"; ""] None)
           "billing.write").
  - constructor; [vm_compute; exact I|].
    constructor; [vm_compute; exact I|]. constructor.
  - left. right. left. reflexivity.
Defined.

(** X10 at work: the upstream's answer, turned into a pair for alice as a
    consumer and read back in a collection that holds the refresh token. *)
Lemma toFormalToken_reads_back_witness :
  toFormalToken (E := ES.engine) (Ex.env 1000 None)
    (QueryDocument
       (fromFormalToken (Ex.env 1000 None) Sample.answer (Some 20%positive)
          Ex.svc consumer (Ex.world Ex.svc [] 1%positive)).1.1)
    (Ex.world Ex.svc [Sample.issuedRefresh] 3%positive)
  = Return (Some {| Formal.access_token := Some "a1";
                    Formal.refresh_token := Some "r1";
                    Formal.scope := "read";
                    Formal.expires_in := Some 3600;
                    Formal.token_type := Some Bearer |}).
Proof.
  apply (toFormalToken_reads_back ES.engine (Ex.env 1000 None) Sample.answer
           (Some 20%positive) Ex.svc consumer (Ex.world Ex.svc [] 1%positive)
           (Ex.world Ex.svc [Sample.issuedRefresh] 3%positive)).
  - discriminate.
  - intros refresh H. injection H as <-. vm_compute. reflexivity.
Defined.

(** X12 at work: a token that expired 400 ms ago is read as having 0
    seconds left. *)
Lemma toFormalToken_rounds_the_time_left_witness :
  toFormalToken (E := ES.engine) (Ex.env 1400 None)
    (QueryDocument Ex.expiredReader) (Ex.world Ex.svc [] 1%positive)
  = Return (Some {| Formal.access_token := Some "opaque";
                    Formal.refresh_token := None;
                    Formal.scope := "read";
                    Formal.expires_in := Some 0;
                    Formal.token_type := Some Bearer |})
  /\ exists s, Some 0 = Some s /\ -500 < 1000 * s - (1000 - 1400) <= 500.
Proof.
  assert (H : toFormalToken (E := ES.engine) (Ex.env 1400 None)
                (QueryDocument Ex.expiredReader) (Ex.world Ex.svc [] 1%positive)
              = Return (Some {| Formal.access_token := Some "opaque";
                                Formal.refresh_token := None;
                                Formal.scope := "read";
                                Formal.expires_in := Some 0;
                                Formal.token_type := Some Bearer |}))
    by (vm_compute; reflexivity).
  split; [exact H|].
  exact (toFormalToken_rounds_the_time_left ES.engine (Ex.env 1400 None)
           Ex.expiredReader (Ex.world Ex.svc [] 1%positive) _ H).
Defined.

(** X14 at work: the refresh token 1 of the client svc, the upstream
    answering without a refresh token; the new token 2 is not in the
    collection when the method returns, and is once its save has run to its
    end. *)
Lemma provider_refresh_without_rotation_witness :
  exists tok stored,
    (accessTokenFromRefresh Ex.grantsNothing Ex.noTokens Ex.config
       (Ex.env 1000 None) Ex.refreshProvider
       (Ex.world Ex.svc [Ex.refreshProvider] 2%positive)).1
    = Return (Some tok)
    /\ IAccessToken._id tok = 2%positive
    /\ IAccessToken.linkedToken tok = None
    /\ access_tokens
         (accessTokenFromRefresh Ex.grantsNothing Ex.noTokens Ex.config
            (Ex.env 1000 None) Ex.refreshProvider
            (Ex.world Ex.svc [Ex.refreshProvider] 2%positive)).2
       = access_tokens (Ex.world Ex.svc [Ex.refreshProvider] 2%positive)
    /\ journal
         (accessTokenFromRefresh Ex.grantsNothing Ex.noTokens Ex.config
            (Ex.env 1000 None) Ex.refreshProvider
            (Ex.world Ex.svc [Ex.refreshProvider] 2%positive)).2
       = []
    /\ access_tokens
         (settle Ex.grantsNothing Ex.noTokens Ex.config (Ex.env 1000 None)
            (accessTokenFromRefresh Ex.grantsNothing Ex.noTokens Ex.config
               (Ex.env 1000 None) Ex.refreshProvider
               (Ex.world Ex.svc [Ex.refreshProvider] 2%positive)).2)
       = <[2%positive := stored]>
           (access_tokens (Ex.world Ex.svc [Ex.refreshProvider] 2%positive))
    /\ IAccessToken.token stored = IAccessToken.token tok.
Proof.
  assert (Hfits : lifetimeFits (Ex.env 1000 None)
                    (json (Ex.upstream None 200 {| uri := ""; query := [] |}))
                  = true)
    by (vm_compute; reflexivity).
  destruct (provider_refresh_without_rotation Ex.grantsNothing Ex.noTokens
              Ex.config (Ex.env 1000 None) Ex.refreshProvider
              (Ex.world Ex.svc [Ex.refreshProvider] 2%positive)
              Ex.refreshProvider Ex.svc
              (Ex.upstream None 200 {| uri := ""; query := [] |}))
    as (tok & H1 & (H2 & _ & _ & H3) & (H4 & H5 & _) & _ & H6).
  - reflexivity.
  - reflexivity.
  - vm_compute. reflexivity.
  - reflexivity.
  - intros req. reflexivity.
  - reflexivity.
  - reflexivity.
  - reflexivity.
  - rewrite Hfits in H6. destruct H6 as (stored & H7 & _ & _ & H8 & _).
    exists tok, stored. split; [exact H1|]. split; [exact H2|].
    split; [exact H3|]. split; [exact H4|]. split; [exact H5|].
    split; [exact H7|exact H8].
Defined.

(** X15 at work: the refresh started from the bearer token 2, linked to
    the refresh token 1; afterwards 2 is gone, 1 is still there and the new
    refresh token is 4. *)
Lemma provider_refresh_from_bearer_witness :
  exists tok ref,
    (accessTokenFromRefresh Ex.grantsNothing Ex.noTokens Ex.config
       (Ex.env 1000 (Some "r1")) Sample.bearerProvider
       (Ex.world Ex.svc [Ex.refreshProvider; Sample.bearerProvider]
          3%positive)).1
    = Return (Some tok)
    /\ IAccessToken.token ref = "r1"
    /\ access_tokens
         (accessTokenFromRefresh Ex.grantsNothing Ex.noTokens Ex.config
            (Ex.env 1000 (Some "r1")) Sample.bearerProvider
            (Ex.world Ex.svc [Ex.refreshProvider; Sample.bearerProvider]
               3%positive)).2
       !! 2%positive = None
    /\ access_tokens
         (accessTokenFromRefresh Ex.grantsNothing Ex.noTokens Ex.config
            (Ex.env 1000 (Some "r1")) Sample.bearerProvider
            (Ex.world Ex.svc [Ex.refreshProvider; Sample.bearerProvider]
               3%positive)).2
       !! 1%positive = Some Ex.refreshProvider
    /\ access_tokens
         (accessTokenFromRefresh Ex.grantsNothing Ex.noTokens Ex.config
            (Ex.env 1000 (Some "r1")) Sample.bearerProvider
            (Ex.world Ex.svc [Ex.refreshProvider; Sample.bearerProvider]
               3%positive)).2
       !! 4%positive = Some ref
    /\ access_tokens
         (settle Ex.grantsNothing Ex.noTokens Ex.config
            (Ex.env 1000 (Some "r1"))
            (accessTokenFromRefresh Ex.grantsNothing Ex.noTokens Ex.config
               (Ex.env 1000 (Some "r1")) Sample.bearerProvider
               (Ex.world Ex.svc [Ex.refreshProvider; Sample.bearerProvider]
                  3%positive)).2)
       !! 1%positive = Some Ex.refreshProvider.
Proof.
  destruct (provider_refresh_from_bearer Ex.grantsNothing Ex.noTokens
              Ex.config (Ex.env 1000 (Some "r1")) Sample.bearerProvider
              (Ex.world Ex.svc [Ex.refreshProvider; Sample.bearerProvider]
                 3%positive)
              1%positive Ex.refreshProvider Ex.svc
              (Ex.upstream (Some "r1") 200 {| uri := ""; query := [] |}) "r1")
    as (tok & ref & H1 & _ & H2 & (H3 & H4 & H5) & (_ & H6 & _) & _).
  - reflexivity.
  - reflexivity.
  - vm_compute. reflexivity.
  - reflexivity.
  - reflexivity.
  - vm_compute. reflexivity.
  - reflexivity.
  - intros req. reflexivity.
  - reflexivity.
  - reflexivity.
  - discriminate.
  - discriminate.
  - discriminate.
  - discriminate.
  - reflexivity.
  - vm_compute. reflexivity.
  - exists tok, ref. split; [exact H1|]. split; [exact H2|].
    split; [exact H3|]. split; [exact H4|]. split; [exact H5|exact H6].
Defined.

(** X16 at work: a consumer-role refresh in a collection filed by
    identifier. *)
Lemma accessTokenFromRefresh_frame_witness :
  wellKeyed
    (access_tokens
       (accessTokenFromRefresh Ex.grantsNothing Ex.noTokens Ex.config
          (Ex.env 1000 None) Ex.refreshConsumer
          (Ex.world Ex.svc [Ex.refreshConsumer; Ex.bearerConsumer] 3%positive)).2)
  /\ clients
       (accessTokenFromRefresh Ex.grantsNothing Ex.noTokens Ex.config
          (Ex.env 1000 None) Ex.refreshConsumer
          (Ex.world Ex.svc [Ex.refreshConsumer; Ex.bearerConsumer] 3%positive)).2
     = clients (Ex.world Ex.svc [Ex.refreshConsumer; Ex.bearerConsumer] 3%positive)
  /\ users
       (accessTokenFromRefresh Ex.grantsNothing Ex.noTokens Ex.config
          (Ex.env 1000 None) Ex.refreshConsumer
          (Ex.world Ex.svc [Ex.refreshConsumer; Ex.bearerConsumer] 3%positive)).2
     = users (Ex.world Ex.svc [Ex.refreshConsumer; Ex.bearerConsumer] 3%positive).
Proof.
  apply (accessTokenFromRefresh_frame Ex.grantsNothing Ex.noTokens Ex.config
           (Ex.env 1000 None) Ex.refreshConsumer
           (Ex.world Ex.svc [Ex.refreshConsumer; Ex.bearerConsumer] 3%positive)).
  exact wellKeyed_example.
Defined.

(** X17 at work: a PATCH request for a path the resolver claims. *)
Lemma getHttpResponse_unknown_verb_witness :
  Web.getHttpResponse Ex.okDriver Ex.anyToken Sample.patch
    (Ex.location "https://attic.local/files/a.txt")
  = Return (Some {| Web.method := "PATCH"; Web.status := 405;
                    Web.responseHref := "https://attic.local/files/a.txt";
                    Web.headers := None; Web.body := None |}).
Proof.
  eapply (getHttpResponse_unknown_verb Ex.okDriver Ex.anyToken Sample.patch
            (Ex.location "https://attic.local/files/a.txt")).
  - reflexivity.
  - right. exists Ex.alice. split; [reflexivity|exact I].
  - reflexivity.
  - intros [H|[H|[H|[H|[H|[]]]]]]; discriminate H.
Defined.

(** X19 at work: a generator that yields a token and one that yields no
    pair. *)
Lemma getHttpResponse_ignores_the_token_witness :
  Web.getHttpResponse Ex.okDriver Ex.anyToken (Ex.request "/files/a.txt")
    (Ex.location "https://attic.local/files/a.txt")
  = Web.getHttpResponse Ex.okDriver Sample.noPair (Ex.request "/files/a.txt")
      (Ex.location "https://attic.local/files/a.txt").
Proof.
  apply (getHttpResponse_ignores_the_token Ex.okDriver Ex.anyToken
           Sample.noPair (Ex.request "/files/a.txt")
           (Ex.location "https://attic.local/files/a.txt")).
  - intros u s. exact I.
  - intros u s. exact I.
Defined.

(** X20 at work: a GET request for a path the resolver claims, answered
    with 200 and a body. *)
Lemma handler_writes_status_first_end_last_witness :
  Web.completion
    (Web.handler Ex.resolver Ex.okDriver Ex.anyToken
       (Ex.request "/files/a.txt")) = Return false
  /\ exists middle,
       Web.sent (Web.handler Ex.resolver Ex.okDriver Ex.anyToken
                   (Ex.request "/files/a.txt"))
       = (Web.ResStatus 200 :: middle ++ [Web.ResEnd])%list
       /\ Forall (fun o => match o with
                           | Web.ResSet _ _ | Web.ResSend _ => True
                           | _ => False
                           end) middle.
Proof.
  assert (Hna : ~ JsString.begins_with "/auth"
                    (Web.originalUrl (Ex.request "/files/a.txt"))).
  { intros [rest H]. discriminate H. }
  assert (Hres : Ex.resolver (Web.hrefOf (Ex.request "/files/a.txt"))
                 = Return (Some (Ex.location "https://attic.local/files/a.txt")))
    by (vm_compute; reflexivity).
  exact (handler_writes_status_first_end_last Ex.resolver Ex.okDriver
           Ex.anyToken (Ex.request "/files/a.txt")
           (Ex.location "https://attic.local/files/a.txt") Hna Hres).
Defined.

(** ** Edges of the user check, and lifetimes *)

(** X21. Past its two early returns the pre-save hook checks nothing for
    a token without a user and for a token whose role is not consumer: it
    returns without a value, whatever the scope. For a consumer-role token
    whose user is not in the database it throws a TypeError. *)
Theorem pre_save_user_check_edges :
  forall U G cfg env w this client,
    clients w !! IAccessToken.client this = Some client ->
    reachesUserCheck client this ->
    (IAccessToken.user this = None \/ IAccessToken.clientRole this <> consumer ->
     (pre_save U G cfg env w this).1 = Return None)
    /\ (forall uid,
          IAccessToken.clientRole this = consumer ->
          IAccessToken.user this = Some uid ->
          users w !! uid = None ->
          (pre_save U G cfg env w this).1 = Throw TypeError).
Proof.
  intros U G cfg env w this client Hc [Hb Hr].
  assert (Hp : (pre_save U G cfg env w this).1
               = match IAccessToken.user this with
                 | None => Return None
                 | Some uid =>
                     if bool_decide (IAccessToken.clientRole this = consumer)
                     then match users w !! uid with
                          | None => Throw TypeError
                          | Some user =>
                              forAwaitTokens
                                (G w user
                                   (unauthorizedScopes
                                      (getValidInvalidScopes U
                                         (IAccessToken.scope
                                            (pre_save U G cfg env w this).2)
                                         client user)))
                          end
                     else Return None
                 end).
  { unfold pre_save. rewrite Hc.
    destruct this as [id ty tk lk ex sc us cl ro nm].
    unfold isBearer, isRefreshToken in *. simpl in *.
    destruct (bool_decide (ro = provider) && negb (bool_decide (sc = [])));
      simpl;
      (destruct (bool_decide (ty = Some Bearer));
         [rewrite (Hb eq_refl)|]; simpl);
      (destruct (bool_decide (ty = Some RefreshToken));
         [rewrite (Hr eq_refl)|]; simpl);
      destruct us as [uid|]; try reflexivity;
      destruct (bool_decide (ro = consumer)); try reflexivity;
      destruct (users w !! uid); reflexivity. }
  split.
  - intros [Hu|Hro]; rewrite Hp.
    + rewrite Hu. reflexivity.
    + destruct (IAccessToken.user this); [|reflexivity].
      rewrite (bool_decide_eq_false_2 _ Hro). reflexivity.
  - intros uid Hro Hu Hus. rewrite Hp, Hu, (bool_decide_eq_true_2 _ Hro), Hus.
    reflexivity.
Qed.

(** X22. The lifetime of a token minted by a consumer-role refresh comes
    from config.expireTokenIn alone, whatever the client's
    expireAccessTokenIn: a token that the refresh returns expires
    config.expireTokenIn after the refresh and carries the fresh token
    string. When config.expireTokenIn is not set the refresh fails with a
    ValidationError and writes nothing. *)
Theorem consumer_refresh_lifetime :
  forall U G cfg env self w,
    IAccessToken.clientRole self = consumer ->
    (forall tok w',
       accessTokenFromRefresh U G cfg env self w = (Return (Some tok), w') ->
       exists d, IConfig.expireTokenIn cfg = Some d
                 /\ IAccessToken.expiresAt tok = Some (Num (now env + d))
                 /\ IAccessToken.token tok = nanoid env)
    /\ (IConfig.expireTokenIn cfg = None ->
        (isRefreshToken self = true
         \/ exists l old, IAccessToken.linkedToken self = Some l
                          /\ access_tokens w !! l = Some old) ->
        let r := accessTokenFromRefresh U G cfg env self w in
        r.1 = Throw ValidationError
        /\ access_tokens r.2 = access_tokens w
        /\ journal r.2 = journal w).
Proof.
  intros U G cfg env self w Hrole. split.
  - intros tok w' H. unfold accessTokenFromRefresh in H. rewrite Hrole in H.
    destruct (if isRefreshToken self then Some self else _) as [refreshToken|];
      [|discriminate].
    cbn [newObjectId] in H.
    match type of H with
    | context [save U G cfg env ?d ?w1] =>
        pose proof (pre_save_expiresAt U G cfg env w1 d) as Hex;
        pose proof (pre_save_token U G cfg env w1 d) as Htk;
        unfold save in H;
        destruct (bool_decide (IAccessToken.expiresAt d = Some NaN)) eqn:Hnan;
          [discriminate|];
        destruct (pre_save U G cfg env w1 d) as [[r|e] d'] eqn:Hp;
          [|discriminate]
    end.
    injection H as <- <-. simpl in Hex, Htk, Hnan.
    destruct (IConfig.expireTokenIn cfg) as [d|]; [|discriminate].
    exists d. split; [reflexivity|]. split; assumption.
  - intros Hcfg Hres r. subst r. unfold accessTokenFromRefresh. rewrite Hrole.
    assert (Hsome : exists old,
               (if isRefreshToken self then Some self
                else match IAccessToken.linkedToken self with
                     | Some l => access_tokens w !! l
                     | None => None
                     end) = Some old).
    { destruct Hres as [->|(l & old & -> & Hl)]; [eauto|].
      destruct (isRefreshToken self); eauto. }
    destruct Hsome as [old ->]. cbn [newObjectId].
    unfold save. rewrite Hcfg. simpl. repeat split.
Qed.

(** X21 at work: under a client whose tokens never expire, a provider-role
    bearer token for alice is not checked, and a consumer-role token for a
    user who is not in the database makes the hook throw. *)
Lemma pre_save_user_check_edges_witness :
  (pre_save Ex.grantsNothing Ex.noTokens Ex.config (Ex.env 1000 None)
     (Ex.world Ex.svcNeverExpires [] 1%positive)
     (Ex.token 5%positive Bearer provider None ["billing.write"]
        (Some 20%positive))).1 = Return None
  /\ (pre_save Ex.grantsNothing Ex.noTokens Ex.config (Ex.env 1000 None)
        (Ex.world Ex.svcNeverExpires [] 1%positive)
        (Ex.token 5%positive Bearer consumer None ["billing.write"]
           (Some 21%positive))).1 = Throw TypeError.
Proof.
  split.
  - apply (proj1 (pre_save_user_check_edges Ex.grantsNothing Ex.noTokens
                    Ex.config (Ex.env 1000 None)
                    (Ex.world Ex.svcNeverExpires [] 1%positive)
                    (Ex.token 5%positive Bearer provider None ["billing.write"]
                       (Some 20%positive))
                    Ex.svcNeverExpires
                    ltac:(vm_compute; reflexivity)
                    ltac:(split; intros _; reflexivity))).
    right. discriminate.
  - apply (proj2 (pre_save_user_check_edges Ex.grantsNothing Ex.noTokens
                    Ex.config (Ex.env 1000 None)
                    (Ex.world Ex.svcNeverExpires [] 1%positive)
                    (Ex.token 5%positive Bearer consumer None ["billing.write"]
                       (Some 21%positive))
                    Ex.svcNeverExpires
                    ltac:(vm_compute; reflexivity)
                    ltac:(split; intros _; reflexivity)) 21%positive).
    + reflexivity.
    + reflexivity.
    + vm_compute. reflexivity.
Defined.

(** X22 at work: without config.expireTokenIn the consumer-role refresh
    from the refresh token 1 fails and writes nothing. *)
Lemma consumer_refresh_lifetime_witness :
  (accessTokenFromRefresh Ex.grantsNothing Ex.noTokens
     {| IConfig.expireTokenIn := None;
        IConfig.expireRefreshTokenIn := Some 86400000 |}
     (Ex.env 1000 None) Ex.refreshConsumer
     (Ex.world Ex.svc [Ex.refreshConsumer] 2%positive)).1
  = Throw ValidationError.
Proof.
  apply (proj2 (consumer_refresh_lifetime Ex.grantsNothing Ex.noTokens
                  {| IConfig.expireTokenIn := None;
                     IConfig.expireRefreshTokenIn := Some 86400000 |}
                  (Ex.env 1000 None) Ex.refreshConsumer
                  (Ex.world Ex.svc [Ex.refreshConsumer] 2%positive) eq_refl)).
  - reflexivity.
  - left. reflexivity.
Defined.
